(** * ForgeCraft: template composition, template loading and project refresh

    A shallow embedding of
      - [src/shared/types.ts]      (module [Types]),
      - [src/registry/composer.ts] (module [Composer]),
      - [src/registry/loader.ts]   (module [Loader]),
      - [src/tools/refresh-project.ts] (module [Refresh]),
    followed by the properties of the tag-scoped composition and drift
    engine.

    Conventions.  A TypeScript optional field [f?: T] is an [option T]; a
    string-literal union is an inductive type; a JavaScript [number] is a
    binary64 float; [Map<Tag, V>] is a [gmap Tag V]; a [Set<string>] that is
    only asked [has] and [add] is a [gset string]; a [Set<Tag>] that is later
    turned into an array keeps its insertion order and is a duplicate-free
    list.  Exceptions are values of [Result].  Logging is not modelled. *)

From Stdlib Require Import Floats ZArith Ascii.
From stdpp Require Import gmap strings list.

#[local] Set Warnings "-clear-no-such-hyp".

(* ===================================================================== *)
(** ** src/shared/types.ts *)
(* ===================================================================== *)

Module Types.

(** [ALL_TAGS]: the closed enumeration of project classification tags.
    The constructor [WEB_REACT] stands for the literal "WEB-REACT", and so
    on for the other hyphenated names. *)
Inductive Tag : Set :=
  | UNIVERSAL | WEB_REACT | WEB_STATIC | API | DATA_PIPELINE | ML
  | HEALTHCARE | FINTECH | WEB3 | REALTIME | STATE_MACHINE | GAME
  | SOCIAL | CLI | LIBRARY | INFRA | MOBILE | ANALYTICS.

Definition ALL_TAGS : list Tag :=
  [ UNIVERSAL; WEB_REACT; WEB_STATIC; API; DATA_PIPELINE; ML;
    HEALTHCARE; FINTECH; WEB3; REALTIME; STATE_MACHINE; GAME;
    SOCIAL; CLI; LIBRARY; INFRA; MOBILE; ANALYTICS ].

#[global] Instance Tag_eq_dec : EqDecision Tag.
Proof. solve_decision. Defined.

(** Position of a tag in [ALL_TAGS]; only used to key finite maps. *)
Definition Tag_index (t : Tag) : nat :=
  match t with
  | UNIVERSAL => 0 | WEB_REACT => 1 | WEB_STATIC => 2 | API => 3
  | DATA_PIPELINE => 4 | ML => 5 | HEALTHCARE => 6 | FINTECH => 7
  | WEB3 => 8 | REALTIME => 9 | STATE_MACHINE => 10 | GAME => 11
  | SOCIAL => 12 | CLI => 13 | LIBRARY => 14 | INFRA => 15
  | MOBILE => 16 | ANALYTICS => 17
  end.

#[global] Instance Tag_countable : Countable Tag.
Proof.
  apply (inj_countable Tag_index (fun n => ALL_TAGS !! n)).
  intros t; destruct t; reflexivity.
Defined.

(** [ContentTier = "core" | "recommended" | "optional"]. *)
Inductive ContentTier : Set := core | recommended | optional.

#[global] Instance ContentTier_eq_dec : EqDecision ContentTier.
Proof. solve_decision. Defined.

Definition CONTENT_TIERS : list ContentTier := [core; recommended; optional].

(** [InstructionBlock] (alias [ClaudeMdBlock]). *)
Record InstructionBlock := {
  block_id : string;
  block_title : string;
  block_content : string;
  block_tier : option ContentTier;
}.

(** [InstructionTemplate] (alias [ClaudeMdTemplate]).  The constant
    [section] field is left out, here and in the other templates. *)
Record InstructionTemplate := {
  instr_tag : Tag;
  instr_blocks : list InstructionBlock;
}.

Inductive EntryType : Set := directory | file.

Record StructureEntry := {
  entry_path : string;
  entry_type : EntryType;
  entry_description : option string;
  entry_template : option string;
}.

Inductive StructureLanguage : Set := typescript | python | both.

Record StructureTemplate := {
  structure_tag : Tag;
  structure_language : option StructureLanguage;
  structure_entries : list StructureEntry;
}.

Record NfrBlock := {
  nfr_id : string;
  nfr_title : string;
  nfr_content : string;
  nfr_tier : option ContentTier;
}.

Record NfrTemplate := {
  nfr_tag : Tag;
  nfr_blocks : list NfrBlock;
}.

Inductive HookTrigger : Set := pre_commit | pre_exec | pre_push.

Record HookTemplate := {
  hook_name : string;
  hook_trigger : HookTrigger;
  hook_description : string;
  hook_filename : string;
  hook_script : string;
}.

Inductive ReviewDimension : Set :=
  | architecture | code_quality | tests | performance.

Inductive Severity : Set := critical | important | nice_to_have.

Record ReviewChecklistItem := {
  item_id : string;
  item_description : string;
  item_severity : Severity;
}.

Record ReviewBlock := {
  review_id : string;
  review_dimension : ReviewDimension;
  review_title : string;
  review_description : string;
  review_checklist : list ReviewChecklistItem;
  review_tier : option ContentTier;
}.

Record ReviewTemplate := {
  review_tag : Tag;
  review_blocks : list ReviewBlock;
}.

(** [TagTemplateSet]: the complete template set of one tag.  [claudeMd] is
    the deprecated alias of [instructions]; both fields exist. *)
Record TagTemplateSet := {
  tag : Tag;
  instructions : option InstructionTemplate;
  nfr : option NfrTemplate;
  structure : option StructureTemplate;
  hooks : option (list HookTemplate);
  review : option ReviewTemplate;
  claudeMd : option InstructionTemplate;
}.

(** [ForgeCraftConfig]: the fields read by the composer, the loader and the
    refresh tool.  [projectName], [outputTargets], [variables],
    [overrides], [customHooks], [customMcpServers], [disabledHooks] and
    [additionalTags] are carried by the real record and never read by the
    code embedded here. *)
Record ForgeCraftConfig := {
  tags : option (list Tag);
  tier : option ContentTier;
  include : option (list string);
  exclude : option (list string);
  templateDirs : option (list string);
}.


End Types.

Import Types.

(* ===================================================================== *)
(** ** src/registry/composer.ts *)
(* ===================================================================== *)

Module Composer.

(** [TIER_HIERARCHY]: tier inclusion hierarchy. *)
Definition TIER_HIERARCHY (t : ContentTier) : list ContentTier :=
  match t with
  | core => [core]
  | recommended => [core; recommended]
  | optional => [core; recommended; optional]
  end.

Definition DEFAULT_TIER : ContentTier := recommended.

Record ComposedTemplates := {
  claudeMdBlocks : list InstructionBlock;
  structureEntries : list StructureEntry;
  nfrBlocks : list NfrBlock;
  hooks : list HookTemplate;
  reviewBlocks : list ReviewBlock;
}.

Record ComposeOptions := {
  config : option ForgeCraftConfig;
}.

(** [isTierAllowed(blockTier, allowedTiers)]: [allowedTiers] is the set
    built from a row of [TIER_HIERARCHY]; only [has] is asked of it. *)
Definition isTierAllowed (blockTier : option ContentTier)
    (allowedTiers : list ContentTier) : bool :=
  let effective := default core blockTier in
  bool_decide (effective ∈ allowedTiers).

(** [isBlockAllowed(blockId, include?, exclude?)]. *)
Definition isBlockAllowed (blockId : string)
    (include exclude : option (list string)) : bool :=
  if match exclude with
     | Some ex => bool_decide (blockId ∈ ex)
     | None => false
     end
  then false
  else match include with
       | Some inc =>
           if bool_decide (0 < length inc)%nat then bool_decide (blockId ∈ inc)
           else true
       | None => true
       end.

(** [normalizeTagOrder(tags)]: the loop state is the pair of the [seen] set
    and the [result] array. *)
Definition normalizeTagOrder (tags : list Tag) : list Tag :=
  let start : gset Tag * list Tag :=
    if bool_decide (UNIVERSAL ∈ tags) then (∅, [])
    else ({[ UNIVERSAL ]}, [UNIVERSAL]) in
  snd (foldl (fun '(seen, result) tag =>
                if bool_decide (tag ∈ seen) then (seen, result)
                else ({[ tag ]} ∪ seen, result ++ [tag]))
             start tags).

(** One pass of a [for (const x of xs) if (!seen.has(key x) && accept x)
    { seen.add(key x); out.push(x) }] loop; the accumulator pairs the
    [seen] set with the output array it guards. *)
Definition pushUnseen {B : Type} (key : B -> string) (accept : B -> bool)
    (acc : gset string * list B) (x : B) : gset string * list B :=
  if bool_decide (key x ∉ fst acc) && accept x
  then ({[ key x ]} ∪ fst acc, snd acc ++ [x])
  else acc.

Definition forOf {B : Type} (key : B -> string) (accept : B -> bool)
    (xs : list B) (acc : gset string * list B) : gset string * list B :=
  foldl (pushUnseen key accept) acc xs.

(** The ten locals of [composeTemplates] that the loop over the tags
    updates, each output array paired with its [seen] set:
    [(seenBlockIds, claudeMdBlocks)], [(seenPaths, structureEntries)],
    [(seenNfrIds, nfrBlocks)], [(seenHookNames, hooks)] and
    [(seenReviewIds, reviewBlocks)]. *)
Record ComposeState := {
  accBlocks : gset string * list InstructionBlock;
  accPaths : gset string * list StructureEntry;
  accNfr : gset string * list NfrBlock;
  accHooks : gset string * list HookTemplate;
  accReview : gset string * list ReviewBlock;
}.

Definition emptyState : ComposeState :=
  {| accBlocks := (∅, []); accPaths := (∅, []); accNfr := (∅, []);
     accHooks := (∅, []); accReview := (∅, []) |}.

(** The repository holds two revisions of the composer.  They differ in one
    expression only, the template whose blocks feed the instruction loop:
    [templateSet.claudeMd] in [src/registry/composer.ts], and
    [templateSet.instructions ?? templateSet.claudeMd] in the later
    revision, which also returns the instruction array a second time under
    the name [instructionBlocks].  The body is written once, over that
    expression. *)
Section compose.

Variable instrSource : TagTemplateSet -> option InstructionTemplate.

(** Body of the loop over [orderedTags], for a tag that has a template
    set. *)
Definition composeTag (allowedTiers : list ContentTier)
    (includeList excludeList : option (list string))
    (st : ComposeState) (templateSet : TagTemplateSet) : ComposeState :=
  {| accBlocks :=
       match instrSource templateSet with
       | Some t =>
           forOf block_id
             (fun block => isTierAllowed (block_tier block) allowedTiers
                           && isBlockAllowed (block_id block) includeList excludeList)
             (instr_blocks t) (accBlocks st)
       | None => accBlocks st
       end;
     accPaths :=
       match structure templateSet with
       | Some t => forOf entry_path (fun _ => true) (structure_entries t) (accPaths st)
       | None => accPaths st
       end;
     accNfr :=
       match nfr templateSet with
       | Some t =>
           forOf nfr_id
             (fun block => isTierAllowed (nfr_tier block) allowedTiers
                           && isBlockAllowed (nfr_id block) includeList excludeList)
             (nfr_blocks t) (accNfr st)
       | None => accNfr st
       end;
     accHooks :=
       match Types.hooks templateSet with
       | Some hs => forOf hook_name (fun _ => true) hs (accHooks st)
       | None => accHooks st
       end;
     accReview :=
       match review templateSet with
       | Some t =>
           forOf review_id
             (fun block => isTierAllowed (review_tier block) allowedTiers
                           && isBlockAllowed (review_id block) includeList excludeList)
             (review_blocks t) (accReview st)
       | None => accReview st
       end |}.

(** The loop over [orderedTags]: a tag without a template set is skipped
    (after a warning). *)
Definition composeLoop (allTemplates : gmap Tag TagTemplateSet)
    (allowedTiers : list ContentTier)
    (includeList excludeList : option (list string))
    (orderedTags : list Tag) (st : ComposeState) : ComposeState :=
  foldl (fun st tag =>
           match allTemplates !! tag with
           | None => st
           | Some templateSet =>
               composeTag allowedTiers includeList excludeList st templateSet
           end)
        st orderedTags.

Definition composeWith (activeTags : list Tag)
    (allTemplates : gmap Tag TagTemplateSet)
    (options : option ComposeOptions) : ComposedTemplates :=
  let config := options ≫= config in
  let tierLevel := default DEFAULT_TIER (config ≫= tier) in
  let allowedTiers := TIER_HIERARCHY tierLevel in
  let includeList := config ≫= include in
  let excludeList := config ≫= exclude in
  let orderedTags := normalizeTagOrder activeTags in
  let st := composeLoop allTemplates allowedTiers includeList excludeList
              orderedTags emptyState in
  {| claudeMdBlocks := snd (accBlocks st);
     structureEntries := snd (accPaths st);
     nfrBlocks := snd (accNfr st);
     hooks := snd (accHooks st);
     reviewBlocks := snd (accReview st) |}.

End compose.

(** [composeTemplates(activeTags, allTemplates, options?)] of
    [src/registry/composer.ts]. *)
Definition composeTemplates : list Tag -> gmap Tag TagTemplateSet ->
    option ComposeOptions -> ComposedTemplates :=
  composeWith claudeMd.

(** [composeTemplates] of the later revision.  The refresh tool is written
    against this one: it reads [composed.instructionBlocks]. *)
Definition composeTemplatesInstr : list Tag -> gmap Tag TagTemplateSet ->
    option ComposeOptions -> ComposedTemplates :=
  composeWith (fun templateSet =>
                 match instructions templateSet with
                 | Some t => Some t
                 | None => claudeMd templateSet
                 end).

End Composer.

(* ===================================================================== *)
(** ** src/shared/errors/index.ts and src/registry/loader.ts *)
(* ===================================================================== *)

Module Loader.

(** The exceptions the loader can raise: two classes of the [ForgeError]
    hierarchy, and the native error of [readdirSync] on a path that is not
    there or that is not a directory. *)
Inductive ForgeError : Type :=
  | TemplateNotFoundError (tagName : string) (section : option string)
  | TemplateParseError (filePath reason : string)
  | NativeError (message : string).

(** A computation that returns or throws. *)
Inductive Result (A : Type) : Type :=
  | Ok (a : A)
  | Throw (e : ForgeError).

Arguments Ok {A} a.
Arguments Throw {A} e.

#[global] Instance Result_bind : MBind Result :=
  fun A B (k : A -> Result B) (r : Result A) =>
    match r with
    | Ok a => k a
    | Throw e => Throw e
    end.

(** What [readFileSync] followed by [yaml.load] makes of one file: either
    of them throws an error with some message, or the document is null,
    undefined or another falsy value, or it is a value, which the code
    casts to the expected type without a check. *)
Inductive YamlFile (T : Type) : Type :=
  | Malformed (message : string)
  | Falsy
  | Document (parsed : T).

Arguments Malformed {T} message.
Arguments Falsy {T}.
Arguments Document {T} parsed.

(** [HooksYamlFile]. *)
Record HooksYamlFile := {
  hooksfile_tag : string;
  hooksfile_hooks : list HookTemplate;
}.

(** The files of one tag directory; [None] where [existsSync] is false.
    A path that is there without being a file that can be read makes
    [readFileSync] throw, which is the case [Malformed]. *)
Record TagDir := {
  instructions_yaml : option (YamlFile InstructionTemplate);
  claude_md_yaml : option (YamlFile InstructionTemplate);
  nfr_yaml : option (YamlFile NfrTemplate);
  structure_yaml : option (YamlFile StructureTemplate);
  hooks_yaml : option (YamlFile HooksYamlFile);
  review_yaml : option (YamlFile ReviewTemplate);
}.

(** An entry of [readdirSync(dir, { withFileTypes: true })]. *)
Inductive Dirent : Type :=
  | Subdirectory (name : string) (contents : TagDir)
  | OtherEntry (name : string).

(** What is found at a path: a directory with its listing, or something
    that is not a directory (a regular file, say). *)
Inductive PathEntry : Type :=
  | Directory (entries : list Dirent)
  | NotADirectory.

(** The part of the file system the loader looks at: for a path, what is
    found there, if anything.  Paths are taken as the program writes them
    ([resolve] is the identity). *)
Definition FileSystem : Type := string -> option PathEntry.

(** [join(a, b)] of [node:path], on paths that need no normalisation. *)
Definition join (a b : string) : string := a +:+ "/" +:+ b.

(** [loadYamlFile<T>(filePath)], given what is in the file. *)
Definition loadYamlFile {T : Type} (filePath : string) (f : YamlFile T)
    : Result T :=
  match f with
  | Malformed message => Throw (TemplateParseError filePath message)
  | Falsy => Throw (TemplateParseError filePath "YAML parsed to null/undefined")
  | Document parsed => Ok parsed
  end.

(** [if (existsSync(path)) { x = loadYamlFile(path) }], with [x] undefined
    before. *)
Definition loadIfExists {T : Type} (path : string) (f : option (YamlFile T))
    : Result (option T) :=
  match f with
  | Some f => parsed ← loadYamlFile path f; Ok (Some parsed)
  | None => Ok None
  end.

(** [loadTagTemplateSet(tag, tagDir)]. *)
Definition loadTagTemplateSet (tag : Tag) (tagDir : string) (d : TagDir)
    : Result TagTemplateSet :=
  instructions ← loadIfExists (join tagDir "instructions.yaml") (instructions_yaml d);
  instructions ← match instructions with
                  | Some t => Ok (Some t)
                  | None => loadIfExists (join tagDir "claude-md.yaml") (claude_md_yaml d)
                  end;
  nfr ← loadIfExists (join tagDir "nfr.yaml") (nfr_yaml d);
  structure ← loadIfExists (join tagDir "structure.yaml") (structure_yaml d);
  hooksFile ← loadIfExists (join tagDir "hooks.yaml") (hooks_yaml d);
  let hooks := hooksfile_hooks <$> hooksFile in
  review ← loadIfExists (join tagDir "review.yaml") (review_yaml d);
  Ok {| tag := tag; instructions := instructions; nfr := nfr;
        structure := structure; hooks := hooks; review := review;
        claudeMd := None |}.

(** The [mapping] table of [tagDirNameToTag]. *)
Definition mapping : gmap string Tag :=
  list_to_map
    [ ("universal", UNIVERSAL); ("web-react", WEB_REACT);
      ("web-static", WEB_STATIC); ("api", API);
      ("data-pipeline", DATA_PIPELINE); ("ml", ML);
      ("healthcare", HEALTHCARE); ("fintech", FINTECH); ("web3", WEB3);
      ("realtime", REALTIME); ("state-machine", STATE_MACHINE);
      ("game", GAME); ("social", SOCIAL); ("cli", CLI);
      ("library", LIBRARY); ("infra", INFRA); ("mobile", MOBILE);
      ("analytics", ANALYTICS) ].

(** The own properties of [Object.prototype].  The object literal
    [mapping] inherits them, so [mapping[dirName]] is defined at these
    names too: it is a function there, or, at [__proto__], the prototype
    itself; never a tag, and never null or undefined. *)
Definition objectPrototypeNames : list string :=
  [ "constructor"; "__defineGetter__"; "__defineSetter__"; "hasOwnProperty";
    "__lookupGetter__"; "__lookupSetter__"; "isPrototypeOf";
    "propertyIsEnumerable"; "toString"; "valueOf"; "__proto__";
    "toLocaleString" ]%string.

(** What [mapping[dirName]] evaluates to when it is defined: a tag of the
    table, or the value inherited under [name]. *)
Inductive MappingValue : Type :=
  | TagValue (tag : Tag)
  | InheritedValue (name : string).

(** [tagDirNameToTag(dirName)]: [mapping[dirName] ?? null]. *)
Definition tagDirNameToTag (dirName : string) : option MappingValue :=
  match mapping !! dirName with
  | Some tag => Some (TagValue tag)
  | None =>
      if bool_decide (dirName ∈ objectPrototypeNames)
      then Some (InheritedValue dirName)
      else None
  end.

#[global] Arguments tagDirNameToTag : simpl never.

(** The subdirectories of a listing, [filter(isDirectory)]. *)
Definition tagDirsOf (entries : list Dirent) : list (string * TagDir) :=
  omap (fun entry =>
          match entry with
          | Subdirectory name contents => Some (name, contents)
          | OtherEntry _ => None
          end)
       entries.

(** The loop of [loadAllTemplates] over [tagDirs]; it stops at the first
    exception.  [result] is the map at the keys that are tags, which are
    the keys [get(tag)] is called with.  A directory named after an
    inherited property is loaded like a tag directory, its files read and
    its exceptions thrown; the set it loads to is stored under the
    inherited value, a key that is no tag, and stays out of [result]
    (the tag passed to [loadTagTemplateSet] in that case fills the [tag]
    field of that set only). *)
Fixpoint loadTagDirs (dir : string) (tagDirs : list (string * TagDir))
    (result : gmap Tag TagTemplateSet) : Result (gmap Tag TagTemplateSet) :=
  match tagDirs with
  | [] => Ok result
  | (tagDirName, contents) :: rest =>
      match tagDirNameToTag tagDirName with
      | None => loadTagDirs dir rest result
      | Some (TagValue tag) =>
          templateSet ← loadTagTemplateSet tag (join dir tagDirName) contents;
          loadTagDirs dir rest (<[ tag := templateSet ]> result)
      | Some (InheritedValue _) =>
          _ ← loadTagTemplateSet UNIVERSAL (join dir tagDirName) contents;
          loadTagDirs dir rest result
      end
  end.

(** [mergeInstructionTemplates(base, extra)]. *)
Definition mergeInstructionTemplates (base extra : option InstructionTemplate)
    : option InstructionTemplate :=
  match extra, base with
  | None, _ => base
  | Some _, None => extra
  | Some extra, Some base =>
      let seenIds : gset string := list_to_set (block_id <$> instr_blocks base) in
      let newBlocks := filter (fun b => block_id b ∉ seenIds) (instr_blocks extra) in
      Some {| instr_tag := instr_tag base;
              instr_blocks := instr_blocks base ++ newBlocks |}
  end.

(** [mergeNfrTemplates(base, extra)]. *)
Definition mergeNfrTemplates (base extra : option NfrTemplate)
    : option NfrTemplate :=
  match extra, base with
  | None, _ => base
  | Some _, None => extra
  | Some extra, Some base =>
      let seenIds : gset string := list_to_set (nfr_id <$> nfr_blocks base) in
      let newBlocks := filter (fun b => nfr_id b ∉ seenIds) (nfr_blocks extra) in
      Some {| nfr_tag := nfr_tag base;
              nfr_blocks := nfr_blocks base ++ newBlocks |}
  end.

(** [mergeHookTemplates(base, extra)]. *)
Definition mergeHookTemplates (base extra : option (list HookTemplate))
    : option (list HookTemplate) :=
  match extra, base with
  | None, _ => base
  | Some _, None => extra
  | Some extra, Some base =>
      let seenNames : gset string := list_to_set (hook_name <$> base) in
      let newHooks := filter (fun h => hook_name h ∉ seenNames) extra in
      Some (base ++ newHooks)
  end.

(** [mergeReviewTemplates(base, extra)]. *)
Definition mergeReviewTemplates (base extra : option ReviewTemplate)
    : option ReviewTemplate :=
  match extra, base with
  | None, _ => base
  | Some _, None => extra
  | Some extra, Some base =>
      let seenIds : gset string := list_to_set (review_id <$> review_blocks base) in
      let newBlocks := filter (fun b => review_id b ∉ seenIds) (review_blocks extra) in
      Some {| review_tag := review_tag base;
              review_blocks := review_blocks base ++ newBlocks |}
  end.

(** The object literal [merged] of [loadAllTemplatesWithExtras]. *)
Definition merged (tag : Tag) (baseSet extraSet : TagTemplateSet)
    : TagTemplateSet :=
  {| tag := tag;
     instructions :=
       mergeInstructionTemplates (instructions baseSet) (instructions extraSet);
     nfr := mergeNfrTemplates (nfr baseSet) (nfr extraSet);
     structure :=
       match structure extraSet with
       | Some t => Some t
       | None => structure baseSet
       end;
     hooks := mergeHookTemplates (hooks baseSet) (hooks extraSet);
     review := mergeReviewTemplates (review baseSet) (review extraSet);
     claudeMd := None |}.

(** The loop [for (const [tag, extraSet] of extra)]; every key of [extra]
    is visited once and the pass writes [base] at that key only. *)
Definition mergeExtra (base extra : gmap Tag TagTemplateSet)
    : gmap Tag TagTemplateSet :=
  map_fold (fun tag extraSet base =>
              match base !! tag with
              | None => <[ tag := extraSet ]> base
              | Some baseSet => <[ tag := merged tag baseSet extraSet ]> base
              end)
           base extra.

Section world.

(** The file system, and what [resolveTemplatesDir()] does in the
    environment of the process: it returns the directory of the packaged
    templates or throws [TemplateNotFoundError]. *)
Variable fs : FileSystem.
Variable resolveTemplatesDir : Result string.

Definition existsSync (path : string) : bool :=
  bool_decide (is_Some (fs path)).

Definition readdirSync (path : string) : Result (list Dirent) :=
  match fs path with
  | Some (Directory entries) => Ok entries
  | Some NotADirectory => Throw (NativeError "ENOTDIR: not a directory")
  | None => Throw (NativeError "ENOENT: no such file or directory")
  end.

(** [loadAllTemplates(templatesDir?)]. *)
Definition loadAllTemplates (templatesDir : option string)
    : Result (gmap Tag TagTemplateSet) :=
  dir ← match templatesDir with
         | Some dir => Ok dir
         | None => resolveTemplatesDir
         end;
  entries ← readdirSync dir;
  loadTagDirs dir (tagDirsOf entries) ∅.

(** The loop of [loadAllTemplatesWithExtras] over [extraDirs]. *)
Fixpoint loadExtras (extraDirs : list string)
    (base : gmap Tag TagTemplateSet) : Result (gmap Tag TagTemplateSet) :=
  match extraDirs with
  | [] => Ok base
  | dir :: rest =>
      if existsSync dir then
        extra ← loadAllTemplates (Some dir);
        loadExtras rest (mergeExtra base extra)
      else loadExtras rest base
  end.

(** [loadAllTemplatesWithExtras(builtInDir?, extraDirs?)]. *)
Definition loadAllTemplatesWithExtras (builtInDir : option string)
    (extraDirs : option (list string)) : Result (gmap Tag TagTemplateSet) :=
  base ← loadAllTemplates builtInDir;
  match extraDirs with
  | None => Ok base
  | Some extraDirs => loadExtras extraDirs base
  end.

End world.




Section overrides.

(** What [forgecraft.yaml] and [.forgecraft.json] of a project directory
    hold, each with the outcome of reading and parsing it; [None] where
    [existsSync] is false. *)
Variable forgecraftYaml : string -> option (YamlFile ForgeCraftConfig).
Variable forgecraftJson : string -> option (YamlFile ForgeCraftConfig).

(** [loadUserOverrides(projectDir)]: a file that does not parse is
    answered with [null] after a warning, and so is, for the callers, a
    document that is null or another falsy value. *)
Definition loadUserOverrides (projectDir : string) : option ForgeCraftConfig :=
  match forgecraftYaml projectDir with
  | Some (Document cfg) => Some cfg
  | Some _ => None
  | None =>
      match forgecraftJson projectDir with
      | Some (Document cfg) => Some cfg
      | Some _ => None
      | None => None
      end
  end.

End overrides.

End Loader.

(* ===================================================================== *)
(** ** src/tools/refresh-project.ts *)
(* ===================================================================== *)

Module Refresh.

Import Loader.

(** [Detection], the result of the project analyzers.  The suggestions of
    the drift report have the same three fields. *)
Record Detection := {
  det_tag : Tag;
  confidence : float;
  evidence : list string;
}.

(** [AuditCheck], as far as [analyzeDrift] reads it. *)
Record AuditCheck := {
  check : string;
  message : string;
}.

Record Completeness := {
  passing : list AuditCheck;
  failing : list AuditCheck;
}.

(** The arguments of the tool that the analysis reads
    ([refreshProjectSchema]). *)
Record RefreshArgs := {
  project_dir : string;
  apply : bool;
  arg_tier : option ContentTier;
  add_tags : option (list Tag);
  remove_tags : option (list Tag);
}.

Record BlockCountDelta := {
  before : nat;
  after : nat;
}.

Record DriftReport := {
  currentTags : list Tag;
  newTagSuggestions : list Detection;
  droppedTagCandidates : list Tag;
  completenessGaps : list string;
  completenessFixed : list string;
  tierChange : option (ContentTier * ContentTier);
  blockCountDelta : BlockCountDelta;
}.

(** [SUGGEST_THRESHOLD = 0.5]: minimum confidence to suggest a new tag. *)
Definition SUGGEST_THRESHOLD : float := 0x1p-1%float.

(** The literal [0.6] of [computeUpdatedTags], that is the binary64 number
    nearest to six tenths. *)
Definition AUTO_ADD_THRESHOLD : float := 0x1.3333333333333p-1%float.

(** [a >= b] on JavaScript numbers. *)
Definition geq (a b : float) : bool := PrimFloat.leb b a.

(** A [Set<Tag>] that is iterated: its elements in insertion order. *)
Definition setAdd (t : Tag) (s : list Tag) : list Tag :=
  if bool_decide (t ∈ s) then s else s ++ [t].

Definition setDelete (t : Tag) (s : list Tag) : list Tag :=
  filter (fun x => x ≠ t) s.

Definition newSet (ts : list Tag) : list Tag :=
  foldl (fun s t => setAdd t s) [] ts.

(** [computeUpdatedTags(currentTags, suggestions, addTags?, removeTags?)]. *)
Definition computeUpdatedTags (currentTags : list Tag)
    (suggestions : list Detection)
    (addTags removeTags : option (list Tag)) : list Tag :=
  let tagSet := newSet currentTags in
  let tagSet :=
    foldl (fun tagSet s =>
             if geq (confidence s) AUTO_ADD_THRESHOLD
             then setAdd (det_tag s) tagSet else tagSet)
          tagSet suggestions in
  let tagSet :=
    match addTags with
    | Some addTags => foldl (fun tagSet t => setAdd t tagSet) tagSet addTags
    | None => tagSet
    end in
  let tagSet :=
    match removeTags with
    | Some removeTags =>
        foldl (fun tagSet t =>
                 if bool_decide (t ≠ UNIVERSAL) then setDelete t tagSet
                 else tagSet)
              tagSet removeTags
    | None => tagSet
    end in
  setAdd UNIVERSAL tagSet.

(** [updatedTags] of [refreshProjectHandler] (step 3): the resolved tag
    set, computed from the drift report and the arguments. *)
Definition updatedTags (drift : DriftReport) (args : RefreshArgs) : list Tag :=
  computeUpdatedTags (currentTags drift) (newTagSuggestions drift)
    (add_tags args) (remove_tags args).

(** The loop of [analyzeDrift] over the detections: it fills
    [newTagSuggestions] and [detectedTagSet]. *)
Definition detectionLoop (currentTags : list Tag)
    (detections : list Detection) : list Detection * gset Tag :=
  foldl (fun '(newTagSuggestions, detectedTagSet) d =>
           let detectedTagSet : gset Tag := {[ det_tag d ]} ∪ detectedTagSet in
           if geq (confidence d) SUGGEST_THRESHOLD
              && bool_decide (det_tag d ∉ currentTags)
           then (newTagSuggestions ++
                   [ {| det_tag := det_tag d; confidence := confidence d;
                        evidence := evidence d |} ],
                 detectedTagSet)
           else (newTagSuggestions, detectedTagSet))
        ([], ∅) detections.

Section world.

(** The file system under the template loader, and the two analyzers, taken
    by what they return for a project directory. *)
Variable fs : FileSystem.
Variable resolveTemplatesDir : Result string.
Variable analyzeProject : string -> list Detection.
Variable checkCompleteness : string -> list Tag -> Completeness.

(** [analyzeDrift(projectDir, config, args)]. *)
Definition analyzeDrift (projectDir : string) (config : ForgeCraftConfig)
    (args : RefreshArgs) : Result DriftReport :=
  let currentTags := default [UNIVERSAL] (tags config) in
  let currentTier := default recommended (tier config) in
  let requestedTier := default currentTier (arg_tier args) in
  let detections := analyzeProject projectDir in
  let '(newTagSuggestions, detectedTagSet) :=
    detectionLoop currentTags detections in
  let droppedTagCandidates :=
    filter (fun t => t ≠ UNIVERSAL ∧ t ∉ detectedTagSet) currentTags in
  let completeness := checkCompleteness projectDir currentTags in
  let completenessGaps := check <$> failing completeness in
  let completenessFixed := check <$> passing completeness in
  let tierChange :=
    if bool_decide (requestedTier ≠ currentTier)
    then Some (currentTier, requestedTier) else None in
  allTemplates ←
    loadAllTemplatesWithExtras fs resolveTemplatesDir None (templateDirs config);
  let beforeComposed :=
    Composer.composeTemplatesInstr currentTags allTemplates
      (Some {| Composer.config := Some config |}) in
  let proposedTags :=
    computeUpdatedTags currentTags newTagSuggestions
      (add_tags args) (remove_tags args) in
  let afterConfig :=
    {| tags := Some proposedTags; tier := Some requestedTier;
       include := include config; exclude := exclude config;
       templateDirs := templateDirs config |} in
  let afterComposed :=
    Composer.composeTemplatesInstr proposedTags allTemplates
      (Some {| Composer.config := Some afterConfig |}) in
  Ok {| currentTags := currentTags;
        newTagSuggestions := newTagSuggestions;
        droppedTagCandidates := droppedTagCandidates;
        completenessGaps := completenessGaps;
        completenessFixed := completenessFixed;
        tierChange := tierChange;
        blockCountDelta :=
          {| before := length (Composer.claudeMdBlocks beforeComposed);
             after := length (Composer.claudeMdBlocks afterComposed) |} |}.

End world.

(** [s.replace(/\\/g, "/")] and the like: every [from] becomes [to]. *)
Fixpoint replaceAll (from to : ascii) (s : string) : string :=
  match s with
  | EmptyString => EmptyString
  | String c rest =>
      String (if Ascii.eqb c from then to else c) (replaceAll from to rest)
  end.

(** [s.split(sep)] for a separator of one character. *)
Fixpoint split (sep : ascii) (s : string) : list string :=
  match s with
  | EmptyString => [EmptyString]
  | String c rest =>
      if Ascii.eqb c sep then EmptyString :: split sep rest
      else match split sep rest with
           | segment :: segments => String c segment :: segments
           | [] => [String c EmptyString]
           end
  end.

(** [inferProjectName(projectDir)]. *)
Definition inferProjectName (projectDir : string) : string :=
  let parts :=
    filter (fun part => part <> EmptyString)
           (split "/" (replaceAll "\" "/" projectDir)) in
  default "my-project"%string (last parts).

(** What [refreshProjectHandler] has in hand before step 5: either the
    project has no configuration, or the drift report, the updated tags,
    the updated configuration and the composition for them. *)
Inductive RefreshPlan : Type :=
  | NoConfiguration
  | Planned (drift : DriftReport) (updatedTags : list Tag)
      (updatedConfig : ForgeCraftConfig)
      (composed : Composer.ComposedTemplates).

Section handler.

Variable fs : FileSystem.
Variable resolveTemplatesDir : Result string.
Variable analyzeProject : string -> list Detection.
Variable checkCompleteness : string -> list Tag -> Completeness.
Variable forgecraftYaml : string -> option (YamlFile ForgeCraftConfig).
Variable forgecraftJson : string -> option (YamlFile ForgeCraftConfig).

(** Steps 1 to 4 of [refreshProjectHandler(args)].  Step 5, which formats
    the answer and, when [apply] is set, writes [forgecraft.yaml] and the
    instruction files, is not modelled. *)
Definition refreshProjectSteps (args : RefreshArgs) : Result RefreshPlan :=
  let projectDir := project_dir args in
  match loadUserOverrides forgecraftYaml forgecraftJson projectDir with
  | None => Ok NoConfiguration
  | Some existingConfig =>
      drift ← analyzeDrift fs resolveTemplatesDir analyzeProject
                 checkCompleteness projectDir existingConfig args;
      let updatedTags :=
        computeUpdatedTags (currentTags drift) (newTagSuggestions drift)
          (add_tags args) (remove_tags args) in
      let updatedTier :=
        default (default recommended (tier existingConfig)) (arg_tier args) in
      let updatedConfig :=
        {| tags := Some updatedTags; tier := Some updatedTier;
           include := include existingConfig;
           exclude := exclude existingConfig;
           templateDirs := templateDirs existingConfig |} in
      allTemplates ←
        loadAllTemplatesWithExtras fs resolveTemplatesDir None
          (templateDirs updatedConfig);
      let composed :=
        Composer.composeTemplatesInstr updatedTags allTemplates
          (Some {| Composer.config := Some updatedConfig |}) in
      Ok (Planned drift updatedTags updatedConfig composed)
  end.

End handler.

End Refresh.

(* ===================================================================== *)
(** ** src/analyzers/package-json.ts *)
(* ===================================================================== *)

Module Analyzer.

Import Refresh.

(** [Map<Tag, Detection>], iterated at the end: its entries in insertion
    order.  [set] on a key that is there keeps the key's place. *)
Fixpoint mapGet (t : Tag) (m : list (Tag * Detection)) : option Detection :=
  match m with
  | [] => None
  | (k, v) :: rest => if decide (k = t) then Some v else mapGet t rest
  end.

Fixpoint mapSet (t : Tag) (v : Detection) (m : list (Tag * Detection))
    : list (Tag * Detection) :=
  match m with
  | [] => [(t, v)]
  | (k, w) :: rest =>
      if decide (k = t) then (k, v) :: rest else (k, w) :: mapSet t v rest
  end.

(** [deduplicateDetections(detections)]. *)
Definition deduplicateDetections (detections : list Detection)
    : list Detection :=
  let byTag :=
    foldl (fun byTag detection =>
             let existing := mapGet (det_tag detection) byTag in
             if match existing with
                | None => true
                | Some e => PrimFloat.ltb (confidence e) (confidence detection)
                end
             then mapSet (det_tag detection)
                    {| det_tag := det_tag detection;
                       confidence := confidence detection;
                       evidence :=
                         match existing with
                         | Some e => evidence e ++ evidence detection
                         | None => evidence detection
                         end |}
                    byTag
             else byTag)
          [] detections in
  snd <$> byTag.

End Analyzer.

(* ===================================================================== *)
(** ** Concrete inputs *)
(* ===================================================================== *)

Module Samples.

Import Composer.

Definition mkBlock (id : string) (t : option ContentTier) (body : string)
    : InstructionBlock :=
  {| block_id := id; block_title := id; block_content := body;
     block_tier := t |}.

Definition mkHook (name : string) : HookTemplate :=
  {| hook_name := name; hook_trigger := pre_commit;
     hook_description := "Hook"; hook_filename := name +:+ ".sh";
     hook_script := "#!/bin/bash" |}.

Definition mkEntry (path : string) (descr : option string) : StructureEntry :=
  {| entry_path := path; entry_type := directory;
     entry_description := descr; entry_template := None |}.

Definition emptySet (t : Tag) : TagTemplateSet :=
  {| tag := t; instructions := None; nfr := None; structure := None;
     Types.hooks := None; review := None; claudeMd := None |}.

(** A set whose instruction blocks are reachable through both field
    names. *)
Definition blocksSet (t : Tag) (bs : list InstructionBlock) : TagTemplateSet :=
  {| tag := t;
     instructions := Some {| instr_tag := t; instr_blocks := bs |};
     nfr := None; structure := None; Types.hooks := None; review := None;
     claudeMd := Some {| instr_tag := t; instr_blocks := bs |} |}.

(** Two tags with one block each. *)
Definition twoTagStore : gmap Tag TagTemplateSet :=
  <[ UNIVERSAL := blocksSet UNIVERSAL [mkBlock "universal-block" None "U"] ]>
  (<[ API := blocksSet API [mkBlock "api-block" None "A"] ]> ∅).

(** A store in which two tags carry an instruction block of the same id
    at different tiers. *)
Definition sharedIdStore : gmap Tag TagTemplateSet :=
  <[ UNIVERSAL := blocksSet UNIVERSAL [mkBlock "shared" (Some optional) "U"] ]>
  (<[ API := blocksSet API [mkBlock "shared" (Some core) "A"] ]> ∅).

(** A store with one hook and one structure entry in [UNIVERSAL]. *)
Definition hookStore : gmap Tag TagTemplateSet :=
  <[ UNIVERSAL :=
       {| tag := UNIVERSAL; instructions := None; nfr := None;
          structure :=
            Some {| structure_tag := UNIVERSAL; structure_language := None;
                    structure_entries := [mkEntry "src/" None] |};
          Types.hooks := Some [mkHook "lint"]; review := None;
          claudeMd := None |} ]> ∅.

Definition bareConfig : ForgeCraftConfig :=
  {| tags := None; tier := None; include := None; exclude := None;
     templateDirs := None |}.

Definition excludeLint : ForgeCraftConfig :=
  {| tags := None; tier := None; include := None;
     exclude := Some ["lint"%string]; templateDirs := None |}.

Definition includeOther : ForgeCraftConfig :=
  {| tags := None; tier := None; include := Some ["other"%string];
     exclude := None; templateDirs := None |}.

(** *** Template directories *)

Definition noFiles : Loader.TagDir :=
  {| Loader.instructions_yaml := None; Loader.claude_md_yaml := None;
     Loader.nfr_yaml := None; Loader.structure_yaml := None;
     Loader.hooks_yaml := None; Loader.review_yaml := None |}.

Definition instructionsFile (t : Tag) (bs : list InstructionBlock)
    : option (Loader.YamlFile InstructionTemplate) :=
  Some (Loader.Document {| instr_tag := t; instr_blocks := bs |}).

Definition structureFile (t : Tag) (es : list StructureEntry)
    : option (Loader.YamlFile StructureTemplate) :=
  Some (Loader.Document {| structure_tag := t; structure_language := None;
                           structure_entries := es |}).

Definition hooksFile (hs : list HookTemplate)
    : option (Loader.YamlFile Loader.HooksYamlFile) :=
  Some (Loader.Document {| Loader.hooksfile_tag := "";
                           Loader.hooksfile_hooks := hs |}).

(** A file system with one directory. *)
Definition oneDir (path : string) (entries : list Loader.Dirent)
    : Loader.FileSystem :=
  fun p => if decide (p = path) then Some (Loader.Directory entries) else None.

(** A file system with two directories. *)
Definition twoDirs (path1 : string) (entries1 : list Loader.Dirent)
    (path2 : string) (entries2 : list Loader.Dirent) : Loader.FileSystem :=
  fun p => if decide (p = path1) then Some (Loader.Directory entries1)
           else if decide (p = path2) then Some (Loader.Directory entries2)
           else None.

(** A file system given path by path. *)
Definition pathsOf (paths : list (string * Loader.PathEntry))
    : Loader.FileSystem :=
  fun p => (list_to_map paths : gmap string Loader.PathEntry) !! p.

Definition universalDir : Loader.TagDir :=
  {| Loader.instructions_yaml :=
       instructionsFile UNIVERSAL [mkBlock "code-standards" None "U"];
     Loader.claude_md_yaml := None; Loader.nfr_yaml := None;
     Loader.structure_yaml := None; Loader.hooks_yaml := None;
     Loader.review_yaml := None |}.

(** A tag directory whose [instructions.yaml] does not parse. *)
Definition brokenApiDir : Loader.TagDir :=
  {| Loader.instructions_yaml := Some (Loader.Malformed "bad indentation");
     Loader.claude_md_yaml := None; Loader.nfr_yaml := None;
     Loader.structure_yaml := None; Loader.hooks_yaml := None;
     Loader.review_yaml := None |}.

(** Templates in which the file of exactly one tag is malformed. *)
Definition oneBrokenFile : Loader.FileSystem :=
  oneDir "templates"
    [ Loader.Subdirectory "universal" universalDir;
      Loader.Subdirectory "api" brokenApiDir ].

(** Built-in templates and a community directory that both describe
    [UNIVERSAL], with the same block id and the same structure path. *)
Definition builtinUniversal : Loader.TagDir :=
  {| Loader.instructions_yaml :=
       instructionsFile UNIVERSAL [mkBlock "code-standards" None "built-in"];
     Loader.claude_md_yaml := None; Loader.nfr_yaml := None;
     Loader.structure_yaml :=
       structureFile UNIVERSAL [mkEntry "src/" (Some "built-in")];
     Loader.hooks_yaml := None; Loader.review_yaml := None |}.

Definition communityUniversal : Loader.TagDir :=
  {| Loader.instructions_yaml :=
       instructionsFile UNIVERSAL
         [ mkBlock "code-standards" None "community";
           mkBlock "team-rules" None "community" ];
     Loader.claude_md_yaml := None; Loader.nfr_yaml := None;
     Loader.structure_yaml :=
       structureFile UNIVERSAL [mkEntry "src/" (Some "community")];
     Loader.hooks_yaml := None; Loader.review_yaml := None |}.

Definition withCommunity : Loader.FileSystem :=
  twoDirs "builtin" [Loader.Subdirectory "universal" builtinUniversal]
          "community" [Loader.Subdirectory "universal" communityUniversal].

(** The same built-in templates with two community directories: the
    second brings [team-rules] again, with another body, and a block of
    its own. *)
Definition secondUniversal : Loader.TagDir :=
  {| Loader.instructions_yaml :=
       instructionsFile UNIVERSAL
         [ mkBlock "team-rules" None "second";
           mkBlock "extra-rule" None "second" ];
     Loader.claude_md_yaml := None; Loader.nfr_yaml := None;
     Loader.structure_yaml := None;
     Loader.hooks_yaml := None; Loader.review_yaml := None |}.

Definition twoCommunities : Loader.FileSystem :=
  pathsOf
    [ ("builtin"%string,
       Loader.Directory [Loader.Subdirectory "universal" builtinUniversal]);
      ("community"%string,
       Loader.Directory [Loader.Subdirectory "universal" communityUniversal]);
      ("second"%string,
       Loader.Directory [Loader.Subdirectory "universal" secondUniversal]) ].

Definition builtinUniversalSet : TagTemplateSet :=
  {| tag := UNIVERSAL;
     instructions :=
       Some {| instr_tag := UNIVERSAL;
               instr_blocks := [mkBlock "code-standards" None "built-in"] |};
     nfr := None;
     structure :=
       Some {| structure_tag := UNIVERSAL; structure_language := None;
               structure_entries := [mkEntry "src/" (Some "built-in")] |};
     Types.hooks := None; review := None; claudeMd := None |}.

Definition builtinStore : gmap Tag TagTemplateSet :=
  <[ UNIVERSAL := builtinUniversalSet ]> ∅.

(** *** Refresh *)

Definition noChecks : string -> list Tag -> Refresh.Completeness :=
  fun _ _ => {| Refresh.passing := []; Refresh.failing := [] |}.

(** A detection of [API] with confidence 0.65 and one of [MOBILE] with
    confidence 0.55 (the nearest binary64 numbers). *)
Definition apiDetection : Refresh.Detection :=
  {| Refresh.det_tag := API;
     Refresh.confidence := 0x1.4cccccccccccdp-1%float;
     Refresh.evidence := ["express in dependencies"%string] |}.

Definition mobileDetection : Refresh.Detection :=
  {| Refresh.det_tag := MOBILE;
     Refresh.confidence := 0x1.199999999999ap-1%float;
     Refresh.evidence := ["app.json found"%string] |}.

Definition universalOnly : ForgeCraftConfig :=
  {| tags := Some [UNIVERSAL]; tier := None; include := None;
     exclude := None; templateDirs := None |}.

Definition plainArgs : Refresh.RefreshArgs :=
  {| Refresh.project_dir := "proj"; Refresh.apply := false;
     Refresh.arg_tier := None; Refresh.add_tags := None;
     Refresh.remove_tags := None |}.

Definition addApi : Refresh.RefreshArgs :=
  {| Refresh.project_dir := "proj"; Refresh.apply := false;
     Refresh.arg_tier := None; Refresh.add_tags := Some [API];
     Refresh.remove_tags := None |}.

Definition removeApi : Refresh.RefreshArgs :=
  {| Refresh.project_dir := "proj"; Refresh.apply := false;
     Refresh.arg_tier := None; Refresh.add_tags := None;
     Refresh.remove_tags := Some [API] |}.

Definition hooksOnly (hs : list HookTemplate) : Loader.TagDir :=
  {| Loader.instructions_yaml := None; Loader.claude_md_yaml := None;
     Loader.nfr_yaml := None; Loader.structure_yaml := None;
     Loader.hooks_yaml := hooksFile hs; Loader.review_yaml := None |}.

(** Packaged templates in which [API] brings a hook of its own, and the
    same templates without that hook. *)
Definition apiWithHook : Loader.FileSystem :=
  oneDir "templates"
    [ Loader.Subdirectory "universal" (hooksOnly [mkHook "lint"]);
      Loader.Subdirectory "api" (hooksOnly [mkHook "api-check"]) ].

Definition apiWithoutHook : Loader.FileSystem :=
  oneDir "templates"
    [ Loader.Subdirectory "universal" (hooksOnly [mkHook "lint"]);
      Loader.Subdirectory "api" noFiles ].

Definition packaged : Loader.Result string := Loader.Ok "templates"%string.

Definition universalAndApi : ForgeCraftConfig :=
  {| tags := Some [UNIVERSAL; API]; tier := Some recommended;
     include := None; exclude := None; templateDirs := None |}.

Definition noDetections : string -> list Refresh.Detection := fun _ => [].

Definition apiAndMobile : string -> list Refresh.Detection :=
  fun _ => [apiDetection; mobileDetection].

Definition apiDetected : string -> list Refresh.Detection :=
  fun _ => [apiDetection].

(** Packaged templates with one instruction block per tag. *)
Definition oneBlockEach : Loader.FileSystem :=
  oneDir "templates"
    [ Loader.Subdirectory "universal" universalDir;
      Loader.Subdirectory "api"
        {| Loader.instructions_yaml :=
             instructionsFile API [mkBlock "api-block" None "A"];
           Loader.claude_md_yaml := None; Loader.nfr_yaml := None;
           Loader.structure_yaml := None; Loader.hooks_yaml := None;
           Loader.review_yaml := None |} ].

(** The store of the tier tests of the repository (tests/registry,
    "tier filtering"). *)
Definition tieredStore : gmap Tag TagTemplateSet :=
  <[ UNIVERSAL :=
       blocksSet UNIVERSAL
         [ mkBlock "core-block" (Some core) "C";
           mkBlock "rec-block" (Some recommended) "R";
           mkBlock "opt-block" (Some optional) "O";
           mkBlock "no-tier-block" None "N" ] ]> ∅.

Definition tierOnly (t : ContentTier) : option ComposeOptions :=
  Some {| config := Some {| tags := None; tier := Some t; include := None;
                            exclude := None; templateDirs := None |} |}.

Definition abStore : gmap Tag TagTemplateSet :=
  <[ UNIVERSAL :=
       blocksSet UNIVERSAL
         [ mkBlock "a" (Some core) "A"; mkBlock "b" (Some core) "B" ] ]> ∅.

Definition includeExclude (inc exc : option (list string))
    : option ComposeOptions :=
  Some {| config := Some {| tags := None; tier := Some optional;
                            include := inc; exclude := exc;
                            templateDirs := None |} |}.







(** Configuration files of a project: a [forgecraft.yaml] that holds
    [cfg], no file, and a file that does not parse. *)
Definition configFile (cfg : ForgeCraftConfig)
    : string -> option (Loader.YamlFile ForgeCraftConfig) :=
  fun _ => Some (Loader.Document cfg).

Definition noConfigFile : string -> option (Loader.YamlFile ForgeCraftConfig) :=
  fun _ => None.

Definition malformedFile : string -> option (Loader.YamlFile ForgeCraftConfig) :=
  fun _ => Some (Loader.Malformed "bad indentation of a mapping entry").

(** [API] detected twice, first with confidence 0.55 and then with 0.65,
    with [MOBILE] in between. *)
Definition weakApiDetection : Refresh.Detection :=
  {| Refresh.det_tag := API;
     Refresh.confidence := 0x1.199999999999ap-1%float;
     Refresh.evidence := ["routes directory found"%string] |}.

Definition repeatedDetections : list Refresh.Detection :=
  [weakApiDetection; mobileDetection; apiDetection].

Definition mergedApiDetection : Refresh.Detection :=
  {| Refresh.det_tag := API;
     Refresh.confidence := 0x1.4cccccccccccdp-1%float;
     Refresh.evidence := ["routes directory found"%string;
                          "express in dependencies"%string] |}.

End Samples.

(* ===================================================================== *)
(** ** Notions used to state the properties *)
(* ===================================================================== *)

Module Notions.

Import Composer.

(** A [seen] set tracks its output array when it holds exactly the keys of
    the array and no key occurs twice there. *)
Definition tracked {B : Type} (key : B -> string)
    (acc : gset string * list B) : Prop :=
  fst acc = list_to_set (key <$> snd acc) /\ NoDup (key <$> snd acc).

Definition stateTracked (st : ComposeState) : Prop :=
  tracked block_id (accBlocks st) /\ tracked entry_path (accPaths st) /\
  tracked nfr_id (accNfr st) /\ tracked hook_name (accHooks st) /\
  tracked review_id (accReview st).

(** One [seen] set per kind is within the other's. *)
Definition seenWithin (a b : ComposeState) : Prop :=
  fst (accBlocks a) ⊆ fst (accBlocks b) /\ fst (accPaths a) ⊆ fst (accPaths b) /\
  fst (accNfr a) ⊆ fst (accNfr b) /\ fst (accHooks a) ⊆ fst (accHooks b) /\
  fst (accReview a) ⊆ fst (accReview b).

(** No identity occurs twice within a kind. *)
Definition noDuplicates (c : ComposedTemplates) : Prop :=
  NoDup (block_id <$> claudeMdBlocks c) /\
  NoDup (entry_path <$> structureEntries c) /\
  NoDup (nfr_id <$> nfrBlocks c) /\
  NoDup (hook_name <$> hooks c) /\
  NoDup (review_id <$> reviewBlocks c).

(** Per kind, every identity of [a] is an identity of [b]. *)
Definition idsWithin (a b : ComposedTemplates) : Prop :=
  block_id <$> claudeMdBlocks a ⊆ block_id <$> claudeMdBlocks b /\
  entry_path <$> structureEntries a ⊆ entry_path <$> structureEntries b /\
  nfr_id <$> nfrBlocks a ⊆ nfr_id <$> nfrBlocks b /\
  hook_name <$> hooks a ⊆ hook_name <$> hooks b /\
  review_id <$> reviewBlocks a ⊆ review_id <$> reviewBlocks b.

(** Per kind, every fragment of [a] is a fragment of [b]. *)
Definition fragmentsWithin (a b : ComposedTemplates) : Prop :=
  claudeMdBlocks a ⊆ claudeMdBlocks b /\
  structureEntries a ⊆ structureEntries b /\
  nfrBlocks a ⊆ nfrBlocks b /\
  hooks a ⊆ hooks b /\
  reviewBlocks a ⊆ reviewBlocks b.

(** The options that carry [cfg] with its tier set to [t]. *)
Definition atTier (cfg : ForgeCraftConfig) (t : ContentTier)
    : option ComposeOptions :=
  Some {| config :=
            Some {| tags := tags cfg; tier := Some t;
                    include := include cfg; exclude := exclude cfg;
                    templateDirs := templateDirs cfg |} |}.

Definition withConfig (cfg : ForgeCraftConfig) : option ComposeOptions :=
  Some {| config := Some cfg |}.

(** [x] is a fragment the store carries for some tag, in the list that
    [proj] selects from a template set. *)
Definition carried {B : Type} (proj : TagTemplateSet -> option (list B))
    (allTemplates : gmap Tag TagTemplateSet) (x : B) : Prop :=
  exists tag templateSet xs,
    allTemplates !! tag = Some templateSet /\ proj templateSet = Some xs /\ x ∈ xs.

(** Among the fragments [proj] selects from the store, the key decides the
    fragment. *)
Definition keyDecides {B : Type} (key : B -> string)
    (proj : TagTemplateSet -> option (list B))
    (allTemplates : gmap Tag TagTemplateSet) : Prop :=
  forall x y, carried proj allTemplates x -> carried proj allTemplates y ->
              key x = key y -> x = y.

(** Within each tier-filtered kind, the fragments of the store that share
    an id are one and the same fragment. *)
Definition sameIdSameFragment (allTemplates : gmap Tag TagTemplateSet) : Prop :=
  keyDecides block_id (fun ts => instr_blocks <$> claudeMd ts) allTemplates /\
  keyDecides nfr_id (fun ts => nfr_blocks <$> nfr ts) allTemplates /\
  keyDecides review_id (fun ts => review_blocks <$> review ts) allTemplates.

(** *** Merging *)

(** [merged] keeps [base]: the fragments of [base] come first and
    unchanged, and a fragment of [merged] that bears the key of a fragment
    of [base] is a fragment of [base]. *)
Definition keepsBase {B : Type} (key : B -> string) (base merged : list B)
    : Prop :=
  base `prefix_of` merged /\
  forall x, x ∈ merged -> key x ∈ key <$> base -> x ∈ base.

(** The same for a kind that a template set may lack. *)
Definition keepsKind {T B : Type} (key : B -> string) (items : T -> list B)
    (base merged : option T) : Prop :=
  forall tb, base = Some tb ->
    exists tm, merged = Some tm /\ keepsBase key (items tb) (items tm).

(** The four kinds that are merged fragment by fragment. *)
Definition keepsSet (baseSet mergedSet : TagTemplateSet) : Prop :=
  keepsKind block_id instr_blocks (instructions baseSet) (instructions mergedSet) /\
  keepsKind nfr_id nfr_blocks (nfr baseSet) (nfr mergedSet) /\
  keepsKind hook_name id (Types.hooks baseSet) (Types.hooks mergedSet) /\
  keepsKind review_id review_blocks (review baseSet) (review mergedSet).

(** Tag by tag, the sets of [earlier] are kept by [later]. *)
Definition keepsStore (earlier later : gmap Tag TagTemplateSet) : Prop :=
  forall tag earlierSet, earlier !! tag = Some earlierSet ->
    exists laterSet,
      later !! tag = Some laterSet /\ keepsSet earlierSet laterSet.

(** A file that is there and that [loadYamlFile] rejects: reading or
    parsing it throws, or it parses to a falsy document. *)
Definition unparsable {T : Type} (f : option (Loader.YamlFile T)) : bool :=
  match f with
  | Some (Loader.Malformed _) | Some Loader.Falsy => true
  | Some (Loader.Document _) | None => false
  end.

(** The tag directory holds an unparsable file among those that
    [loadTagTemplateSet] reads; [claude-md.yaml] is read only when there is
    no [instructions.yaml]. *)
Definition readsUnparsableFile (d : Loader.TagDir) : bool :=
  unparsable (Loader.instructions_yaml d)
  || (bool_decide (Loader.instructions_yaml d = None)
      && unparsable (Loader.claude_md_yaml d))
  || unparsable (Loader.nfr_yaml d)
  || unparsable (Loader.structure_yaml d)
  || unparsable (Loader.hooks_yaml d)
  || unparsable (Loader.review_yaml d).

(** The errors of class [TemplateParseError]. *)
Definition isParseError (e : Loader.ForgeError) : Prop :=
  match e with
  | Loader.TemplateParseError _ _ => True
  | _ => False
  end.

(** *** Refresh *)

(** The suggestions that reach the auto-add threshold. *)
Definition autoAdded (suggestions : list Refresh.Detection)
    : list Refresh.Detection :=
  filter (fun s => Refresh.geq (Refresh.confidence s) Refresh.AUTO_ADD_THRESHOLD = true)
         suggestions.

(** The configuration [afterConfig] of [analyzeDrift]. *)
Definition proposedConfig (config : ForgeCraftConfig) (proposedTags : list Tag)
    (requestedTier : ContentTier) : ForgeCraftConfig :=
  {| tags := Some proposedTags; tier := Some requestedTier;
     include := include config; exclude := exclude config;
     templateDirs := templateDirs config |}.

(** *** The composer, one kind at a time *)

(** The tier, include list and exclude list that [composeTemplates] reads
    from its options. *)
Definition tierOf (options : option ComposeOptions) : ContentTier :=
  default DEFAULT_TIER ((options ≫= config) ≫= tier).

Definition includeOf (options : option ComposeOptions) : option (list string) :=
  (options ≫= config) ≫= include.

Definition excludeOf (options : option ComposeOptions) : option (list string) :=
  (options ≫= config) ≫= exclude.

(** The test of the instruction, NFR and review loops, next to the [seen]
    set. *)
Definition passesGates (options : option ComposeOptions)
    (blockTier : option ContentTier) (blockId : string) : bool :=
  isTierAllowed blockTier (TIER_HIERARCHY (tierOf options))
  && isBlockAllowed blockId (includeOf options) (excludeOf options).

(** The lists of one kind in a template set. *)
Definition blocksOf (ts : TagTemplateSet) : option (list InstructionBlock) :=
  instr_blocks <$> claudeMd ts.

Definition entriesOf (ts : TagTemplateSet) : option (list StructureEntry) :=
  structure_entries <$> structure ts.

Definition nfrBlocksOf (ts : TagTemplateSet) : option (list NfrBlock) :=
  nfr_blocks <$> nfr ts.

Definition hooksOf (ts : TagTemplateSet) : option (list HookTemplate) :=
  Types.hooks ts.

Definition reviewBlocksOf (ts : TagTemplateSet) : option (list ReviewBlock) :=
  review_blocks <$> review ts.

(** What the loop over the tags does to the accumulator of one kind. *)
Definition kindLoop {B : Type} (key : B -> string) (accept : B -> bool)
    (proj : TagTemplateSet -> option (list B))
    (allTemplates : gmap Tag TagTemplateSet) (orderedTags : list Tag)
    (acc : gset string * list B) : gset string * list B :=
  foldl (fun acc tag =>
           match allTemplates !! tag with
           | Some templateSet =>
               match proj templateSet with
               | Some xs => forOf key accept xs acc
               | None => acc
               end
           | None => acc
           end)
        acc orderedTags.

(** [x] is a fragment the store carries for one of [tags]. *)
Definition carriedBy {B : Type} (tags : list Tag)
    (proj : TagTemplateSet -> option (list B))
    (allTemplates : gmap Tag TagTemplateSet) (x : B) : Prop :=
  exists tag templateSet xs,
    tag ∈ tags /\ allTemplates !! tag = Some templateSet /\
    proj templateSet = Some xs /\ x ∈ xs.

(** The fragments of one kind that the store carries for [tags], tag after
    tag, each tag's fragments in the order of the store. *)
Definition itemsOf {B : Type} (proj : TagTemplateSet -> option (list B))
    (allTemplates : gmap Tag TagTemplateSet) (tags : list Tag) : list B :=
  tags ≫= (fun tag => default [] ((allTemplates !! tag) ≫= proj)).

(** The fragments of one kind that the store carries for [UNIVERSAL]. *)
Definition universalItems {B : Type} (proj : TagTemplateSet -> option (list B))
    (allTemplates : gmap Tag TagTemplateSet) : list B :=
  default [] ((allTemplates !! UNIVERSAL) ≫= proj).

(** Two outputs hold the same identities, kind by kind, and as many
    fragments. *)
Definition sameIds (a b : ComposedTemplates) : Prop :=
  (block_id <$> claudeMdBlocks a ≡ₚ block_id <$> claudeMdBlocks b) /\
  (entry_path <$> structureEntries a ≡ₚ entry_path <$> structureEntries b) /\
  (nfr_id <$> nfrBlocks a ≡ₚ nfr_id <$> nfrBlocks b) /\
  (hook_name <$> hooks a ≡ₚ hook_name <$> hooks b) /\
  (review_id <$> reviewBlocks a ≡ₚ review_id <$> reviewBlocks b).

(** Kind by kind, the fragments of [a] open the list of [b]. *)
Definition startsWith (a b : ComposedTemplates) : Prop :=
  claudeMdBlocks a `prefix_of` claudeMdBlocks b /\
  structureEntries a `prefix_of` structureEntries b /\
  nfrBlocks a `prefix_of` nfrBlocks b /\
  hooks a `prefix_of` hooks b /\
  reviewBlocks a `prefix_of` reviewBlocks b.

(** *** The loader *)

(** The document of a file, when the file is there and parses. *)
Definition parsed {T : Type} (f : option (Loader.YamlFile T)) : option T :=
  match f with
  | Some (Loader.Document doc) => Some doc
  | _ => None
  end.

(** The template set that the files of a tag directory describe. *)
Definition describedSet (tag : Tag) (d : Loader.TagDir) : TagTemplateSet :=
  {| Types.tag := tag;
     instructions :=
       match parsed (Loader.instructions_yaml d) with
       | Some t => Some t
       | None => parsed (Loader.claude_md_yaml d)
       end;
     nfr := parsed (Loader.nfr_yaml d);
     structure := parsed (Loader.structure_yaml d);
     Types.hooks := Loader.hooksfile_hooks <$> parsed (Loader.hooks_yaml d);
     review := parsed (Loader.review_yaml d);
     claudeMd := None |}.


(** The fragments of a kind that a template set may lack. *)
Definition kindItems {T B : Type} (items : T -> list B) (o : option T) : list B :=
  from_option items [] o.

(** [merged] holds the fragments of [base] and those of [extra] whose key
    is new. *)
Definition mergedItems {B : Type} (key : B -> string)
    (base extra merged : list B) : Prop :=
  forall x, x ∈ merged <-> x ∈ base \/ (x ∈ extra /\ key x ∉ key <$> base).

(** Within each of the four merged kinds, no id (name) occurs twice. *)
Definition uniqueIds (ts : TagTemplateSet) : Prop :=
  NoDup (block_id <$> kindItems instr_blocks (instructions ts)) /\
  NoDup (nfr_id <$> kindItems nfr_blocks (nfr ts)) /\
  NoDup (hook_name <$> kindItems id (Types.hooks ts)) /\
  NoDup (review_id <$> kindItems review_blocks (review ts)).

(** A store as the loader builds it: each set sits at its own tag and has
    no [claudeMd]. *)
Definition wellKeyed (store : gmap Tag TagTemplateSet) : Prop :=
  forall tag ts, store !! tag = Some ts -> Types.tag ts = tag /\ claudeMd ts = None.

(** *** The refresh tool and the analyzers *)

Import Refresh Analyzer.

(** A tag that the loop over [removeTags] leaves in the set: it is not
    among the removes, or it is [UNIVERSAL], which that loop skips. *)
Definition survives (removeTags : list Tag) (x : Tag) : Prop :=
  x ∉ removeTags \/ x = UNIVERSAL.

#[global] Instance survives_dec (removeTags : list Tag) (x : Tag) :
  Decision (survives removeTags x).
Proof. unfold survives. apply _. Defined.

(** The body of the loop of [deduplicateDetections]. *)
Definition dedupStep (byTag : list (Tag * Detection)) (detection : Detection)
    : list (Tag * Detection) :=
  let existing := mapGet (det_tag detection) byTag in
  if match existing with
     | None => true
     | Some e => PrimFloat.ltb (confidence e) (confidence detection)
     end
  then mapSet (det_tag detection)
         {| det_tag := det_tag detection;
            confidence := confidence detection;
            evidence :=
              match existing with
              | Some e => evidence e ++ evidence detection
              | None => evidence detection
              end |}
         byTag
  else byTag.

(** Every entry of the map is filed under its own tag. *)
Definition keyed (byTag : list (Tag * Detection)) : Prop :=
  forall k v, (k, v) ∈ byTag -> det_tag v = k.

(** Among [detections], nothing with the tag of [r] is more confident than
    [r]. *)
Definition mostConfident (detections : list Detection) (r : Detection) : Prop :=
  forall d, d ∈ detections -> det_tag d = det_tag r ->
            PrimFloat.ltb (confidence r) (confidence d) = false.

(** What the loop of [deduplicateDetections] keeps true of the map
    [byTag] once it has gone through [processed]. *)
Definition dedupInvariant (byTag : list (Tag * Detection))
    (processed : list Detection) : Prop :=
  NoDup byTag.*1 /\
  keyed byTag /\
  (forall d, d ∈ processed -> det_tag d ∈ byTag.*1) /\
  (forall k v, (k, v) ∈ byTag ->
     (exists d, d ∈ processed /\ det_tag d = k /\ confidence d = confidence v)
     /\ mostConfident processed v).

(** [s.includes(c)] for one character. *)
Fixpoint hasChar (c : ascii) (s : string) : bool :=
  match s with
  | EmptyString => false
  | String x rest => Ascii.eqb x c || hasChar c rest
  end.

(** A path segment: not empty, and free of both separators. *)
Definition isSegment (name : string) : Prop :=
  name <> EmptyString /\ hasChar "/" name = false /\ hasChar "\" name = false.

End Notions.

(* ===================================================================== *)
(** ** Properties of the composer *)
(* ===================================================================== *)

Module ComposerFacts.

Import Composer Samples Notions.

(** *** Tag order *)

Lemma normalizeTagOrder_absent (tags : list Tag) :
  UNIVERSAL ∉ tags ->
  head (normalizeTagOrder tags) = Some UNIVERSAL.
Proof.
  intros Hnot. unfold normalizeTagOrder.
  rewrite bool_decide_eq_false_2 by assumption.
  assert (Hgen : forall (ts : list Tag) (seen : gset Tag) (result : list Tag),
             head (snd (foldl (fun '(seen, result) tag =>
                if bool_decide (tag ∈ seen) then (seen, result)
                else ({[ tag ]} ∪ seen, result ++ [tag]))
              (seen, UNIVERSAL :: result) ts)) = Some UNIVERSAL).
  { induction ts as [|t ts IH]; intros seen result; simpl; [reflexivity|].
    destruct (bool_decide (t ∈ seen)); [apply IH|].
    apply (IH _ (result ++ [t])). }
  apply (Hgen tags _ []).
Qed.

Lemma normalizeTagOrder_first (tags : list Tag) :
  normalizeTagOrder (UNIVERSAL :: tags) <> [] /\
  head (normalizeTagOrder (UNIVERSAL :: tags)) = Some UNIVERSAL.
Proof.
  unfold normalizeTagOrder.
  rewrite bool_decide_eq_true_2 by (left).
  simpl. rewrite bool_decide_eq_false_2 by set_solver.
  assert (Hgen : forall (ts : list Tag) (seen : gset Tag) (result : list Tag),
             head (snd (foldl (fun '(seen, result) tag =>
                if bool_decide (tag ∈ seen) then (seen, result)
                else ({[ tag ]} ∪ seen, result ++ [tag]))
              (seen, UNIVERSAL :: result) ts)) = Some UNIVERSAL).
  { induction ts as [|t ts IH]; intros seen result; simpl; [reflexivity|].
    destruct (bool_decide (t ∈ seen)); [apply IH|].
    apply (IH _ (result ++ [t])). }
  split; [|apply (Hgen tags _ [])].
  intros Heq. specialize (Hgen tags ({[UNIVERSAL]} ∪ ∅) []).
  simpl in Hgen. rewrite Heq in Hgen. discriminate.
Qed.

(** The composer on the inputs of the repository's own tests. *)

Example prepends_universal :
  block_id <$> claudeMdBlocks (composeTemplates [API] twoTagStore None)
  = ["universal-block"; "api-block"]%string.
Proof. vm_compute. reflexivity. Qed.

Example tier_core_blocks :
  block_id <$> claudeMdBlocks (composeTemplates [UNIVERSAL] tieredStore (tierOnly core))
  = ["core-block"; "no-tier-block"]%string.
Proof. vm_compute. reflexivity. Qed.

Example tier_recommended_blocks :
  block_id <$> claudeMdBlocks (composeTemplates [UNIVERSAL] tieredStore None)
  = ["core-block"; "rec-block"; "no-tier-block"]%string.
Proof. vm_compute. reflexivity. Qed.

Example tier_optional_blocks :
  block_id <$> claudeMdBlocks
                 (composeTemplates [UNIVERSAL] tieredStore (tierOnly optional))
  = ["core-block"; "rec-block"; "opt-block"; "no-tier-block"]%string.
Proof. vm_compute. reflexivity. Qed.

Example exclude_over_include :
  block_id <$> claudeMdBlocks
                 (composeTemplates [UNIVERSAL] abStore
                    (includeExclude (Some ["a"; "b"]%string) (Some ["b"%string])))
  = ["a"%string].
Proof. vm_compute. reflexivity. Qed.

(** C1, evaluated where it fails: when the caller lists [UNIVERSAL] after
    another tag, [normalizeTagOrder] leaves it there, and the composed
    instruction blocks start with the other tag's block. *)
Theorem universal_not_first_when_listed_later :
  normalizeTagOrder [API; UNIVERSAL] = [API; UNIVERSAL] /\
  block_id <$> claudeMdBlocks (composeTemplates [API; UNIVERSAL] twoTagStore None)
    = ["api-block"; "universal-block"]%string.
Proof. split; vm_compute; reflexivity. Qed.

(** *** The dedup loops *)

Section forOf.

Context {B : Type} (key : B -> string).

Lemma pushUnseen_tracked (accept : B -> bool) (acc : gset string * list B)
    (x : B) :
  tracked key acc -> tracked key (pushUnseen key accept acc x).
Proof.
  intros [Hseen Hnodup]. unfold pushUnseen.
  destruct (bool_decide (key x ∉ fst acc)) eqn:Hfresh; simpl; [|by split].
  destruct (accept x); simpl; [|by split].
  apply bool_decide_eq_true_1 in Hfresh.
  split; simpl.
  - rewrite fmap_app, list_to_set_app_L, Hseen. simpl. set_solver.
  - rewrite fmap_app. apply NoDup_app. split_and!; [done| |apply NoDup_singleton].
    intros i Hi Hx. apply list_elem_of_singleton in Hx as ->.
    apply Hfresh. rewrite Hseen. by apply elem_of_list_to_set.
Qed.

Lemma forOf_tracked (accept : B -> bool) (xs : list B)
    (acc : gset string * list B) :
  tracked key acc -> tracked key (forOf key accept xs acc).
Proof.
  unfold forOf. revert acc.
  induction xs as [|x xs IH]; intros acc Hacc; simpl; [done|].
  apply IH. by apply pushUnseen_tracked.
Qed.

Lemma pushUnseen_grows (accept : B -> bool) (acc : gset string * list B)
    (x : B) :
  fst acc ⊆ fst (pushUnseen key accept acc x).
Proof.
  unfold pushUnseen.
  destruct (bool_decide (key x ∉ fst acc) && accept x); simpl; set_solver.
Qed.

(** A loop that accepts more, started from a larger [seen] set, ends with a
    larger [seen] set. *)
Lemma pushUnseen_seen_mono (accept1 accept2 : B -> bool)
    (acc1 acc2 : gset string * list B) (x : B) :
  (forall y, accept1 y = true -> accept2 y = true) ->
  fst acc1 ⊆ fst acc2 ->
  fst (pushUnseen key accept1 acc1 x) ⊆ fst (pushUnseen key accept2 acc2 x).
Proof.
  intros Haccept Hsub.
  pose proof (pushUnseen_grows accept2 acc2 x) as Hgrow.
  unfold pushUnseen in *.
  destruct (bool_decide (key x ∉ fst acc1)) eqn:H1; simpl; [|set_solver].
  destruct (accept1 x) eqn:Ha1; simpl; [|set_solver].
  rewrite (Haccept _ Ha1), andb_true_r in *.
  destruct (bool_decide (key x ∉ fst acc2)) eqn:H2; simpl in *; [set_solver|].
  apply bool_decide_eq_false_1 in H2.
  assert (key x ∈ fst acc2) by (destruct (decide (key x ∈ fst acc2)); tauto).
  set_solver.
Qed.

Lemma forOf_seen_mono (accept1 accept2 : B -> bool) (xs : list B)
    (acc1 acc2 : gset string * list B) :
  (forall y, accept1 y = true -> accept2 y = true) ->
  fst acc1 ⊆ fst acc2 ->
  fst (forOf key accept1 xs acc1) ⊆ fst (forOf key accept2 xs acc2).
Proof.
  intros Haccept. unfold forOf. revert acc1 acc2.
  induction xs as [|x xs IH]; intros acc1 acc2 Hsub; simpl; [done|].
  apply IH. by apply pushUnseen_seen_mono.
Qed.

Lemma tracked_ids_within (acc1 acc2 : gset string * list B) :
  tracked key acc1 -> tracked key acc2 ->
  fst acc1 ⊆ fst acc2 ->
  key <$> snd acc1 ⊆ key <$> snd acc2.
Proof.
  intros [H1 _] [H2 _] Hsub i Hi.
  assert (i ∈ fst acc1) as Hin by (rewrite H1; by apply elem_of_list_to_set).
  apply Hsub in Hin. rewrite H2 in Hin. by apply elem_of_list_to_set in Hin.
Qed.

End forOf.

(** *** The loop over the tags *)

Section compose.

Variable instrSource : TagTemplateSet -> option InstructionTemplate.

Lemma emptyState_tracked : stateTracked emptyState.
Proof. repeat split; simpl; try apply NoDup_nil_2; set_solver. Qed.

Lemma composeTag_tracked allowedTiers includeList excludeList st templateSet :
  stateTracked st ->
  stateTracked
    (composeTag instrSource allowedTiers includeList excludeList st templateSet).
Proof.
  intros (Hb & Hp & Hn & Hh & Hr). unfold composeTag, stateTracked.
  split_and!; simpl; case_match; try done; by apply forOf_tracked.
Qed.

Lemma composeLoop_tracked allTemplates allowedTiers includeList excludeList
    orderedTags st :
  stateTracked st ->
  stateTracked
    (composeLoop instrSource allTemplates allowedTiers includeList excludeList
       orderedTags st).
Proof.
  unfold composeLoop. revert st.
  induction orderedTags as [|t ts IH]; intros st Hst; simpl; [done|].
  apply IH. case_match; [by apply composeTag_tracked|done].
Qed.

Lemma composeWith_noDuplicates activeTags allTemplates options :
  noDuplicates (composeWith instrSource activeTags allTemplates options).
Proof.
  unfold composeWith, noDuplicates. simpl.
  match goal with
  | |- context [composeLoop ?i ?a ?t ?inc ?exc ?tags ?st] =>
      destruct (composeLoop_tracked a t inc exc tags st emptyState_tracked)
        as ([_ Hb] & [_ Hp] & [_ Hn] & [_ Hh] & [_ Hr])
  end.
  by split_and!.
Qed.

(** **** Tiers *)

Lemma isTierAllowed_mono (blockTier : option ContentTier) (lo hi : ContentTier) :
  TIER_HIERARCHY lo ⊆ TIER_HIERARCHY hi ->
  isTierAllowed blockTier (TIER_HIERARCHY lo) = true ->
  isTierAllowed blockTier (TIER_HIERARCHY hi) = true.
Proof.
  unfold isTierAllowed. intros Hsub Hlo.
  apply bool_decide_eq_true_1 in Hlo. apply bool_decide_eq_true_2. auto.
Qed.

Lemma composeTag_seenWithin lo hi includeList excludeList st1 st2 templateSet :
  TIER_HIERARCHY lo ⊆ TIER_HIERARCHY hi ->
  seenWithin st1 st2 ->
  seenWithin
    (composeTag instrSource (TIER_HIERARCHY lo) includeList excludeList st1 templateSet)
    (composeTag instrSource (TIER_HIERARCHY hi) includeList excludeList st2 templateSet).
Proof.
  intros Hsub (Hb & Hp & Hn & Hh & Hr). unfold composeTag.
  repeat split; simpl; case_match; try done;
    apply forOf_seen_mono; try done;
    intros y Hy; apply andb_true_iff in Hy as [Ht Ha];
    apply andb_true_iff; split; try done;
    by eapply isTierAllowed_mono.
Qed.

Lemma composeLoop_seenWithin allTemplates lo hi includeList excludeList
    orderedTags st1 st2 :
  TIER_HIERARCHY lo ⊆ TIER_HIERARCHY hi ->
  seenWithin st1 st2 ->
  seenWithin
    (composeLoop instrSource allTemplates (TIER_HIERARCHY lo) includeList
       excludeList orderedTags st1)
    (composeLoop instrSource allTemplates (TIER_HIERARCHY hi) includeList
       excludeList orderedTags st2).
Proof.
  intros Hsub. unfold composeLoop. revert st1 st2.
  induction orderedTags as [|t ts IH]; intros st1 st2 Hst; simpl; [done|].
  apply IH. case_match; [by apply composeTag_seenWithin|done].
Qed.

Lemma composeWith_tier_ids activeTags allTemplates cfg lo hi :
  TIER_HIERARCHY lo ⊆ TIER_HIERARCHY hi ->
  idsWithin (composeWith instrSource activeTags allTemplates (atTier cfg lo))
            (composeWith instrSource activeTags allTemplates (atTier cfg hi)).
Proof.
  intros Hsub. unfold composeWith, atTier. simpl.
  set (tags := normalizeTagOrder activeTags).
  pose proof (composeLoop_tracked allTemplates (TIER_HIERARCHY lo)
                (include cfg) (exclude cfg) tags emptyState emptyState_tracked)
    as (Hb1 & Hp1 & Hn1 & Hh1 & Hr1).
  pose proof (composeLoop_tracked allTemplates (TIER_HIERARCHY hi)
                (include cfg) (exclude cfg) tags emptyState emptyState_tracked)
    as (Hb2 & Hp2 & Hn2 & Hh2 & Hr2).
  assert (seenWithin emptyState emptyState) as H0 by (by repeat split).
  pose proof (composeLoop_seenWithin allTemplates lo hi (include cfg)
                (exclude cfg) tags emptyState emptyState Hsub H0)
    as (Hb & Hp & Hn & Hh & Hr).
  unfold idsWithin; simpl.
  split_and!; by eapply tracked_ids_within.
Qed.

(** **** Hooks and structure entries *)

Lemma composeLoop_untiered allTemplates tiers1 inc1 exc1 tiers2 inc2 exc2
    orderedTags st1 st2 :
  accHooks st1 = accHooks st2 -> accPaths st1 = accPaths st2 ->
  accHooks (composeLoop instrSource allTemplates tiers1 inc1 exc1 orderedTags st1)
    = accHooks (composeLoop instrSource allTemplates tiers2 inc2 exc2 orderedTags st2)
  /\ accPaths (composeLoop instrSource allTemplates tiers1 inc1 exc1 orderedTags st1)
    = accPaths (composeLoop instrSource allTemplates tiers2 inc2 exc2 orderedTags st2).
Proof.
  unfold composeLoop. revert st1 st2.
  induction orderedTags as [|t ts IH]; intros st1 st2 Hh Hp; simpl; [done|].
  apply IH; case_match; simpl; try done; by rewrite ?Hh, ?Hp.
Qed.

(** **** Where the output comes from *)

Lemma forOf_from {B : Type} (key : B -> string) (accept : B -> bool)
    (xs : list B) (acc : gset string * list B) (x : B) :
  x ∈ snd (forOf key accept xs acc) -> x ∈ snd acc \/ x ∈ xs.
Proof.
  unfold forOf. revert acc.
  induction xs as [|y ys IH]; intros acc Hx; simpl in *; [by left|].
  apply IH in Hx as [Hx|Hx]; [|right; by constructor].
  unfold pushUnseen in Hx.
  destruct (bool_decide (key y ∉ fst acc) && accept y); simpl in Hx; [|by left].
  apply elem_of_app in Hx as [Hx|Hx]; [by left|].
  apply list_elem_of_singleton in Hx as ->. right. by left.
Qed.

Lemma composeLoop_from allTemplates allowedTiers includeList excludeList
    orderedTags st :
  let st' := composeLoop instrSource allTemplates allowedTiers includeList
               excludeList orderedTags st in
  (forall x, x ∈ snd (accBlocks st') ->
     x ∈ snd (accBlocks st) \/
     carried (fun ts => instr_blocks <$> instrSource ts) allTemplates x) /\
  (forall x, x ∈ snd (accNfr st') ->
     x ∈ snd (accNfr st) \/
     carried (fun ts => nfr_blocks <$> nfr ts) allTemplates x) /\
  (forall x, x ∈ snd (accReview st') ->
     x ∈ snd (accReview st) \/
     carried (fun ts => review_blocks <$> review ts) allTemplates x).
Proof.
  unfold composeLoop. revert st.
  induction orderedTags as [|t ts IH]; intros st; simpl; [by split_and!; left|].
  destruct (allTemplates !! t) as [templateSet|] eqn:Hget; [|apply IH].
  match goal with
  | |- context [foldl _ ?s ts] => destruct (IH s) as (Hb & Hn & Hr)
  end.
  split_and!; intros x Hx;
    [apply Hb in Hx as [Hx|Hx] | apply Hn in Hx as [Hx|Hx]
     | apply Hr in Hx as [Hx|Hx]]; try (by right); simpl in Hx.
  - destruct (instrSource templateSet) as [tpl|] eqn:Hsrc; [|by left].
    apply forOf_from in Hx as [Hx|Hx]; [by left|].
    right. exists t, templateSet, (instr_blocks tpl). by rewrite Hsrc.
  - destruct (nfr templateSet) as [tpl|] eqn:Hsrc; [|by left].
    apply forOf_from in Hx as [Hx|Hx]; [by left|].
    right. exists t, templateSet, (nfr_blocks tpl). by rewrite Hsrc.
  - destruct (review templateSet) as [tpl|] eqn:Hsrc; [|by left].
    apply forOf_from in Hx as [Hx|Hx]; [by left|].
    right. exists t, templateSet, (review_blocks tpl). by rewrite Hsrc.
Qed.

End compose.

Lemma ids_within_fragments_within {B : Type} (key : B -> string)
    (P : B -> Prop) (out1 out2 : list B) :
  (forall x y, P x -> P y -> key x = key y -> x = y) ->
  (forall x, x ∈ out1 -> P x) -> (forall x, x ∈ out2 -> P x) ->
  key <$> out1 ⊆ key <$> out2 -> out1 ⊆ out2.
Proof.
  intros Hkey H1 H2 Hids x Hx.
  assert (key x ∈ key <$> out2) as Hin.
  { apply Hids. apply list_elem_of_fmap. by exists x. }
  apply list_elem_of_fmap in Hin as (y & Hxy & Hy).
  by rewrite (Hkey x y (H1 _ Hx) (H2 _ Hy) Hxy).
Qed.

Lemma tier_hierarchy_steps :
  TIER_HIERARCHY core ⊆ TIER_HIERARCHY recommended /\
  TIER_HIERARCHY recommended ⊆ TIER_HIERARCHY optional.
Proof. split; simpl; set_solver. Qed.

Lemma composeTemplates_tier_fragments activeTags allTemplates cfg lo hi :
  TIER_HIERARCHY lo ⊆ TIER_HIERARCHY hi ->
  sameIdSameFragment allTemplates ->
  fragmentsWithin (composeTemplates activeTags allTemplates (atTier cfg lo))
                  (composeTemplates activeTags allTemplates (atTier cfg hi)).
Proof.
  intros Hsub (Kb & Kn & Kr).
  destruct (composeWith_tier_ids claudeMd activeTags allTemplates cfg lo hi Hsub)
    as (Ib & _ & In & _ & Ir).
  unfold composeTemplates, composeWith, atTier in *. simpl in *.
  set (tags := normalizeTagOrder activeTags) in *.
  destruct (composeLoop_from claudeMd allTemplates (TIER_HIERARCHY lo)
              (include cfg) (exclude cfg) tags emptyState) as (Fb1 & Fn1 & Fr1).
  destruct (composeLoop_from claudeMd allTemplates (TIER_HIERARCHY hi)
              (include cfg) (exclude cfg) tags emptyState) as (Fb2 & Fn2 & Fr2).
  destruct (composeLoop_untiered claudeMd allTemplates
              (TIER_HIERARCHY lo) (include cfg) (exclude cfg)
              (TIER_HIERARCHY hi) (include cfg) (exclude cfg)
              tags emptyState emptyState eq_refl eq_refl) as (Eh & Ep).
  unfold fragmentsWithin; simpl. split_and!.
  - eapply ids_within_fragments_within; [exact Kb| | |exact Ib];
      intros x Hx; [apply Fb1 in Hx|apply Fb2 in Hx];
      destruct Hx as [Hx|Hx]; try done; simpl in Hx; by apply elem_of_nil in Hx.
  - by rewrite Ep.
  - eapply ids_within_fragments_within; [exact Kn| | |exact In];
      intros x Hx; [apply Fn1 in Hx|apply Fn2 in Hx];
      destruct Hx as [Hx|Hx]; try done; simpl in Hx; by apply elem_of_nil in Hx.
  - by rewrite Eh.
  - eapply ids_within_fragments_within; [exact Kr| | |exact Ir];
      intros x Hx; [apply Fr1 in Hx|apply Fr2 in Hx];
      destruct Hx as [Hx|Hx]; try done; simpl in Hx; by apply elem_of_nil in Hx.
Qed.

(** *** The claims about the composer *)

(** C9: within each kind of a composed output no identity occurs twice: no
    two instruction, requirement or review blocks share an id, no two
    structure entries share a path, no two hooks share a name. *)
Theorem compose_no_duplicates (activeTags : list Tag)
    (allTemplates : gmap Tag TagTemplateSet)
    (options : option ComposeOptions) :
  noDuplicates (composeTemplates activeTags allTemplates options).
Proof. apply composeWith_noDuplicates. Qed.

(** C6, as stated, fails: with an instruction block "shared" that
    [UNIVERSAL] carries at tier optional and [API] carries at tier core,
    the output at tier core holds [API]'s block and the output at tier
    optional holds [UNIVERSAL]'s instead. *)
Lemma tier_fragments_not_monotone :
  ~ fragmentsWithin
      (composeTemplates [UNIVERSAL; API] sharedIdStore (atTier bareConfig core))
      (composeTemplates [UNIVERSAL; API] sharedIdStore (atTier bareConfig optional)).
Proof.
  intros (Hb & _).
  assert (claudeMdBlocks
            (composeTemplates [UNIVERSAL; API] sharedIdStore (atTier bareConfig core))
          = [mkBlock "shared" (Some core) "A"]) as Hlo by (vm_compute; reflexivity).
  assert (claudeMdBlocks
            (composeTemplates [UNIVERSAL; API] sharedIdStore (atTier bareConfig optional))
          = [mkBlock "shared" (Some optional) "U"]) as Hhi by (vm_compute; reflexivity).
  rewrite Hlo, Hhi in Hb.
  specialize (Hb (mkBlock "shared" (Some core) "A") ltac:(left)).
  apply list_elem_of_singleton in Hb. discriminate Hb.
Qed.

(** C6, amended: per kind, the identities composed at tier core are among
    those composed at tier recommended, and these among those composed at
    tier optional; and where the fragments of the store that share an id
    are the same fragment, the same holds of the fragments themselves. *)
Theorem tier_monotonicity (activeTags : list Tag)
    (allTemplates : gmap Tag TagTemplateSet) (cfg : ForgeCraftConfig) :
  let out t := composeTemplates activeTags allTemplates (atTier cfg t) in
  (idsWithin (out core) (out recommended) /\
   idsWithin (out recommended) (out optional)) /\
  (sameIdSameFragment allTemplates ->
   fragmentsWithin (out core) (out recommended) /\
   fragmentsWithin (out recommended) (out optional)).
Proof.
  destruct tier_hierarchy_steps as [H1 H2]. simpl. split.
  - split; by apply composeWith_tier_ids.
  - intros Hsame. split; by apply composeTemplates_tier_fragments.
Qed.

(** Inversion of [carried] for a store that is given in full. *)
Ltac carried_inv H :=
  let t := fresh "t" in
  let ts := fresh "ts" in
  let xs := fresh "xs" in
  let Hget := fresh "Hget" in
  let Hproj := fresh "Hproj" in
  let Hin := fresh "Hin" in
  destruct H as (t & ts & xs & Hget & Hproj & Hin);
  destruct t; vm_compute in Hget; try discriminate Hget;
  injection Hget as <-; simpl in Hproj; try discriminate Hproj;
  injection Hproj as <-;
  apply list_elem_of_singleton in Hin; subst.

Lemma twoTagStore_sameIdSameFragment : sameIdSameFragment twoTagStore.
Proof.
  unfold sameIdSameFragment, keyDecides.
  split_and!; intros x y Hx Hy Hkey; carried_inv Hx; carried_inv Hy;
    first [reflexivity | discriminate Hkey].
Qed.

(** In the store of the tier tests the four blocks have four ids. *)
Lemma tieredStore_sameIdSameFragment : sameIdSameFragment tieredStore.
Proof.
  unfold sameIdSameFragment, keyDecides.
  split_and!; intros x y (t1 & ts1 & xs1 & Hget1 & Hproj1 & Hin1)
                         (t2 & ts2 & xs2 & Hget2 & Hproj2 & Hin2) Hkey;
    destruct t1; vm_compute in Hget1; try discriminate Hget1;
    injection Hget1 as <-; simpl in Hproj1; try discriminate Hproj1;
    injection Hproj1 as <-;
    destruct t2; vm_compute in Hget2; try discriminate Hget2;
    injection Hget2 as <-; simpl in Hproj2; try discriminate Hproj2;
    injection Hproj2 as <-;
    repeat (apply elem_of_cons in Hin1 as [->|Hin1]);
    try (by apply elem_of_nil in Hin1);
    repeat (apply elem_of_cons in Hin2 as [->|Hin2]);
    try (by apply elem_of_nil in Hin2);
    first [reflexivity | discriminate Hkey].
Qed.

(** The amended C6 at the store of the tier tests, where each tier adds a
    block: two blocks are composed at tier core, three at tier recommended
    and four at tier optional. *)
Lemma tier_monotonicity_witness :
  sameIdSameFragment tieredStore /\
  (block_id <$> claudeMdBlocks
                  (composeTemplates [UNIVERSAL] tieredStore (atTier bareConfig core))
   = ["core-block"; "no-tier-block"]%string) /\
  (block_id <$> claudeMdBlocks
                  (composeTemplates [UNIVERSAL] tieredStore
                     (atTier bareConfig recommended))
   = ["core-block"; "rec-block"; "no-tier-block"]%string) /\
  (block_id <$> claudeMdBlocks
                  (composeTemplates [UNIVERSAL] tieredStore
                     (atTier bareConfig optional))
   = ["core-block"; "rec-block"; "opt-block"; "no-tier-block"]%string) /\
  (idsWithin
     (composeTemplates [UNIVERSAL] tieredStore (atTier bareConfig core))
     (composeTemplates [UNIVERSAL] tieredStore (atTier bareConfig recommended)) /\
   idsWithin
     (composeTemplates [UNIVERSAL] tieredStore (atTier bareConfig recommended))
     (composeTemplates [UNIVERSAL] tieredStore (atTier bareConfig optional))) /\
  fragmentsWithin
    (composeTemplates [UNIVERSAL] tieredStore (atTier bareConfig core))
    (composeTemplates [UNIVERSAL] tieredStore (atTier bareConfig recommended)) /\
  fragmentsWithin
    (composeTemplates [UNIVERSAL] tieredStore (atTier bareConfig recommended))
    (composeTemplates [UNIVERSAL] tieredStore (atTier bareConfig optional)).
Proof.
  split; [exact tieredStore_sameIdSameFragment|].
  split; [vm_compute; reflexivity|].
  split; [vm_compute; reflexivity|].
  split; [vm_compute; reflexivity|].
  split.
  - exact (proj1 (tier_monotonicity [UNIVERSAL] tieredStore bareConfig)).
  - exact (proj2 (tier_monotonicity [UNIVERSAL] tieredStore bareConfig)
             tieredStore_sameIdSameFragment).
Defined.

(** C3, as stated, fails: a hook named in the exclude list is composed, and
    so is a structure entry whose path is not in a non-empty include
    list. *)
Lemma hooks_and_entries_ignore_the_gate :
  isBlockAllowed "lint" (include excludeLint) (exclude excludeLint) = false /\
  mkHook "lint" ∈ hooks (composeTemplates [UNIVERSAL] hookStore (withConfig excludeLint)) /\
  isBlockAllowed "src/" (include includeOther) (exclude includeOther) = false /\
  mkEntry "src/" None
    ∈ structureEntries (composeTemplates [UNIVERSAL] hookStore (withConfig includeOther)).
Proof.
  split_and!; try (vm_compute; reflexivity).
  - replace (hooks (composeTemplates [UNIVERSAL] hookStore (withConfig excludeLint)))
      with [mkHook "lint"] by (vm_compute; reflexivity).
    left.
  - replace (structureEntries
               (composeTemplates [UNIVERSAL] hookStore (withConfig includeOther)))
      with [mkEntry "src/" None] by (vm_compute; reflexivity).
    left.
Qed.

(** C3, amended: hooks and structure entries skip the tier check and the
    include/exclude gate alike; they are deduplicated only, so the composed
    hooks and structure entries are those composed without any
    configuration. *)
Theorem hooks_and_entries_ungated (activeTags : list Tag)
    (allTemplates : gmap Tag TagTemplateSet)
    (options : option ComposeOptions) :
  hooks (composeTemplates activeTags allTemplates options)
    = hooks (composeTemplates activeTags allTemplates None) /\
  structureEntries (composeTemplates activeTags allTemplates options)
    = structureEntries (composeTemplates activeTags allTemplates None).
Proof.
  unfold composeTemplates, composeWith. simpl.
  match goal with
  | |- context [composeLoop ?i ?a ?t1 ?inc1 ?exc1 ?tags ?st] =>
      destruct (composeLoop_untiered i a t1 inc1 exc1
                  (TIER_HIERARCHY DEFAULT_TIER) None None tags st st
                  eq_refl eq_refl) as [Hh Hp]
  end.
  simpl in Hh, Hp. by rewrite Hh, Hp.
Qed.

End ComposerFacts.

(* ===================================================================== *)
(** ** Properties of the loader *)
(* ===================================================================== *)

Module LoaderFacts.

Import Loader Samples Notions.

(** *** Parse failures *)

Lemma loadIfExists_throws {T : Type} (path : string)
    (f : option (YamlFile T)) (e : ForgeError) :
  loadIfExists path f = Throw e -> isParseError e.
Proof.
  destruct f as [[msg| |doc]|]; simpl; intros H; inversion H; exact I.
Qed.

Lemma loadTagTemplateSet_throws (tag : Tag) (tagDir : string) (d : TagDir)
    (e : ForgeError) :
  loadTagTemplateSet tag tagDir d = Throw e -> isParseError e.
Proof.
  unfold loadTagTemplateSet, mbind, Result_bind.
  repeat (match goal with
          | |- context [loadIfExists ?p ?f] =>
              let H := fresh "H" in
              destruct (loadIfExists p f) as [?|?] eqn:H;
              [|intros Heq; inversion Heq; subst; by eapply loadIfExists_throws]
          | |- context [match ?o with Some _ => _ | None => _ end] =>
              destruct o
          end);
    intros Heq; inversion Heq.
Qed.

Lemma loadTagTemplateSet_unparsable (tag : Tag) (tagDir : string) (d : TagDir) :
  readsUnparsableFile d = true ->
  exists e, loadTagTemplateSet tag tagDir d = Throw e.
Proof.
  destruct d as [i c n s h r]. unfold readsUnparsableFile, loadTagTemplateSet.
  simpl.
  destruct i as [[?| |?]|]; simpl; eauto;
    destruct c as [[?| |?]|]; simpl; eauto;
    destruct n as [[?| |?]|]; simpl; eauto;
    destruct s as [[?| |?]|]; simpl; eauto;
    destruct h as [[?| |?]|]; simpl; eauto;
    destruct r as [[?| |?]|]; simpl; eauto; discriminate.
Qed.

Lemma loadTagDirs_throws (dir : string) (tagDirs : list (string * TagDir))
    (result : gmap Tag TagTemplateSet) (name : string) (contents : TagDir)
    (value : MappingValue) :
  (name, contents) ∈ tagDirs ->
  tagDirNameToTag name = Some value ->
  readsUnparsableFile contents = true ->
  exists e', loadTagDirs dir tagDirs result = Throw e' /\ isParseError e'.
Proof.
  intros Hin Htag Hbad. revert result.
  induction tagDirs as [|[n c] rest IH]; intros result.
  - by apply elem_of_nil in Hin.
  - cbn [loadTagDirs]. apply elem_of_cons in Hin as [Heq|Hin].
    + inversion Heq; subst. rewrite Htag.
      destruct value as [tag|inherited].
      * destruct (loadTagTemplateSet_unparsable tag (join dir n) c Hbad)
          as [e Hthrow].
        rewrite Hthrow. simpl.
        exists e. split; [done|]. by eapply loadTagTemplateSet_throws.
      * destruct (loadTagTemplateSet_unparsable UNIVERSAL (join dir n) c Hbad)
          as [e Hthrow].
        rewrite Hthrow. simpl.
        exists e. split; [done|]. by eapply loadTagTemplateSet_throws.
    + destruct (tagDirNameToTag n) as [[t|inherited]|]; [| |by apply IH].
      * destruct (loadTagTemplateSet t (join dir n) c) as [ts|e0] eqn:Hload; simpl.
        -- by apply IH.
        -- exists e0. split; [done|]. by eapply loadTagTemplateSet_throws.
      * destruct (loadTagTemplateSet UNIVERSAL (join dir n) c) as [ts|e0] eqn:Hload;
          simpl.
        -- by apply IH.
        -- exists e0. split; [done|]. by eapply loadTagTemplateSet_throws.
Qed.

Lemma tagDirsOf_elem (entries : list Dirent) (name : string) (contents : TagDir) :
  Subdirectory name contents ∈ entries -> (name, contents) ∈ tagDirsOf entries.
Proof.
  intros Hin. unfold tagDirsOf. apply list_elem_of_omap.
  exists (Subdirectory name contents). by split.
Qed.

(** C2, as stated, fails: with a built-in directory in which the file of
    one tag is malformed and the files of the other tag are fine, the build
    throws and returns no store. *)
Lemma one_malformed_file_aborts_the_build :
  readsUnparsableFile universalDir = false /\
  readsUnparsableFile brokenApiDir = true /\
  (exists templateSet,
     loadTagTemplateSet UNIVERSAL "templates/universal" universalDir
       = Ok templateSet) /\
  loadAllTemplates oneBrokenFile (Ok "templates"%string) None
    = Throw (TemplateParseError "templates/api/instructions.yaml" "bad indentation") /\
  ~ exists store,
      loadAllTemplates oneBrokenFile (Ok "templates"%string) None = Ok store.
Proof.
  assert (loadAllTemplates oneBrokenFile (Ok "templates"%string) None
          = Throw (TemplateParseError "templates/api/instructions.yaml"
                     "bad indentation")) as H by (vm_compute; reflexivity).
  split_and!; [reflexivity|reflexivity|eexists; vm_compute; reflexivity|exact H|].
  intros [store Hstore]. rewrite H in Hstore. discriminate Hstore.
Qed.

(** C2, amended: a source file that fails to parse is fatal to the build.
    When a recognised tag directory holds an unparsable file among those
    the loader reads, [loadAllTemplates] throws a [TemplateParseError] and
    returns no store, whatever the other directories hold.  The same holds
    of a directory named after a property that [mapping] inherits. *)
Theorem parse_failure_aborts_the_build (fs : FileSystem)
    (resolveTemplatesDir : Result string) (dir : string)
    (entries : list Dirent) (name : string) (contents : TagDir)
    (value : MappingValue) :
  fs dir = Some (Directory entries) ->
  Subdirectory name contents ∈ entries ->
  tagDirNameToTag name = Some value ->
  readsUnparsableFile contents = true ->
  exists e', loadAllTemplates fs resolveTemplatesDir (Some dir) = Throw e'
             /\ isParseError e'.
Proof.
  intros Hfs Hin Htag Hbad.
  unfold loadAllTemplates, readdirSync. simpl. rewrite Hfs. simpl.
  eapply loadTagDirs_throws; eauto using tagDirsOf_elem.
Qed.

(** The amended C2 at the templates with one malformed file. *)
Lemma parse_failure_aborts_the_build_witness :
  oneBrokenFile "templates"
    = Some (Directory [Subdirectory "universal" universalDir;
                       Subdirectory "api" brokenApiDir]) /\
  tagDirNameToTag "api" = Some (TagValue API) /\
  readsUnparsableFile brokenApiDir = true /\
  exists e', loadAllTemplates oneBrokenFile (Ok "templates"%string)
               (Some "templates"%string) = Throw e'
             /\ isParseError e'.
Proof.
  split_and!; [reflexivity|vm_compute; reflexivity|reflexivity|].
  apply (parse_failure_aborts_the_build oneBrokenFile (Ok "templates"%string)
           "templates"
           [Subdirectory "universal" universalDir; Subdirectory "api" brokenApiDir]
           "api" brokenApiDir (TagValue API)).
  - reflexivity.
  - right. left.
  - vm_compute. reflexivity.
  - reflexivity.
Defined.

(** *** Merging extension directories *)

Section keeps.

Context {B : Type} (key : B -> string).

Lemma keepsBase_refl (xs : list B) : keepsBase key xs xs.
Proof. split; [done|auto]. Qed.

Lemma keepsBase_trans (xs ys zs : list B) :
  keepsBase key xs ys -> keepsBase key ys zs -> keepsBase key xs zs.
Proof.
  intros [Hp1 Hk1] [Hp2 Hk2]. split; [by etrans|].
  intros x Hx Hkey. apply Hk1; [|done]. apply Hk2; [done|].
  destruct Hp1 as [more ->]. rewrite fmap_app. apply elem_of_app. by left.
Qed.

(** The merge step shared by the four [merge...Templates] functions. *)
Lemma append_unseen_keepsBase (base extra : list B) :
  keepsBase key base
    (base ++ filter (fun x => key x ∉ (list_to_set (key <$> base) : gset string)) extra).
Proof.
  split; [by apply prefix_app_r|].
  intros x Hx Hkey. apply elem_of_app in Hx as [Hx|Hx]; [done|].
  apply list_elem_of_filter in Hx as [Hnew _].
  exfalso. apply Hnew. by apply elem_of_list_to_set.
Qed.

End keeps.

Lemma keepsKind_refl {T B : Type} (key : B -> string) (items : T -> list B)
    (o : option T) :
  keepsKind key items o o.
Proof. intros tb ->. exists tb. split; [done|apply keepsBase_refl]. Qed.

Lemma keepsKind_trans {T B : Type} (key : B -> string) (items : T -> list B)
    (o1 o2 o3 : option T) :
  keepsKind key items o1 o2 -> keepsKind key items o2 o3 ->
  keepsKind key items o1 o3.
Proof.
  intros H12 H23 t1 Ht1.
  destruct (H12 t1 Ht1) as (t2 & Ht2 & K12).
  destruct (H23 t2 Ht2) as (t3 & Ht3 & K23).
  exists t3. split; [done|]. by eapply keepsBase_trans.
Qed.

Lemma keepsSet_refl (ts : TagTemplateSet) : keepsSet ts ts.
Proof. unfold keepsSet. split_and!; apply keepsKind_refl. Qed.

Lemma keepsSet_trans (a b c : TagTemplateSet) :
  keepsSet a b -> keepsSet b c -> keepsSet a c.
Proof.
  intros (A1 & A2 & A3 & A4) (B1 & B2 & B3 & B4). unfold keepsSet.
  split_and!; by eapply keepsKind_trans.
Qed.

Lemma mergeInstructionTemplates_keeps (base extra : option InstructionTemplate) :
  keepsKind block_id instr_blocks base (mergeInstructionTemplates base extra).
Proof.
  intros tb ->. destruct extra as [te|]; simpl.
  - eexists. split; [done|]. simpl. apply append_unseen_keepsBase.
  - exists tb. split; [done|apply keepsBase_refl].
Qed.

Lemma mergeNfrTemplates_keeps (base extra : option NfrTemplate) :
  keepsKind nfr_id nfr_blocks base (mergeNfrTemplates base extra).
Proof.
  intros tb ->. destruct extra as [te|]; simpl.
  - eexists. split; [done|]. simpl. apply append_unseen_keepsBase.
  - exists tb. split; [done|apply keepsBase_refl].
Qed.

Lemma mergeHookTemplates_keeps (base extra : option (list HookTemplate)) :
  keepsKind hook_name id base (mergeHookTemplates base extra).
Proof.
  intros tb ->. destruct extra as [te|]; simpl.
  - eexists. split; [done|]. simpl. apply append_unseen_keepsBase.
  - exists tb. split; [done|apply keepsBase_refl].
Qed.

Lemma mergeReviewTemplates_keeps (base extra : option ReviewTemplate) :
  keepsKind review_id review_blocks base (mergeReviewTemplates base extra).
Proof.
  intros tb ->. destruct extra as [te|]; simpl.
  - eexists. split; [done|]. simpl. apply append_unseen_keepsBase.
  - exists tb. split; [done|apply keepsBase_refl].
Qed.

Lemma merged_keeps (tag : Tag) (baseSet extraSet : TagTemplateSet) :
  keepsSet baseSet (merged tag baseSet extraSet).
Proof.
  unfold keepsSet, merged; simpl.
  split_and!; [apply mergeInstructionTemplates_keeps|apply mergeNfrTemplates_keeps
               |apply mergeHookTemplates_keeps|apply mergeReviewTemplates_keeps].
Qed.

(** What one pass of the merge loop leaves at a tag. *)
Lemma mergeExtra_lookup (base extra : gmap Tag TagTemplateSet) (tag : Tag) :
  mergeExtra base extra !! tag =
    match extra !! tag, base !! tag with
    | None, b => b
    | Some extraSet, None => Some extraSet
    | Some extraSet, Some baseSet => Some (merged tag baseSet extraSet)
    end.
Proof.
  unfold mergeExtra. revert tag.
  apply (map_fold_weak_ind
           (fun r m => forall tag, r !! tag =
              match m !! tag, base !! tag with
              | None, b => b
              | Some extraSet, None => Some extraSet
              | Some extraSet, Some baseSet => Some (merged tag baseSet extraSet)
              end)).
  - intros tag. by rewrite lookup_empty.
  - intros i x m r Hfresh IH tag.
    pose proof (IH i) as Hi. rewrite Hfresh in Hi.
    destruct (decide (i = tag)) as [->|Hne].
    + rewrite lookup_insert_eq, Hi.
      destruct (base !! tag); by rewrite lookup_insert_eq.
    + rewrite (lookup_insert_ne m) by done. rewrite <- IH.
      destruct (r !! i); by rewrite lookup_insert_ne.
Qed.

Lemma mergeExtra_keeps (base extra : gmap Tag TagTemplateSet) (tag : Tag)
    (baseSet : TagTemplateSet) :
  base !! tag = Some baseSet ->
  exists mergedSet,
    mergeExtra base extra !! tag = Some mergedSet /\ keepsSet baseSet mergedSet.
Proof.
  intros Hbase. rewrite mergeExtra_lookup, Hbase.
  destruct (extra !! tag) as [extraSet|].
  - eexists. split; [done|apply merged_keeps].
  - eexists. split; [done|apply keepsSet_refl].
Qed.

Lemma keepsStore_refl (store : gmap Tag TagTemplateSet) : keepsStore store store.
Proof. intros tag ts Hts. exists ts. split; [done|apply keepsSet_refl]. Qed.

Lemma keepsStore_trans (a b c : gmap Tag TagTemplateSet) :
  keepsStore a b -> keepsStore b c -> keepsStore a c.
Proof.
  intros Hab Hbc tag ts Hts.
  destruct (Hab tag ts Hts) as (tb & Htb & Kab).
  destruct (Hbc tag tb Htb) as (tc & Htc & Kbc).
  exists tc. split; [done|]. by eapply keepsSet_trans.
Qed.

Lemma mergeExtra_keepsStore (base extra : gmap Tag TagTemplateSet) :
  keepsStore base (mergeExtra base extra).
Proof. intros tag ts Hts. by apply mergeExtra_keeps. Qed.

(** The loop over the extension directories, from any store: the store it
    starts from is kept by the store it ends with. *)
Lemma loadExtras_keeps (fs : FileSystem) (resolveTemplatesDir : Result string)
    (extraDirs : list string) (base store : gmap Tag TagTemplateSet) :
  loadExtras fs resolveTemplatesDir extraDirs base = Ok store ->
  keepsStore base store.
Proof.
  revert base.
  induction extraDirs as [|dir rest IH]; intros base Hload; simpl in Hload.
  - inversion Hload; subst. apply keepsStore_refl.
  - destruct (existsSync fs dir); [|by eapply IH].
    destruct (loadAllTemplates fs resolveTemplatesDir (Some dir)) as [extra|e];
      simpl in Hload; [|discriminate Hload].
    eapply keepsStore_trans; [apply mergeExtra_keepsStore|by apply IH].
Qed.

(** The loop over a list of directories is the loop over its first part
    followed by the loop over the rest. *)
Lemma loadExtras_split (fs : FileSystem) (resolveTemplatesDir : Result string)
    (dirs later : list string) (base : gmap Tag TagTemplateSet) :
  loadExtras fs resolveTemplatesDir (dirs ++ later) base
  = loadExtras fs resolveTemplatesDir dirs base
      ≫= loadExtras fs resolveTemplatesDir later.
Proof.
  revert base. induction dirs as [|d rest IH]; intros base; simpl; [done|].
  destruct (existsSync fs d); [|apply IH].
  destruct (loadAllTemplates fs resolveTemplatesDir (Some d)) as [extra|e];
    simpl; [apply IH|done].
Qed.

(** C5, as stated, fails for directory-structure entries: the structure
    template of a community directory replaces the built-in one, so the
    built-in entry at the same path is gone from the merged store. *)
Lemma extension_replaces_base_structure :
  loadAllTemplates withCommunity (Ok "builtin"%string) None = Ok builtinStore /\
  exists store mergedSet tpl,
    loadAllTemplatesWithExtras withCommunity (Ok "builtin"%string) None
      (Some ["community"%string]) = Ok store /\
    store !! UNIVERSAL = Some mergedSet /\
    structure mergedSet = Some tpl /\
    structure_entries tpl = [mkEntry "src/" (Some "community"%string)] /\
    mkEntry "src/" (Some "built-in"%string) ∉ structure_entries tpl.
Proof.
  split; [vm_compute; reflexivity|].
  eexists _, _, _. split_and!.
  - vm_compute. reflexivity.
  - vm_compute. reflexivity.
  - reflexivity.
  - reflexivity.
  - simpl. intros Hin. apply list_elem_of_singleton in Hin. discriminate Hin.
Qed.

(** C5, amended: for instruction, requirement, hook and review fragments
    the merge is first-writer-wins along the list of extension
    directories.  Cut the list anywhere: the load over the first part
    succeeds when the whole load does, and the store it gives, which is the
    built-in store when the first part is empty, is kept by the final
    store.  Kept means that every tag is still there and that, for each of
    the four kinds, the earlier fragments come first and unchanged and every
    fragment of the final store that bears the id (or name) of an earlier
    fragment is that earlier fragment.  Directory-structure entries are not
    merged one by one: in each pass the structure template of the
    extension, when there is one, replaces the one in the store. *)
Theorem base_wins_merge (fs : FileSystem) (resolveTemplatesDir : Result string)
    (builtInDir : option string) (dirs later : list string)
    (store : gmap Tag TagTemplateSet) :
  loadAllTemplatesWithExtras fs resolveTemplatesDir builtInDir
    (Some (dirs ++ later)) = Ok store ->
  (exists base earlier,
     loadAllTemplates fs resolveTemplatesDir builtInDir = Ok base /\
     loadAllTemplatesWithExtras fs resolveTemplatesDir builtInDir (Some dirs)
       = Ok earlier /\
     keepsStore base earlier /\
     keepsStore earlier store) /\
  (forall (current extra : gmap Tag TagTemplateSet) (tag : Tag)
          (extraSet : TagTemplateSet) (tpl : StructureTemplate),
     extra !! tag = Some extraSet -> structure extraSet = Some tpl ->
     structure <$> (mergeExtra current extra !! tag) = Some (Some tpl)).
Proof.
  intros Hload. split.
  - unfold loadAllTemplatesWithExtras in *.
    destruct (loadAllTemplates fs resolveTemplatesDir builtInDir) as [base|e];
      simpl in *; [|discriminate Hload].
    rewrite loadExtras_split in Hload.
    destruct (loadExtras fs resolveTemplatesDir dirs base) as [earlier|e] eqn:Hearlier;
      simpl in Hload; [|discriminate Hload].
    exists base, earlier. split_and!; [done|done| |].
    + by eapply loadExtras_keeps.
    + by eapply loadExtras_keeps.
  - intros current extra tag extraSet tpl Hextra Htpl.
    rewrite mergeExtra_lookup, Hextra.
    destruct (current !! tag); simpl; by rewrite Htpl.
Qed.

(** The amended C5 at the built-in templates with two community
    directories that both bring a block [team-rules]: the block of the
    first directory is the one in the merged store, and the last block is
    the only one the second directory adds. *)
Lemma base_wins_merge_witness :
  exists store,
    loadAllTemplatesWithExtras twoCommunities (Ok "builtin"%string) None
      (Some (["community"%string] ++ ["second"%string])) = Ok store /\
    (instr_blocks <$> (store !! UNIVERSAL ≫= instructions)
     = Some [ mkBlock "code-standards" None "built-in";
              mkBlock "team-rules" None "community";
              mkBlock "extra-rule" None "second" ]) /\
    exists base earlier,
      loadAllTemplates twoCommunities (Ok "builtin"%string) None = Ok base /\
      loadAllTemplatesWithExtras twoCommunities (Ok "builtin"%string) None
        (Some ["community"%string]) = Ok earlier /\
      keepsStore base earlier /\
      keepsStore earlier store.
Proof.
  destruct (loadAllTemplatesWithExtras twoCommunities (Ok "builtin"%string) None
              (Some (["community"%string] ++ ["second"%string])))
    as [store|e] eqn:Hload; [|vm_compute in Hload; discriminate Hload].
  exists store. split_and!.
  - reflexivity.
  - vm_compute in Hload. injection Hload as <-. vm_compute. reflexivity.
  - exact (proj1 (base_wins_merge twoCommunities (Ok "builtin"%string) None
                    ["community"%string] ["second"%string] store Hload)).
Defined.

End LoaderFacts.

(* ===================================================================== *)
(** ** Properties of the refresh tool *)
(* ===================================================================== *)

Module RefreshFacts.

Import Loader Refresh Samples Notions.

(** *** Comparisons of binary64 numbers *)

Lemma SFcompare_Lt_Gt (x y : spec_float) :
  SFcompare x y = Some Lt -> SFcompare y x = Some Gt.
Proof.
  destruct x as [s1|s1| |s1 m1 e1], y as [s2|s2| |s2 m2 e2]; simpl;
    try discriminate;
    try (destruct s1; discriminate || reflexivity);
    try (destruct s2; discriminate || reflexivity);
    try (destruct s1, s2; discriminate || reflexivity).
  rewrite (Z.compare_antisym e1 e2), !Pos.compare_cont_spec.
  rewrite (Pos.compare_antisym m1 m2).
  destruct s1, s2; try discriminate; try reflexivity;
    destruct (Z.compare e1 e2); simpl; try discriminate; try reflexivity;
    destruct (Pos.compare m1 m2); simpl; discriminate || reflexivity.
Qed.

Lemma SFltb_not_SFleb (x y : spec_float) :
  SFltb x y = true -> SFleb y x = false.
Proof.
  unfold SFltb, SFleb. intros H.
  rewrite (SFcompare_Lt_Gt x y); [reflexivity|].
  destruct (SFcompare x y) as [[| |]|]; discriminate || reflexivity.
Qed.

Lemma SFleb_smaller_mantissa (m1 m2 : positive) (e : Z) (x : spec_float) :
  (m1 < m2)%positive ->
  SFleb (S754_finite false m2 e) x = true ->
  SFleb (S754_finite false m1 e) x = true.
Proof.
  intros Hlt. unfold SFleb.
  destruct x as [s|s| |s m e']; simpl; try (intros H; exact H).
  destruct s; [intros H; exact H|].
  destruct (Z.compare e e'); try (intros H; exact H).
  rewrite !Pos.compare_cont_spec. simpl.
  destruct (Pos.compare_spec m2 m) as [Heq|Hlt'|Hgt]; [| |discriminate]; intros _.
  - subst m. apply Pos.compare_lt_iff in Hlt. by rewrite Hlt.
  - assert (m1 < m)%positive as H by (by etrans).
    apply Pos.compare_lt_iff in H. by rewrite H.
Qed.

(** The two thresholds have the same exponent, and the mantissa of 0.5 is
    the smaller one. *)
Lemma Prim2SF_thresholds :
  exists m1 m2 e, (m1 < m2)%positive /\
    Prim2SF SUGGEST_THRESHOLD = S754_finite false m1 e /\
    Prim2SF AUTO_ADD_THRESHOLD = S754_finite false m2 e.
Proof.
  exists 4503599627370496%positive, 5404319552844595%positive, (-53)%Z.
  split_and!; vm_compute; reflexivity.
Qed.

Lemma geq_auto_add_suggest (c : float) :
  geq c AUTO_ADD_THRESHOLD = true -> geq c SUGGEST_THRESHOLD = true.
Proof.
  destruct Prim2SF_thresholds as (m1 & m2 & e & Hlt & H1 & H2).
  unfold geq. rewrite !leb_spec, H1, H2. by apply SFleb_smaller_mantissa.
Qed.

Lemma ltb_not_geq (c t : float) :
  PrimFloat.ltb c t = true -> geq c t = false.
Proof. unfold geq. rewrite ltb_spec, leb_spec. apply SFltb_not_SFleb. Qed.

(** *** Sets of tags in insertion order *)

Lemma setAdd_elem (x t : Tag) (s : list Tag) :
  x ∈ setAdd t s <-> x = t \/ x ∈ s.
Proof.
  unfold setAdd. case_bool_decide as Hin.
  - split; [intros ?; by right|]. intros [->|?]; done.
  - rewrite elem_of_app, list_elem_of_singleton. tauto.
Qed.

Lemma setDelete_elem (x t : Tag) (s : list Tag) :
  x ∈ setDelete t s <-> x <> t /\ x ∈ s.
Proof. unfold setDelete. by rewrite list_elem_of_filter. Qed.

Lemma newSet_elem (x : Tag) (ts : list Tag) : x ∈ ts -> x ∈ newSet ts.
Proof.
  unfold newSet.
  assert (forall s, x ∈ s \/ x ∈ ts -> x ∈ foldl (fun s t => setAdd t s) s ts) as H.
  { induction ts as [|t ts IH]; intros s [Hs|Hts]; simpl.
    - done.
    - by apply elem_of_nil in Hts.
    - apply IH. left. apply setAdd_elem. by right.
    - apply IH. apply elem_of_cons in Hts as [->|Hts]; [|by right].
      left. apply setAdd_elem. by left. }
  intros Hx. apply H. by right.
Qed.

(** *** [computeUpdatedTags] *)

(** The loop over the suggestions. *)
Lemma autoAdd_keeps (suggestions : list Detection) (tagSet : list Tag) (x : Tag) :
  x ∈ tagSet ->
  x ∈ foldl (fun tagSet s =>
               if geq (confidence s) AUTO_ADD_THRESHOLD
               then setAdd (det_tag s) tagSet else tagSet)
            tagSet suggestions.
Proof.
  revert tagSet. induction suggestions as [|s ss IH]; intros tagSet Hx; simpl; [done|].
  apply IH. destruct (geq _ _); [|done]. apply setAdd_elem. by right.
Qed.

Lemma autoAdd_adds (suggestions : list Detection) (tagSet : list Tag)
    (d : Detection) :
  d ∈ suggestions -> geq (confidence d) AUTO_ADD_THRESHOLD = true ->
  det_tag d ∈ foldl (fun tagSet s =>
                       if geq (confidence s) AUTO_ADD_THRESHOLD
                       then setAdd (det_tag s) tagSet else tagSet)
                    tagSet suggestions.
Proof.
  intros Hin Hgeq. revert tagSet.
  induction suggestions as [|s ss IH]; intros tagSet; simpl.
  - by apply elem_of_nil in Hin.
  - apply elem_of_cons in Hin as [<-|Hin]; [|by apply IH].
    rewrite Hgeq. apply autoAdd_keeps. apply setAdd_elem. by left.
Qed.

Lemma autoAdd_filter (suggestions : list Detection) (tagSet : list Tag) :
  foldl (fun tagSet s =>
           if geq (confidence s) AUTO_ADD_THRESHOLD
           then setAdd (det_tag s) tagSet else tagSet)
        tagSet suggestions
  = foldl (fun tagSet s =>
             if geq (confidence s) AUTO_ADD_THRESHOLD
             then setAdd (det_tag s) tagSet else tagSet)
          tagSet (autoAdded suggestions).
Proof.
  unfold autoAdded. revert tagSet.
  induction suggestions as [|s ss IH]; intros tagSet; simpl; [done|].
  rewrite filter_cons. case_decide as Hs; simpl.
  - rewrite Hs. apply IH.
  - destruct (geq _ _); [done|apply IH].
Qed.

(** The loop over the explicit adds. *)
Lemma explicitAdd_keeps (addTags : list Tag) (tagSet : list Tag) (x : Tag) :
  x ∈ tagSet -> x ∈ foldl (fun tagSet t => setAdd t tagSet) tagSet addTags.
Proof.
  revert tagSet. induction addTags as [|t ts IH]; intros tagSet Hx; simpl; [done|].
  apply IH. apply setAdd_elem. by right.
Qed.

(** The loop over the explicit removes. *)
Lemma explicitRemove_keeps (removeTags : list Tag) (tagSet : list Tag) (x : Tag) :
  x ∉ removeTags -> x ∈ tagSet ->
  x ∈ foldl (fun tagSet t =>
               if bool_decide (t <> UNIVERSAL) then setDelete t tagSet
               else tagSet)
            tagSet removeTags.
Proof.
  revert tagSet. induction removeTags as [|t ts IH]; intros tagSet Hnot Hx; simpl; [done|].
  apply not_elem_of_cons in Hnot as [Hne Hnot].
  apply IH; [done|]. case_bool_decide; [|done].
  apply setDelete_elem. by split.
Qed.

Lemma computeUpdatedTags_auto_adds (currentTags : list Tag)
    (suggestions : list Detection) (addTags removeTags : option (list Tag))
    (d : Detection) :
  d ∈ suggestions -> geq (confidence d) AUTO_ADD_THRESHOLD = true ->
  (forall ts, removeTags = Some ts -> det_tag d ∉ ts) ->
  det_tag d ∈ computeUpdatedTags currentTags suggestions addTags removeTags.
Proof.
  intros Hin Hgeq Hrem. unfold computeUpdatedTags.
  apply setAdd_elem. right.
  pose proof (autoAdd_adds suggestions (newSet currentTags) d Hin Hgeq) as H1.
  destruct removeTags as [rs|].
  - apply explicitRemove_keeps; [by apply Hrem|].
    destruct addTags as [adds|]; [by apply explicitAdd_keeps|done].
  - destruct addTags as [adds|]; [by apply explicitAdd_keeps|done].
Qed.

Lemma computeUpdatedTags_autoAdded (currentTags : list Tag)
    (suggestions : list Detection) (addTags removeTags : option (list Tag)) :
  computeUpdatedTags currentTags suggestions addTags removeTags
  = computeUpdatedTags currentTags (autoAdded suggestions) addTags removeTags.
Proof. unfold computeUpdatedTags. by rewrite autoAdd_filter. Qed.

(** *** [analyzeDrift] *)

Lemma detectionLoop_suggestions (currentTags : list Tag)
    (detections : list Detection) :
  fst (detectionLoop currentTags detections)
  = filter (fun d => geq (confidence d) SUGGEST_THRESHOLD = true
                     /\ det_tag d ∉ currentTags)
           detections.
Proof.
  unfold detectionLoop.
  assert (forall (sugg : list Detection) (seen : gset Tag),
            fst (foldl (fun '(newTagSuggestions, detectedTagSet) d =>
                   let detectedTagSet : gset Tag := {[ det_tag d ]} ∪ detectedTagSet in
                   if geq (confidence d) SUGGEST_THRESHOLD
                      && bool_decide (det_tag d ∉ currentTags)
                   then (newTagSuggestions ++
                           [ {| det_tag := det_tag d; confidence := confidence d;
                                evidence := evidence d |} ],
                         detectedTagSet)
                   else (newTagSuggestions, detectedTagSet))
                 (sugg, seen) detections)
            = sugg ++ filter (fun d => geq (confidence d) SUGGEST_THRESHOLD = true
                                       /\ det_tag d ∉ currentTags)
                             detections) as H.
  { induction detections as [|d ds IH]; intros sugg seen; simpl.
    - by rewrite app_nil_r.
    - rewrite filter_cons.
      case_decide as Hd.
      + destruct Hd as [Hc Hcur].
        rewrite Hc, bool_decide_eq_true_2 by done. simpl.
        rewrite IH, <- app_assoc. simpl. by destruct d.
      + destruct (geq (confidence d) SUGGEST_THRESHOLD) eqn:Hc; simpl;
          [|by rewrite IH].
        rewrite bool_decide_eq_false_2 by tauto. by rewrite IH. }
  apply (H [] ∅).
Qed.

Section world.

Variable fs : FileSystem.
Variable resolveTemplatesDir : Result string.
Variable analyzeProject : string -> list Detection.
Variable checkCompleteness : string -> list Tag -> Completeness.

(** What the report says, read off the body of [analyzeDrift]. *)
Lemma analyzeDrift_report (projectDir : string) (config : ForgeCraftConfig)
    (args : RefreshArgs) (report : DriftReport) :
  analyzeDrift fs resolveTemplatesDir analyzeProject checkCompleteness
    projectDir config args = Ok report ->
  currentTags report = default [UNIVERSAL] (tags config) /\
  newTagSuggestions report
    = fst (detectionLoop (currentTags report) (analyzeProject projectDir)) /\
  exists allTemplates,
    loadAllTemplatesWithExtras fs resolveTemplatesDir None (templateDirs config)
      = Ok allTemplates /\
    before (blockCountDelta report)
      = length (Composer.claudeMdBlocks
                  (Composer.composeTemplatesInstr (currentTags report)
                     allTemplates (withConfig config))) /\
    after (blockCountDelta report)
      = length (Composer.claudeMdBlocks
                  (Composer.composeTemplatesInstr (updatedTags report args)
                     allTemplates
                     (withConfig
                        (proposedConfig config (updatedTags report args)
                           (default (default recommended (tier config))
                              (arg_tier args)))))).
Proof.
  unfold analyzeDrift.
  destruct (detectionLoop (default [UNIVERSAL] (tags config))
              (analyzeProject projectDir)) as [sugg seen] eqn:Hloop.
  destruct (loadAllTemplatesWithExtras fs resolveTemplatesDir None
              (templateDirs config)) as [allTemplates|e] eqn:Hload;
    simpl; intros Heq; inversion Heq; subst; clear Heq; simpl.
  rewrite Hloop. split_and!; try done.
  exists allTemplates. by split_and!.
Qed.

End world.

(** *** The claims about the refresh tool *)

(** C8: whatever the current tags, the suggestions, the explicit adds and
    the explicit removes are, also when [UNIVERSAL] is among the removes,
    the resolved tag set holds [UNIVERSAL]. *)
Theorem universal_always_resolved (currentTags : list Tag)
    (suggestions : list Detection) (addTags removeTags : option (list Tag)) :
  UNIVERSAL ∈ computeUpdatedTags currentTags suggestions addTags removeTags.
Proof. unfold computeUpdatedTags. apply setAdd_elem. by left. Qed.

Example remove_universal_and_api :
  computeUpdatedTags [UNIVERSAL; API] [] None (Some [UNIVERSAL; API])
  = [UNIVERSAL].
Proof. vm_compute. reflexivity. Qed.

(** C7, as stated, fails: a detection of a tag that is not configured, with
    confidence 0.65, is not in the resolved tag set when the same pass
    names the tag among the explicit removes. *)
Lemma removed_tag_is_not_auto_added :
  exists report,
    analyzeDrift oneBlockEach packaged apiDetected noChecks "proj"
      universalOnly removeApi = Ok report /\
    apiDetection ∈ apiDetected "proj" /\
    (det_tag apiDetection ∉ currentTags report) /\
    geq (confidence apiDetection) AUTO_ADD_THRESHOLD = true /\
    det_tag apiDetection ∉ updatedTags report removeApi.
Proof.
  eexists. split; [vm_compute; reflexivity|].
  split_and!.
  - left.
  - simpl. set_solver.
  - vm_compute. reflexivity.
  - match goal with
    | |- _ ∉ ?l => assert (l = [UNIVERSAL]) as -> by (vm_compute; reflexivity)
    end.
    simpl. set_solver.
Qed.

(** C7, amended: in a refresh pass, for a detection whose tag is not among
    the configured tags: with confidence at least 0.6 the tag is in the
    resolved tag set, unless the pass names it among the explicit removes;
    with confidence at least 0.5 and below 0.6 the detection is among the
    suggestions of the drift report and is not one of those that feed the
    resolved tag set, which is the set computed from the suggestions at or
    above 0.6 alone. *)
Theorem detection_thresholds (fs : FileSystem)
    (resolveTemplatesDir : Result string)
    (analyzeProject : string -> list Detection)
    (checkCompleteness : string -> list Tag -> Completeness)
    (projectDir : string) (config : ForgeCraftConfig) (args : RefreshArgs)
    (report : DriftReport) (d : Detection) :
  analyzeDrift fs resolveTemplatesDir analyzeProject checkCompleteness
    projectDir config args = Ok report ->
  d ∈ analyzeProject projectDir ->
  det_tag d ∉ currentTags report ->
  (geq (confidence d) AUTO_ADD_THRESHOLD = true ->
   (forall ts, remove_tags args = Some ts -> det_tag d ∉ ts) ->
   det_tag d ∈ updatedTags report args) /\
  (geq (confidence d) SUGGEST_THRESHOLD = true ->
   PrimFloat.ltb (confidence d) AUTO_ADD_THRESHOLD = true ->
   d ∈ newTagSuggestions report /\
   (d ∉ autoAdded (newTagSuggestions report)) /\
   updatedTags report args
     = computeUpdatedTags (currentTags report)
         (autoAdded (newTagSuggestions report))
         (add_tags args) (remove_tags args)).
Proof.
  intros Hrun Hin Hcur.
  destruct (analyzeDrift_report _ _ _ _ _ _ _ _ Hrun) as (_ & Hsugg & _).
  rewrite detectionLoop_suggestions in Hsugg.
  assert (geq (confidence d) SUGGEST_THRESHOLD = true ->
          d ∈ newTagSuggestions report) as Hsuggested.
  { intros Hc. rewrite Hsugg. apply list_elem_of_filter. by split. }
  split.
  - intros Hauto Hrem. unfold updatedTags.
    apply computeUpdatedTags_auto_adds; [|done|done].
    apply Hsuggested. by apply geq_auto_add_suggest.
  - intros Hc Hlt. split_and!.
    + by apply Hsuggested.
    + unfold autoAdded. rewrite list_elem_of_filter.
      intros [Hgeq _]. apply ltb_not_geq in Hlt. congruence.
    + unfold updatedTags. apply computeUpdatedTags_autoAdded.
Qed.

(** The amended C7 at a pass that detects [API] with confidence 0.65 and
    [MOBILE] with confidence 0.55. *)
Lemma detection_thresholds_witness :
  exists report,
    analyzeDrift oneBlockEach packaged apiAndMobile noChecks "proj"
      universalOnly plainArgs = Ok report /\
    det_tag apiDetection ∈ updatedTags report plainArgs /\
    mobileDetection ∈ newTagSuggestions report /\
    mobileDetection ∉ autoAdded (newTagSuggestions report).
Proof.
  destruct (analyzeDrift oneBlockEach packaged apiAndMobile noChecks "proj"
              universalOnly plainArgs) as [report|e] eqn:Hrun;
    [|vm_compute in Hrun; discriminate Hrun].
  exists report. split; [reflexivity|].
  destruct (analyzeDrift_report _ _ _ _ _ _ _ _ Hrun) as (Hcur & _).
  simpl in Hcur.
  assert (forall d, d ∈ apiAndMobile "proj" -> det_tag d <> UNIVERSAL ->
                    det_tag d ∉ currentTags report) as Hfresh.
  { intros d _ Hne. rewrite Hcur. intros Hd.
    apply list_elem_of_singleton in Hd. done. }
  split_and!.
  - apply (detection_thresholds oneBlockEach packaged apiAndMobile noChecks
             "proj" universalOnly plainArgs report apiDetection Hrun).
    + left.
    + apply Hfresh; [left|discriminate].
    + vm_compute. reflexivity.
    + intros ts Hts. discriminate Hts.
  - apply (detection_thresholds oneBlockEach packaged apiAndMobile noChecks
             "proj" universalOnly plainArgs report mobileDetection Hrun).
    + right. left.
    + apply Hfresh; [right; left|discriminate].
    + vm_compute. reflexivity.
    + vm_compute. reflexivity.
  - apply (detection_thresholds oneBlockEach packaged apiAndMobile noChecks
             "proj" universalOnly plainArgs report mobileDetection Hrun).
    + right. left.
    + apply Hfresh; [right; left|discriminate].
    + vm_compute. reflexivity.
    + vm_compute. reflexivity.
Defined.

(** C4, as stated, fails: the report has one before/after pair, the number
    of instruction blocks.  Two template directories that differ in the
    hooks of one tag give the same report, although the hooks composed
    under the proposed configuration are two in one and one in the
    other. *)
Lemma block_count_delta_ignores_hooks :
  exists report storeA storeB,
    analyzeDrift apiWithHook packaged noDetections noChecks "proj"
      universalOnly addApi = Ok report /\
    analyzeDrift apiWithoutHook packaged noDetections noChecks "proj"
      universalOnly addApi = Ok report /\
    loadAllTemplatesWithExtras apiWithHook packaged None None = Ok storeA /\
    loadAllTemplatesWithExtras apiWithoutHook packaged None None = Ok storeB /\
    length (Composer.hooks
              (Composer.composeTemplatesInstr (updatedTags report addApi) storeA
                 (withConfig universalAndApi))) = 2 /\
    length (Composer.hooks
              (Composer.composeTemplatesInstr (updatedTags report addApi) storeB
                 (withConfig universalAndApi))) = 1.
Proof.
  eexists _, _, _. split_and!; vm_compute; reflexivity.
Qed.

(** C4, amended: the drift analysis composes twice over the same loaded
    templates, once for the current tags under the existing configuration
    and once for the proposed tags under the existing configuration with
    the proposed tags and the requested tier, and its [blockCountDelta]
    reports the number of instruction blocks before and after, for that
    one kind. *)
Theorem block_count_delta_counts_instruction_blocks (fs : FileSystem)
    (resolveTemplatesDir : Result string)
    (analyzeProject : string -> list Detection)
    (checkCompleteness : string -> list Tag -> Completeness)
    (projectDir : string) (config : ForgeCraftConfig) (args : RefreshArgs)
    (report : DriftReport) :
  analyzeDrift fs resolveTemplatesDir analyzeProject checkCompleteness
    projectDir config args = Ok report ->
  exists allTemplates,
    loadAllTemplatesWithExtras fs resolveTemplatesDir None (templateDirs config)
      = Ok allTemplates /\
    before (blockCountDelta report)
      = length (Composer.claudeMdBlocks
                  (Composer.composeTemplatesInstr (currentTags report)
                     allTemplates (withConfig config))) /\
    after (blockCountDelta report)
      = length (Composer.claudeMdBlocks
                  (Composer.composeTemplatesInstr (updatedTags report args)
                     allTemplates
                     (withConfig
                        (proposedConfig config (updatedTags report args)
                           (default (default recommended (tier config))
                              (arg_tier args)))))).
Proof.
  intros Hrun.
  by destruct (analyzeDrift_report _ _ _ _ _ _ _ _ Hrun) as (_ & _ & H).
Qed.

(** The amended C4 at a pass that adds [API] explicitly: one instruction
    block before, two after. *)
Lemma block_count_delta_counts_instruction_blocks_witness :
  exists report,
    analyzeDrift oneBlockEach packaged noDetections noChecks "proj"
      universalOnly addApi = Ok report /\
    blockCountDelta report = {| before := 1; after := 2 |} /\
    exists allTemplates,
      loadAllTemplatesWithExtras oneBlockEach packaged None
        (templateDirs universalOnly) = Ok allTemplates /\
      before (blockCountDelta report)
        = length (Composer.claudeMdBlocks
                    (Composer.composeTemplatesInstr (currentTags report)
                       allTemplates (withConfig universalOnly))) /\
      after (blockCountDelta report)
        = length (Composer.claudeMdBlocks
                    (Composer.composeTemplatesInstr (updatedTags report addApi)
                       allTemplates
                       (withConfig
                          (proposedConfig universalOnly (updatedTags report addApi)
                             (default (default recommended (tier universalOnly))
                                (arg_tier addApi)))))).
Proof.
  destruct (analyzeDrift oneBlockEach packaged noDetections noChecks "proj"
              universalOnly addApi) as [report|e] eqn:Hrun;
    [|vm_compute in Hrun; discriminate Hrun].
  exists report. split_and!.
  - reflexivity.
  - vm_compute in Hrun. by inversion Hrun.
  - apply (block_count_delta_counts_instruction_blocks oneBlockEach packaged
             noDetections noChecks "proj" universalOnly addApi report Hrun).
Defined.

End RefreshFacts.

(* ===================================================================== *)
(** ** More on the composer *)
(* ===================================================================== *)

Module ComposerMore.

Import Composer Samples Notions.

(** *** One dedup loop *)

Section forOf.

Context {B : Type} (key : B -> string) (accept : B -> bool).

Lemma pushUnseen_seen (acc : gset string * list B) (x : B) (i : string) :
  i ∈ fst (pushUnseen key accept acc x)
  <-> i ∈ fst acc \/ (accept x = true /\ key x = i).
Proof.
  unfold pushUnseen.
  destruct (bool_decide (key x ∉ fst acc)) eqn:Hfresh; simpl.
  - destruct (accept x) eqn:Ha; simpl; set_solver.
  - apply bool_decide_eq_false_1 in Hfresh.
    assert (key x ∈ fst acc) by (destruct (decide (key x ∈ fst acc)); tauto).
    split; [by left|]. intros [?|[_ <-]]; done.
Qed.

Lemma forOf_seen (xs : list B) (acc : gset string * list B) (i : string) :
  i ∈ fst (forOf key accept xs acc)
  <-> i ∈ fst acc \/ exists x, x ∈ xs /\ accept x = true /\ key x = i.
Proof.
  unfold forOf. revert acc.
  induction xs as [|y ys IH]; intros acc; simpl.
  - split; [by left|]. intros [?|(x & Hx & _)]; [done|by apply elem_of_nil in Hx].
  - rewrite IH, pushUnseen_seen. split.
    + intros [[?|[Ha Hk]]|(x & Hx & Ha & Hk)]; [by left| |].
      * right. exists y. split_and!; [left|done|done].
      * right. exists x. split_and!; [by right|done|done].
    + intros [?|(x & Hx & Ha & Hk)]; [by left; left|].
      apply elem_of_cons in Hx as [->|Hx]; [left; right; done|].
      right. by exists x.
Qed.

Lemma forOf_out (xs : list B) (acc : gset string * list B) (x : B) :
  x ∈ snd (forOf key accept xs acc) ->
  x ∈ snd acc \/ (x ∈ xs /\ accept x = true).
Proof.
  unfold forOf. revert acc.
  induction xs as [|y ys IH]; intros acc Hx; simpl in *; [by left|].
  apply IH in Hx as [Hx|[Hx Ha]]; [|right; split; [by right|done]].
  unfold pushUnseen in Hx.
  destruct (bool_decide (key y ∉ fst acc)); simpl in Hx; [|by left].
  destruct (accept y) eqn:Hy; simpl in Hx; [|by left].
  apply elem_of_app in Hx as [Hx|Hx]; [by left|].
  apply list_elem_of_singleton in Hx as ->. right. split; [left|done].
Qed.

Lemma forOf_appends (xs : list B) (acc : gset string * list B) :
  exists ys, snd (forOf key accept xs acc) = snd acc ++ ys /\ ys `sublist_of` xs.
Proof.
  unfold forOf. revert acc.
  induction xs as [|y rest IH]; intros acc; simpl.
  - exists []. by rewrite app_nil_r.
  - destruct (IH (pushUnseen key accept acc y)) as (ys & Heq & Hsub).
    rewrite Heq. unfold pushUnseen.
    destruct (bool_decide (key y ∉ fst acc) && accept y); simpl.
    + exists (y :: ys). rewrite <- app_assoc. split; [done|].
      by apply sublist_skip.
    + exists ys. split; [done|]. by apply sublist_cons.
Qed.

(** *** The loop over the tags, for one kind *)

Context (proj : TagTemplateSet -> option (list B))
        (allTemplates : gmap Tag TagTemplateSet).

Lemma kindLoop_tracked (tags : list Tag) (acc : gset string * list B) :
  tracked key acc -> tracked key (kindLoop key accept proj allTemplates tags acc).
Proof.
  unfold kindLoop. revert acc.
  induction tags as [|t ts IH]; intros acc Hacc; simpl; [done|].
  apply IH. repeat case_match; try done. by apply ComposerFacts.forOf_tracked.
Qed.

Lemma kindLoop_seen (tags : list Tag) (acc : gset string * list B) (i : string) :
  i ∈ fst (kindLoop key accept proj allTemplates tags acc)
  <-> i ∈ fst acc
      \/ exists x, carriedBy tags proj allTemplates x /\ accept x = true /\ key x = i.
Proof.
  unfold kindLoop. revert acc.
  induction tags as [|t ts IH]; intros acc; simpl.
  - split; [by left|].
    intros [?|(x & (tag & ? & ? & Ht & _) & _)]; [done|by apply elem_of_nil in Ht].
  - rewrite IH. split.
    + intros [Hi|(x & (tag & ts' & xs & Ht & Hget & Hproj & Hx) & Ha & Hk)].
      * destruct (allTemplates !! t) as [templateSet|] eqn:Hget; [|by left].
        destruct (proj templateSet) as [xs|] eqn:Hproj; [|by left].
        apply forOf_seen in Hi as [?|(x & Hx & Ha & Hk)]; [by left|].
        right. exists x. split_and!; [|done|done].
        exists t, templateSet, xs. split_and!; [left|done|done|done].
      * right. exists x. split_and!; [|done|done].
        exists tag, ts', xs. split_and!; [by right|done|done|done].
    + intros [Hi|(x & (tag & ts' & xs & Ht & Hget & Hproj & Hx) & Ha & Hk)].
      * left. repeat case_match; try done. apply forOf_seen. by left.
      * apply elem_of_cons in Ht as [->|Ht].
        -- left. rewrite Hget, Hproj. apply forOf_seen. right. by exists x.
        -- right. exists x. split_and!; [|done|done]. by exists tag, ts', xs.
Qed.

Lemma kindLoop_out (tags : list Tag) (acc : gset string * list B) (x : B) :
  x ∈ snd (kindLoop key accept proj allTemplates tags acc) ->
  x ∈ snd acc \/ (carriedBy tags proj allTemplates x /\ accept x = true).
Proof.
  unfold kindLoop. revert acc.
  induction tags as [|t ts IH]; intros acc Hx; simpl in *; [by left|].
  apply IH in Hx as [Hx|[(tag & ts' & xs & Ht & Hrest) Ha]].
  - destruct (allTemplates !! t) as [templateSet|] eqn:Hget; [|by left].
    destruct (proj templateSet) as [xs|] eqn:Hproj; [|by left].
    apply forOf_out in Hx as [Hx|[Hx Ha]]; [by left|].
    right. split; [|done]. exists t, templateSet, xs. split_and!; [left|done|done|done].
  - right. split; [|done]. exists tag, ts', xs. split; [by right|done].
Qed.

Lemma kindLoop_appends (tags : list Tag) (acc : gset string * list B) :
  exists ys, snd (kindLoop key accept proj allTemplates tags acc) = snd acc ++ ys
             /\ ys `sublist_of` itemsOf proj allTemplates tags.
Proof.
  unfold kindLoop, itemsOf. revert acc.
  induction tags as [|t ts IH]; intros acc; simpl.
  - exists []. by rewrite app_nil_r.
  - match goal with
    | |- context [foldl _ ?a ts] => destruct (IH a) as (ys & Heq & Hsub)
    end.
    rewrite Heq.
    destruct (allTemplates !! t) as [templateSet|] eqn:Hget; simpl.
    + destruct (proj templateSet) as [xs|] eqn:Hproj; simpl.
      * destruct (forOf_appends xs acc) as (zs & Hz & Hzsub).
        rewrite Hz. exists (zs ++ ys). rewrite <- app_assoc. split; [done|].
        by apply sublist_app.
      * exists ys. by split.
    + exists ys. by split.
Qed.

End forOf.

Lemma kindLoop_ext {B : Type} (key : B -> string) (accept : B -> bool)
    (proj : TagTemplateSet -> option (list B))
    (store1 store2 : gmap Tag TagTemplateSet) (tags : list Tag)
    (acc : gset string * list B) :
  (forall t, t ∈ tags -> store1 !! t = store2 !! t) ->
  kindLoop key accept proj store1 tags acc
  = kindLoop key accept proj store2 tags acc.
Proof.
  unfold kindLoop. revert acc.
  induction tags as [|t ts IH]; intros acc Hagree; simpl; [done|].
  rewrite (Hagree t) by left. apply IH. intros u Hu. apply Hagree. by right.
Qed.

(** *** [composeTemplates], kind by kind *)

Section compose.

Variable instrSource : TagTemplateSet -> option InstructionTemplate.

Lemma composeLoop_kinds allTemplates allowedTiers includeList excludeList
    orderedTags st :
  let st' := composeLoop instrSource allTemplates allowedTiers includeList
               excludeList orderedTags st in
  let gate (t : option ContentTier) (i : string) :=
    isTierAllowed t allowedTiers && isBlockAllowed i includeList excludeList in
  accBlocks st'
    = kindLoop block_id (fun b => gate (block_tier b) (block_id b))
        (fun ts => instr_blocks <$> instrSource ts) allTemplates orderedTags
        (accBlocks st) /\
  accPaths st'
    = kindLoop entry_path (fun _ => true) entriesOf allTemplates orderedTags
        (accPaths st) /\
  accNfr st'
    = kindLoop nfr_id (fun b => gate (nfr_tier b) (nfr_id b)) nfrBlocksOf
        allTemplates orderedTags (accNfr st) /\
  accHooks st'
    = kindLoop hook_name (fun _ => true) hooksOf allTemplates orderedTags
        (accHooks st) /\
  accReview st'
    = kindLoop review_id (fun b => gate (review_tier b) (review_id b))
        reviewBlocksOf allTemplates orderedTags (accReview st).
Proof.
  unfold composeLoop, kindLoop, entriesOf, nfrBlocksOf, hooksOf, reviewBlocksOf.
  simpl. revert st.
  induction orderedTags as [|t ts IH]; intros st; simpl; [done|].
  destruct (allTemplates !! t) as [templateSet|]; [|apply IH].
  destruct (IH (composeTag instrSource allowedTiers includeList excludeList
                  st templateSet)) as (Hb & Hp & Hn & Hh & Hr).
  rewrite Hb, Hp, Hn, Hh, Hr. simpl.
  split_and!; f_equal; by case_match.
Qed.

(** The five arrays of the result, each as the outcome of its own loop. *)
Lemma composeWith_kinds activeTags allTemplates options :
  let out := composeWith instrSource activeTags allTemplates options in
  let tags := normalizeTagOrder activeTags in
  claudeMdBlocks out
    = snd (kindLoop block_id
             (fun b => passesGates options (block_tier b) (block_id b))
             (fun ts => instr_blocks <$> instrSource ts) allTemplates tags (∅, [])) /\
  structureEntries out
    = snd (kindLoop entry_path (fun _ => true) entriesOf allTemplates tags (∅, [])) /\
  nfrBlocks out
    = snd (kindLoop nfr_id
             (fun b => passesGates options (nfr_tier b) (nfr_id b))
             nfrBlocksOf allTemplates tags (∅, [])) /\
  hooks out
    = snd (kindLoop hook_name (fun _ => true) hooksOf allTemplates tags (∅, [])) /\
  reviewBlocks out
    = snd (kindLoop review_id
             (fun b => passesGates options (review_tier b) (review_id b))
             reviewBlocksOf allTemplates tags (∅, [])).
Proof.
  unfold composeWith. simpl.
  match goal with
  | |- context [composeLoop ?i ?a ?t ?inc ?exc ?tags ?st] =>
      destruct (composeLoop_kinds a t inc exc tags st) as (Hb & Hp & Hn & Hh & Hr)
  end.
  rewrite Hb, Hp, Hn, Hh, Hr. by split_and!.
Qed.

End compose.

Lemma empty_tracked {B : Type} (key : B -> string) :
  tracked key ((∅, []) : gset string * list B).
Proof. split; simpl; [set_solver|apply NoDup_nil_2]. Qed.

(** The identities of one kind of output: those of the accepted fragments
    the store carries for the tags. *)
Lemma kindLoop_ids {B : Type} (key : B -> string) (accept : B -> bool)
    (proj : TagTemplateSet -> option (list B))
    (allTemplates : gmap Tag TagTemplateSet) (tags : list Tag) (i : string) :
  i ∈ key <$> snd (kindLoop key accept proj allTemplates tags (∅, []))
  <-> exists x, carriedBy tags proj allTemplates x /\ accept x = true /\ key x = i.
Proof.
  destruct (kindLoop_tracked key accept proj allTemplates tags (∅, [])
              (empty_tracked key)) as [Hseen _].
  rewrite <- (elem_of_list_to_set (C := gset string)), <- Hseen, kindLoop_seen.
  simpl. set_solver.
Qed.

Lemma carriedBy_same_tags {B : Type} (tags1 tags2 : list Tag)
    (proj : TagTemplateSet -> option (list B))
    (allTemplates : gmap Tag TagTemplateSet) (x : B) :
  (forall t, t ∈ tags1 -> t ∈ tags2) ->
  carriedBy tags1 proj allTemplates x -> carriedBy tags2 proj allTemplates x.
Proof.
  intros Hsub (tag & ts & xs & Ht & Hrest). exists tag, ts, xs. split; auto.
Qed.

Lemma kindLoop_same_ids {B : Type} (key : B -> string) (accept : B -> bool)
    (proj : TagTemplateSet -> option (list B))
    (allTemplates : gmap Tag TagTemplateSet) (tags1 tags2 : list Tag) :
  (forall t, t ∈ tags1 <-> t ∈ tags2) ->
  key <$> snd (kindLoop key accept proj allTemplates tags1 (∅, []))
  ≡ₚ key <$> snd (kindLoop key accept proj allTemplates tags2 (∅, [])).
Proof.
  intros Hsame. apply NoDup_Permutation.
  - apply (kindLoop_tracked key accept proj allTemplates tags1 (∅, [])
             (empty_tracked key)).
  - apply (kindLoop_tracked key accept proj allTemplates tags2 (∅, [])
             (empty_tracked key)).
  - intros i. rewrite !kindLoop_ids.
    split; intros (x & Hc & Ha & Hk); exists x; split_and!; try done;
      (eapply carriedBy_same_tags; [|exact Hc]); intros t; apply Hsame.
Qed.

(** *** [normalizeTagOrder] *)

(** The loop of [normalizeTagOrder], from a [seen] set that holds the tags
    of [result]. *)
Lemma normalize_loop (tags : list Tag) (seen : gset Tag) (result : list Tag) :
  seen = list_to_set result -> NoDup result ->
  exists ys,
    snd (foldl (fun '(seen, result) tag =>
                  if bool_decide (tag ∈ seen) then (seen, result)
                  else ({[ tag ]} ∪ seen, result ++ [tag]))
               (seen, result) tags) = result ++ ys
    /\ ys `sublist_of` tags
    /\ NoDup (result ++ ys)
    /\ (forall t, t ∈ result ++ ys <-> t ∈ result \/ t ∈ tags).
Proof.
  revert seen result.
  induction tags as [|t ts IH]; intros seen result Hseen Hnodup; simpl.
  - exists []. rewrite app_nil_r. split_and!; [done|done|done|].
    intros u. split; [by left|]. intros [?|Hu]; [done|by apply elem_of_nil in Hu].
  - case_bool_decide as Hin.
    + destruct (IH seen result Hseen Hnodup) as (ys & Heq & Hsub & Hnd & Hel).
      exists ys. split_and!; [done|by apply sublist_cons|done|].
      intros u. rewrite Hel, elem_of_cons.
      split; [tauto|]. intros [?|[->|?]]; [tauto| |tauto].
      left. rewrite Hseen in Hin. by apply elem_of_list_to_set in Hin.
    + assert (t ∉ result) as Hfresh.
      { intros Ht. apply Hin. rewrite Hseen. by apply elem_of_list_to_set. }
      destruct (IH ({[t]} ∪ seen) (result ++ [t])) as (ys & Heq & Hsub & Hnd & Hel).
      { rewrite Hseen, list_to_set_app_L. simpl. set_solver. }
      { apply NoDup_app. split_and!; [done| |apply NoDup_singleton].
        intros u Hu Hu'. apply list_elem_of_singleton in Hu' as ->. done. }
      exists (t :: ys). rewrite Heq, <- app_assoc. simpl.
      rewrite <- app_assoc in Hnd. simpl in Hnd.
      split_and!; [done|by apply sublist_skip|done|].
      intros u. specialize (Hel u). rewrite <- app_assoc in Hel. simpl in Hel.
      rewrite Hel, elem_of_app, list_elem_of_singleton, elem_of_cons. tauto.
Qed.

Lemma normalizeTagOrder_spec (tags : list Tag) :
  NoDup (normalizeTagOrder tags) /\
  (forall t, t ∈ normalizeTagOrder tags <-> t = UNIVERSAL \/ t ∈ tags) /\
  normalizeTagOrder tags `sublist_of` UNIVERSAL :: tags.
Proof.
  unfold normalizeTagOrder. case_bool_decide as Hu.
  - destruct (normalize_loop tags ∅ []) as (ys & Heq & Hsub & Hnd & Hel);
      [set_solver|apply NoDup_nil_2|].
    rewrite Heq. simpl in *. split_and!; [done| |by apply sublist_cons].
    intros t. rewrite Hel. split; [intros [H|H]; [by apply elem_of_nil in H|by right]|].
    intros [->|?]; by right.
  - destruct (normalize_loop tags {[UNIVERSAL]} [UNIVERSAL])
      as (ys & Heq & Hsub & Hnd & Hel); [set_solver|apply NoDup_singleton|].
    rewrite Heq. simpl in *. split_and!; [done| |by apply sublist_skip].
    intros t. rewrite Hel, list_elem_of_singleton. tauto.
Qed.

(** On a list without repetition, started from a [seen] set that holds none
    of its tags, the loop appends the whole list. *)
Lemma normalize_loop_fresh (tags : list Tag) (seen : gset Tag) (result : list Tag) :
  NoDup tags -> (forall t, t ∈ tags -> t ∉ seen) ->
  snd (foldl (fun '(seen, result) tag =>
                if bool_decide (tag ∈ seen) then (seen, result)
                else ({[ tag ]} ∪ seen, result ++ [tag]))
             (seen, result) tags) = result ++ tags.
Proof.
  revert seen result.
  induction tags as [|t ts IH]; intros seen result Hnd Hfresh; simpl.
  - by rewrite app_nil_r.
  - apply NoDup_cons in Hnd as [Ht Hnd].
    rewrite bool_decide_eq_false_2 by (apply Hfresh; left).
    rewrite IH, <- app_assoc; [done|done|].
    intros u Hu. specialize (Hfresh u ltac:(by right)).
    assert (u <> t) by (intros ->; done). set_solver.
Qed.

Lemma normalizeTagOrder_fixed (tags : list Tag) :
  NoDup tags -> UNIVERSAL ∈ tags -> normalizeTagOrder tags = tags.
Proof.
  intros Hnd Hu. unfold normalizeTagOrder.
  rewrite bool_decide_eq_true_2 by done.
  rewrite normalize_loop_fresh; [done|done|set_solver].
Qed.

Lemma normalizeTagOrder_idem (tags : list Tag) :
  normalizeTagOrder (normalizeTagOrder tags) = normalizeTagOrder tags.
Proof.
  destruct (normalizeTagOrder_spec tags) as (Hnd & Hel & _).
  apply normalizeTagOrder_fixed; [done|]. apply Hel. by left.
Qed.

Lemma normalizeTagOrder_universal_first (tags : list Tag) :
  UNIVERSAL ∉ tags \/ head tags = Some UNIVERSAL ->
  exists rest, normalizeTagOrder tags = UNIVERSAL :: rest.
Proof.
  intros [Hnot|Hhead].
  - pose proof (ComposerFacts.normalizeTagOrder_absent tags Hnot) as H.
    destruct (normalizeTagOrder tags) as [|t rest]; [discriminate H|].
    injection H as ->. by exists rest.
  - destruct tags as [|t ts]; [discriminate Hhead|]. injection Hhead as ->.
    destruct (ComposerFacts.normalizeTagOrder_first ts) as [_ H].
    destruct (normalizeTagOrder (UNIVERSAL :: ts)) as [|t rest]; [discriminate H|].
    injection H as ->. by exists rest.
Qed.

(** *** What the composed output holds *)

Lemma isBlockAllowed_true (blockId : string) (inc exc : option (list string)) :
  isBlockAllowed blockId inc exc = true ->
  (forall ex, exc = Some ex -> blockId ∉ ex) /\
  (forall l, inc = Some l -> l <> [] -> blockId ∈ l).
Proof.
  unfold isBlockAllowed. intros H. split.
  - intros ex ->. case_bool_decide; [discriminate H|done].
  - intros l -> Hne.
    destruct (match exc with Some ex => bool_decide (blockId ∈ ex) | None => false end);
      [discriminate H|].
    case_bool_decide as Hlen.
    + by apply bool_decide_eq_true_1 in H.
    + destruct l; [done|]. simpl in Hlen. lia.
Qed.

(** Every composed instruction, NFR and review block passed the tier check
    and the include/exclude check. *)
Lemma composed_blocks_pass (activeTags : list Tag)
    (allTemplates : gmap Tag TagTemplateSet) (options : option ComposeOptions) :
  let out := composeTemplates activeTags allTemplates options in
  (forall b, b ∈ claudeMdBlocks out ->
     passesGates options (block_tier b) (block_id b) = true) /\
  (forall b, b ∈ nfrBlocks out ->
     passesGates options (nfr_tier b) (nfr_id b) = true) /\
  (forall b, b ∈ reviewBlocks out ->
     passesGates options (review_tier b) (review_id b) = true).
Proof.
  destruct (composeWith_kinds claudeMd activeTags allTemplates options)
    as (Hb & _ & Hn & _ & Hr).
  cbv zeta. unfold composeTemplates. rewrite Hb, Hn, Hr.
  split_and!; intros b Hin; apply kindLoop_out in Hin as [Hin|[_ Hin]];
    try done; by apply elem_of_nil in Hin.
Qed.

(** X1: an excluded id is never composed: whatever the include list says, no
    composed instruction, NFR or review block bears an id of the exclude
    list. *)
Theorem excluded_ids_are_absent (activeTags : list Tag)
    (allTemplates : gmap Tag TagTemplateSet) (options : option ComposeOptions)
    (ex : list string) (i : string) :
  excludeOf options = Some ex -> i ∈ ex ->
  let out := composeTemplates activeTags allTemplates options in
  (i ∉ block_id <$> claudeMdBlocks out) /\
  (i ∉ nfr_id <$> nfrBlocks out) /\
  (i ∉ review_id <$> reviewBlocks out).
Proof.
  intros Hex Hi.
  destruct (composed_blocks_pass activeTags allTemplates options)
    as (Hb & Hn & Hr).
  cbv zeta. split_and!; intros Hin; apply list_elem_of_fmap in Hin as (b & -> & Hin);
    [apply Hb in Hin|apply Hn in Hin|apply Hr in Hin];
    apply andb_true_iff in Hin as [_ Hin];
    apply isBlockAllowed_true in Hin as [Hin _]; by apply (Hin ex).
Qed.

Lemma excluded_ids_are_absent_witness :
  excludeOf (includeExclude (Some ["a"; "b"]%string) (Some ["b"%string]))
    = Some ["b"%string] /\
  "b"%string ∈ ["b"%string] /\
  ("b"%string ∉ block_id <$> claudeMdBlocks
      (composeTemplates [UNIVERSAL] abStore
         (includeExclude (Some ["a"; "b"]%string) (Some ["b"%string])))).
Proof.
  split_and!; [reflexivity|left|].
  apply (excluded_ids_are_absent [UNIVERSAL] abStore
           (includeExclude (Some ["a"; "b"]%string) (Some ["b"%string]))
           ["b"%string] "b"%string); [reflexivity|left].
Defined.

(** X2: a non-empty include list is a whitelist: every composed instruction,
    NFR and review block bears an id of the list. *)
Theorem included_ids_only (activeTags : list Tag)
    (allTemplates : gmap Tag TagTemplateSet) (options : option ComposeOptions)
    (inc : list string) :
  includeOf options = Some inc -> inc <> [] ->
  let out := composeTemplates activeTags allTemplates options in
  (forall b, b ∈ claudeMdBlocks out -> block_id b ∈ inc) /\
  (forall b, b ∈ nfrBlocks out -> nfr_id b ∈ inc) /\
  (forall b, b ∈ reviewBlocks out -> review_id b ∈ inc).
Proof.
  intros Hinc Hne.
  destruct (composed_blocks_pass activeTags allTemplates options)
    as (Hb & Hn & Hr).
  cbv zeta. split_and!; intros b Hin;
    [apply Hb in Hin|apply Hn in Hin|apply Hr in Hin];
    apply andb_true_iff in Hin as [_ Hin];
    apply isBlockAllowed_true in Hin as [_ Hin]; by apply Hin.
Qed.

Lemma included_ids_only_witness :
  includeOf (includeExclude (Some ["a"%string]) None) = Some ["a"%string] /\
  ["a"%string] <> [] /\
  forall b, b ∈ claudeMdBlocks
                  (composeTemplates [UNIVERSAL] abStore
                     (includeExclude (Some ["a"%string]) None)) ->
            block_id b ∈ ["a"%string].
Proof.
  split_and!; [reflexivity|discriminate|].
  apply (included_ids_only [UNIVERSAL] abStore
           (includeExclude (Some ["a"%string]) None) ["a"%string]);
    [reflexivity|discriminate].
Defined.

(** X3: the tier filter: the effective tier of every composed instruction, NFR
    and review block, [core] where the block names none, is one that the
    requested tier includes. *)
Theorem composed_tiers_are_allowed (activeTags : list Tag)
    (allTemplates : gmap Tag TagTemplateSet) (options : option ComposeOptions) :
  let out := composeTemplates activeTags allTemplates options in
  let allowed := TIER_HIERARCHY (tierOf options) in
  (forall b, b ∈ claudeMdBlocks out -> default core (block_tier b) ∈ allowed) /\
  (forall b, b ∈ nfrBlocks out -> default core (nfr_tier b) ∈ allowed) /\
  (forall b, b ∈ reviewBlocks out -> default core (review_tier b) ∈ allowed).
Proof.
  destruct (composed_blocks_pass activeTags allTemplates options)
    as (Hb & Hn & Hr).
  cbv zeta. split_and!; intros b Hin;
    [apply Hb in Hin|apply Hn in Hin|apply Hr in Hin];
    apply andb_true_iff in Hin as [Hin _];
    by apply bool_decide_eq_true_1 in Hin.
Qed.

(** X4: which identities are composed: an id (path, name) is in the output of
    a kind exactly when the store carries, for [UNIVERSAL] or one of the
    requested tags, a fragment of that kind with this id that passes the
    checks of the kind.  Hooks and structure entries have no check. *)
Theorem composed_ids (activeTags : list Tag)
    (allTemplates : gmap Tag TagTemplateSet) (options : option ComposeOptions)
    (i : string) :
  let out := composeTemplates activeTags allTemplates options in
  let tags := UNIVERSAL :: activeTags in
  (i ∈ block_id <$> claudeMdBlocks out <->
   exists b, carriedBy tags blocksOf allTemplates b /\
             passesGates options (block_tier b) (block_id b) = true /\
             block_id b = i) /\
  (i ∈ entry_path <$> structureEntries out <->
   exists e, carriedBy tags entriesOf allTemplates e /\ entry_path e = i) /\
  (i ∈ nfr_id <$> nfrBlocks out <->
   exists b, carriedBy tags nfrBlocksOf allTemplates b /\
             passesGates options (nfr_tier b) (nfr_id b) = true /\
             nfr_id b = i) /\
  (i ∈ hook_name <$> hooks out <->
   exists h, carriedBy tags hooksOf allTemplates h /\ hook_name h = i) /\
  (i ∈ review_id <$> reviewBlocks out <->
   exists b, carriedBy tags reviewBlocksOf allTemplates b /\
             passesGates options (review_tier b) (review_id b) = true /\
             review_id b = i).
Proof.
  destruct (composeWith_kinds claudeMd activeTags allTemplates options)
    as (Hb & Hp & Hn & Hh & Hr).
  destruct (normalizeTagOrder_spec activeTags) as (_ & Hel & _).
  assert (forall B (proj : TagTemplateSet -> option (list B)) (x : B),
            carriedBy (normalizeTagOrder activeTags) proj allTemplates x
            <-> carriedBy (UNIVERSAL :: activeTags) proj allTemplates x) as Hc.
  { intros B proj x. split; apply carriedBy_same_tags; intros t;
      rewrite Hel, elem_of_cons; tauto. }
  cbv zeta. unfold composeTemplates. rewrite Hb, Hp, Hn, Hh, Hr, !kindLoop_ids.
  split_and!; split; intros (x & Hx & Hrest); exists x;
    (split; [by apply Hc|]); tauto.
Qed.

Lemma carriedBy_universal {B : Type}
    (proj : TagTemplateSet -> option (list B))
    (allTemplates : gmap Tag TagTemplateSet) (x : B) :
  carriedBy [UNIVERSAL] proj allTemplates x
  <-> x ∈ universalItems proj allTemplates.
Proof.
  unfold carriedBy, universalItems. split.
  - intros (tag & ts & xs & Ht & Hget & Hproj & Hx).
    apply list_elem_of_singleton in Ht as ->. rewrite Hget. simpl.
    by rewrite Hproj.
  - intros Hx. destruct (allTemplates !! UNIVERSAL) as [ts|] eqn:Hget;
      simpl in Hx; [|by apply elem_of_nil in Hx].
    destruct (proj ts) as [xs|] eqn:Hproj; simpl in Hx;
      [|by apply elem_of_nil in Hx].
    exists UNIVERSAL, ts, xs. split_and!; [left|done|done|done].
Qed.

Lemma itemsOf_universal {B : Type}
    (proj : TagTemplateSet -> option (list B))
    (allTemplates : gmap Tag TagTemplateSet) :
  itemsOf proj allTemplates [UNIVERSAL] = universalItems proj allTemplates.
Proof. unfold itemsOf, universalItems. simpl. by rewrite app_nil_r. Qed.

(** C10: for the empty tag list the composition is that of [UNIVERSAL],
    and it is filled from the store, not empty by construction.  The list
    is normalized to the one that holds only [UNIVERSAL]; the output is the
    output for that list; an id (path, name) is in the output of a kind
    exactly when the store carries for [UNIVERSAL] a fragment of the kind
    with this id that passes the checks of the kind; and each array of the
    output is a selection, in order, from these fragments of
    [UNIVERSAL]. *)
Theorem compose_empty_tag_list (allTemplates : gmap Tag TagTemplateSet)
    (options : option ComposeOptions) :
  let out := composeTemplates [] allTemplates options in
  normalizeTagOrder [] = [UNIVERSAL] /\
  out = composeTemplates [UNIVERSAL] allTemplates options /\
  (forall i,
     (i ∈ block_id <$> claudeMdBlocks out <->
      exists b, b ∈ universalItems blocksOf allTemplates /\
                passesGates options (block_tier b) (block_id b) = true /\
                block_id b = i) /\
     (i ∈ entry_path <$> structureEntries out <->
      exists e, e ∈ universalItems entriesOf allTemplates /\ entry_path e = i) /\
     (i ∈ nfr_id <$> nfrBlocks out <->
      exists b, b ∈ universalItems nfrBlocksOf allTemplates /\
                passesGates options (nfr_tier b) (nfr_id b) = true /\
                nfr_id b = i) /\
     (i ∈ hook_name <$> hooks out <->
      exists h, h ∈ universalItems hooksOf allTemplates /\ hook_name h = i) /\
     (i ∈ review_id <$> reviewBlocks out <->
      exists b, b ∈ universalItems reviewBlocksOf allTemplates /\
                passesGates options (review_tier b) (review_id b) = true /\
                review_id b = i)) /\
  (claudeMdBlocks out `sublist_of` universalItems blocksOf allTemplates /\
   structureEntries out `sublist_of` universalItems entriesOf allTemplates /\
   nfrBlocks out `sublist_of` universalItems nfrBlocksOf allTemplates /\
   hooks out `sublist_of` universalItems hooksOf allTemplates /\
   reviewBlocks out `sublist_of` universalItems reviewBlocksOf allTemplates).
Proof.
  assert (H0 : normalizeTagOrder [] = [UNIVERSAL]) by (vm_compute; reflexivity).
  assert (H1 : normalizeTagOrder [UNIVERSAL] = [UNIVERSAL]) by (vm_compute; reflexivity).
  cbv zeta. split; [exact H0|].
  split; [unfold composeTemplates, composeWith; by rewrite H0, H1|].
  destruct (composeWith_kinds claudeMd [] allTemplates options)
    as (Hb & Hp & Hn & Hh & Hr).
  cbv zeta in Hb, Hp, Hn, Hh, Hr. rewrite H0 in Hb, Hp, Hn, Hh, Hr.
  unfold composeTemplates. rewrite Hb, Hp, Hn, Hh, Hr. split.
  - intros i. rewrite !kindLoop_ids.
    split_and!; split; intros (x & Hx & Hrest); exists x;
      (split; [by apply carriedBy_universal|]); try done; tauto.
  - split_and!;
      match goal with
      | |- snd (kindLoop ?k ?a ?p ?s ?t ?acc) `sublist_of` _ =>
          destruct (kindLoop_appends k a p s t acc) as (ys & -> & Hsub);
          rewrite itemsOf_universal in Hsub
      end; done.
Qed.

Lemma composeWith_sameIds (instrSource : TagTemplateSet -> option InstructionTemplate)
    (tags1 tags2 : list Tag) (allTemplates : gmap Tag TagTemplateSet)
    (options : option ComposeOptions) :
  (forall t, t ∈ UNIVERSAL :: tags1 <-> t ∈ UNIVERSAL :: tags2) ->
  sameIds (composeWith instrSource tags1 allTemplates options)
          (composeWith instrSource tags2 allTemplates options).
Proof.
  intros Hsame.
  destruct (composeWith_kinds instrSource tags1 allTemplates options)
    as (Hb1 & Hp1 & Hn1 & Hh1 & Hr1).
  destruct (composeWith_kinds instrSource tags2 allTemplates options)
    as (Hb2 & Hp2 & Hn2 & Hh2 & Hr2).
  assert (forall t, t ∈ normalizeTagOrder tags1 <-> t ∈ normalizeTagOrder tags2) as Hn.
  { intros t.
    destruct (normalizeTagOrder_spec tags1) as (_ & H1 & _).
    destruct (normalizeTagOrder_spec tags2) as (_ & H2 & _).
    rewrite H1, H2. specialize (Hsame t). rewrite !elem_of_cons in Hsame. tauto. }
  unfold sameIds. rewrite Hb1, Hp1, Hn1, Hh1, Hr1, Hb2, Hp2, Hn2, Hh2, Hr2.
  split_and!; by apply kindLoop_same_ids.
Qed.

(** X5: the order of the requested tags decides the order of the output and
    which of two fragments with one id is kept, never which identities are
    composed nor how many: two requests that name the same tags, [UNIVERSAL]
    counted in, give outputs with the same ids, kind by kind. *)
Theorem tag_order_keeps_ids (instrSource : TagTemplateSet -> option InstructionTemplate)
    (tags1 tags2 : list Tag) (allTemplates : gmap Tag TagTemplateSet)
    (options : option ComposeOptions) :
  (forall t, t ∈ UNIVERSAL :: tags1 <-> t ∈ UNIVERSAL :: tags2) ->
  sameIds (composeWith instrSource tags1 allTemplates options)
          (composeWith instrSource tags2 allTemplates options).
Proof. apply composeWith_sameIds. Qed.

Lemma tag_order_keeps_ids_witness :
  (forall t, t ∈ UNIVERSAL :: [API; UNIVERSAL] <-> t ∈ UNIVERSAL :: [API]) /\
  sameIds (composeWith claudeMd [API; UNIVERSAL] twoTagStore None)
          (composeWith claudeMd [API] twoTagStore None).
Proof.
  assert (forall t, t ∈ UNIVERSAL :: [API; UNIVERSAL] <-> t ∈ UNIVERSAL :: [API]) as H.
  { intros t. rewrite !elem_of_cons. tauto. }
  split; [exact H|].
  exact (tag_order_keeps_ids claudeMd [API; UNIVERSAL] [API] twoTagStore None H).
Defined.

(** X6: the output keeps the order of the store: each of its arrays is a
    selection, in order, from the fragments that the store carries for the
    normalized tags, tag after tag.  Nothing is sorted or moved. *)
Theorem composed_order_is_store_order (activeTags : list Tag)
    (allTemplates : gmap Tag TagTemplateSet) (options : option ComposeOptions) :
  let out := composeTemplates activeTags allTemplates options in
  let tags := normalizeTagOrder activeTags in
  claudeMdBlocks out `sublist_of` itemsOf blocksOf allTemplates tags /\
  structureEntries out `sublist_of` itemsOf entriesOf allTemplates tags /\
  nfrBlocks out `sublist_of` itemsOf nfrBlocksOf allTemplates tags /\
  hooks out `sublist_of` itemsOf hooksOf allTemplates tags /\
  reviewBlocks out `sublist_of` itemsOf reviewBlocksOf allTemplates tags.
Proof.
  destruct (composeWith_kinds claudeMd activeTags allTemplates options)
    as (Hb & Hp & Hn & Hh & Hr).
  cbv zeta. unfold composeTemplates. rewrite Hb, Hp, Hn, Hh, Hr.
  split_and!;
    match goal with
    | |- snd (kindLoop ?k ?a ?p ?s ?t ?acc) `sublist_of` _ =>
        destruct (kindLoop_appends k a p s t acc) as (ys & -> & Hsub)
    end; done.
Qed.

(** X7: the normalized tag list has no repetition, holds [UNIVERSAL] and the
    requested tags and nothing else, and is a subsequence of [UNIVERSAL]
    followed by the request. *)
Theorem normalized_tags (tags : list Tag) :
  NoDup (normalizeTagOrder tags) /\
  (forall t, t ∈ normalizeTagOrder tags <-> t = UNIVERSAL \/ t ∈ tags) /\
  normalizeTagOrder tags `sublist_of` UNIVERSAL :: tags.
Proof. apply normalizeTagOrder_spec. Qed.

(** Normalizing is idempotent, so a caller may pass an already normalized
    list, or one with repeated tags, and get the same composition. *)
Theorem compose_normalized (activeTags : list Tag)
    (allTemplates : gmap Tag TagTemplateSet) (options : option ComposeOptions) :
  normalizeTagOrder (normalizeTagOrder activeTags) = normalizeTagOrder activeTags /\
  composeTemplates (normalizeTagOrder activeTags) allTemplates options
  = composeTemplates activeTags allTemplates options.
Proof.
  pose proof (normalizeTagOrder_idem activeTags) as H. split; [exact H|].
  unfold composeTemplates, composeWith. by rewrite H.
Qed.

Lemma kindLoop_cons {B : Type} (key : B -> string) (accept : B -> bool)
    (proj : TagTemplateSet -> option (list B))
    (allTemplates : gmap Tag TagTemplateSet) (t : Tag) (rest : list Tag)
    (acc : gset string * list B) :
  snd (kindLoop key accept proj allTemplates [t] acc)
    `prefix_of` snd (kindLoop key accept proj allTemplates (t :: rest) acc).
Proof.
  unfold kindLoop at 2. simpl.
  change (foldl _ ?a rest) with
    (kindLoop key accept proj allTemplates rest a).
  destruct (kindLoop_appends key accept proj allTemplates rest
              (kindLoop key accept proj allTemplates [t] acc)) as (ys & Heq & _).
  unfold kindLoop at 2 in Heq. simpl in Heq. rewrite Heq.
  by apply prefix_app_r.
Qed.

(** X8: when the caller omits [UNIVERSAL] or lists it first, every array of the
    output opens with what [UNIVERSAL] alone composes to. *)
Theorem universal_fragments_first (activeTags : list Tag)
    (allTemplates : gmap Tag TagTemplateSet) (options : option ComposeOptions) :
  UNIVERSAL ∉ activeTags \/ head activeTags = Some UNIVERSAL ->
  startsWith (composeTemplates [UNIVERSAL] allTemplates options)
             (composeTemplates activeTags allTemplates options).
Proof.
  intros Hfirst.
  destruct (normalizeTagOrder_universal_first activeTags Hfirst) as [rest Hrest].
  assert (normalizeTagOrder [UNIVERSAL] = [UNIVERSAL]) as Hone
    by (vm_compute; reflexivity).
  destruct (composeWith_kinds claudeMd activeTags allTemplates options)
    as (Hb & Hp & Hn & Hh & Hr).
  destruct (composeWith_kinds claudeMd [UNIVERSAL] allTemplates options)
    as (Hb1 & Hp1 & Hn1 & Hh1 & Hr1).
  unfold startsWith, composeTemplates.
  rewrite Hb, Hp, Hn, Hh, Hr, Hb1, Hp1, Hn1, Hh1, Hr1, Hrest, Hone.
  split_and!; apply kindLoop_cons.
Qed.

Lemma universal_fragments_first_witness :
  (UNIVERSAL ∉ [API] \/ head [API] = Some UNIVERSAL) /\
  startsWith (composeTemplates [UNIVERSAL] twoTagStore None)
             (composeTemplates [API] twoTagStore None).
Proof.
  assert (UNIVERSAL ∉ [API]) as H.
  { intros Hin. apply list_elem_of_singleton in Hin. discriminate Hin. }
  split; [by left|].
  apply (universal_fragments_first [API] twoTagStore None). by left.
Defined.

Lemma composeLoop_ext (instrSource : TagTemplateSet -> option InstructionTemplate)
    (store1 store2 : gmap Tag TagTemplateSet) allowedTiers includeList
    excludeList (tags : list Tag) (st : ComposeState) :
  (forall t, t ∈ tags -> store1 !! t = store2 !! t) ->
  composeLoop instrSource store1 allowedTiers includeList excludeList tags st
  = composeLoop instrSource store2 allowedTiers includeList excludeList tags st.
Proof.
  unfold composeLoop. revert st.
  induction tags as [|t ts IH]; intros st Hagree; simpl; [done|].
  rewrite (Hagree t) by left. apply IH. intros u Hu. apply Hagree. by right.
Qed.

(** X9: the composition reads the store at [UNIVERSAL] and at the requested
    tags only: two stores that agree there give the same output, so a tag
    without a template set contributes nothing and no other tag leaks
    in. *)
Theorem compose_reads_requested_tags (activeTags : list Tag)
    (store1 store2 : gmap Tag TagTemplateSet) (options : option ComposeOptions) :
  (forall t, t ∈ UNIVERSAL :: activeTags -> store1 !! t = store2 !! t) ->
  composeTemplates activeTags store1 options
  = composeTemplates activeTags store2 options.
Proof.
  intros Hagree. unfold composeTemplates, composeWith.
  rewrite (composeLoop_ext claudeMd store1 store2); [done|].
  intros t Ht. apply Hagree.
  destruct (normalizeTagOrder_spec activeTags) as (_ & Hel & _).
  apply Hel in Ht. rewrite elem_of_cons. tauto.
Qed.

Lemma compose_reads_requested_tags_witness :
  (forall t, t ∈ UNIVERSAL :: [UNIVERSAL] ->
             twoTagStore !! t = delete API twoTagStore !! t) /\
  composeTemplates [UNIVERSAL] twoTagStore None
  = composeTemplates [UNIVERSAL] (delete API twoTagStore) None.
Proof.
  assert (forall t, t ∈ UNIVERSAL :: [UNIVERSAL] ->
                    twoTagStore !! t = delete API twoTagStore !! t) as H.
  { intros t Ht. rewrite lookup_delete_ne; [done|].
    intros <-. rewrite !elem_of_cons in Ht.
    destruct Ht as [Ht|[Ht|Ht]]; [discriminate Ht|discriminate Ht|].
    by apply elem_of_nil in Ht. }
  split; [exact H|].
  exact (compose_reads_requested_tags [UNIVERSAL] twoTagStore
           (delete API twoTagStore) None H).
Defined.

End ComposerMore.

(* ===================================================================== *)
(** ** More on the loader *)
(* ===================================================================== *)

Module LoaderMore.

Import Loader Samples Notions.

(** *** Directory names *)


(** *** One tag directory *)

Lemma loadTagTemplateSet_parsable (tag : Tag) (tagDir : string) (d : TagDir) :
  readsUnparsableFile d = false ->
  loadTagTemplateSet tag tagDir d = Ok (describedSet tag d).
Proof.
  destruct d as [i c n s h r].
  unfold readsUnparsableFile, loadTagTemplateSet, describedSet. simpl.
  destruct i as [[?| |?]|]; simpl; try discriminate;
    destruct c as [[?| |?]|]; simpl; try discriminate;
    destruct n as [[?| |?]|]; simpl; try discriminate;
    destruct s as [[?| |?]|]; simpl; try discriminate;
    destruct h as [[?| |?]|]; simpl; try discriminate;
    destruct r as [[?| |?]|]; simpl; try discriminate; reflexivity.
Qed.

(** X11: a missing file is not an error, and a legacy [claude-md.yaml] is read
    only in the absence of [instructions.yaml]: a tag directory loads
    exactly when none of the files the loader reads is unparsable, and the
    set it loads to holds each kind whose file is there, the instructions
    from [instructions.yaml] first. *)
Theorem tag_directory_loads (tag : Tag) (tagDir : string) (d : TagDir) :
  (readsUnparsableFile d = false ->
   loadTagTemplateSet tag tagDir d = Ok (describedSet tag d)) /\
  (readsUnparsableFile d = true ->
   exists e, loadTagTemplateSet tag tagDir d = Throw e /\ isParseError e).
Proof.
  split; [apply loadTagTemplateSet_parsable|].
  intros Hbad.
  destruct (LoaderFacts.loadTagTemplateSet_unparsable tag tagDir d Hbad) as [e He].
  exists e. split; [done|]. by eapply LoaderFacts.loadTagTemplateSet_throws.
Qed.

Lemma tag_directory_loads_witness :
  readsUnparsableFile universalDir = false /\
  loadTagTemplateSet UNIVERSAL "templates/universal" universalDir
    = Ok (describedSet UNIVERSAL universalDir) /\
  readsUnparsableFile brokenApiDir = true /\
  exists e, loadTagTemplateSet API "templates/api" brokenApiDir = Throw e
            /\ isParseError e.
Proof.
  split_and!; [reflexivity| |reflexivity|].
  - apply (tag_directory_loads UNIVERSAL "templates/universal" universalDir).
    reflexivity.
  - apply (tag_directory_loads API "templates/api" brokenApiDir). reflexivity.
Defined.

(** *** One templates directory *)






(** *** Extension directories *)

Lemma loadExtras_missing (fs : FileSystem) (resolveTemplatesDir : Result string)
    (extraDirs : list string) (base : gmap Tag TagTemplateSet) :
  (forall d, d ∈ extraDirs -> fs d = None) ->
  loadExtras fs resolveTemplatesDir extraDirs base = Ok base.
Proof.
  induction extraDirs as [|d rest IH]; intros Hmissing; simpl; [done|].
  unfold existsSync. rewrite (Hmissing d) by left.
  rewrite bool_decide_eq_false_2 by (intros [? H]; discriminate H).
  apply IH. intros d' Hd'. apply Hmissing. by right.
Qed.

(** X13: extension directories that are not there are skipped: when none of
    them exists, the result is that of loading the built-in directory
    alone, a failure of that load included. *)
Theorem missing_extensions_are_skipped (fs : FileSystem)
    (resolveTemplatesDir : Result string) (builtInDir : option string)
    (extraDirs : list string) :
  (forall d, d ∈ extraDirs -> fs d = None) ->
  loadAllTemplatesWithExtras fs resolveTemplatesDir builtInDir (Some extraDirs)
  = loadAllTemplates fs resolveTemplatesDir builtInDir.
Proof.
  intros Hmissing. unfold loadAllTemplatesWithExtras.
  destruct (loadAllTemplates fs resolveTemplatesDir builtInDir) as [base|e];
    simpl; [|done].
  by apply loadExtras_missing.
Qed.

Lemma missing_extensions_are_skipped_witness :
  (forall d, d ∈ ["nowhere"%string] -> oneBlockEach d = None) /\
  loadAllTemplatesWithExtras oneBlockEach packaged None (Some ["nowhere"%string])
  = loadAllTemplates oneBlockEach packaged None.
Proof.
  assert (forall d, d ∈ ["nowhere"%string] -> oneBlockEach d = None) as H.
  { intros d Hd. apply list_elem_of_singleton in Hd as ->. reflexivity. }
  split; [exact H|].
  exact (missing_extensions_are_skipped oneBlockEach packaged None
           ["nowhere"%string] H).
Defined.

(** X14: one merge pass tag by tag: the merged store holds the tags of the base
    and those of the extension; a tag the base lacks is adopted from the
    extension as it is, and a tag the extension lacks is left as it was. *)
Theorem merge_pass_tags (base extra : gmap Tag TagTemplateSet) (tag : Tag) :
  (is_Some (mergeExtra base extra !! tag)
   <-> is_Some (base !! tag) \/ is_Some (extra !! tag)) /\
  (base !! tag = None -> mergeExtra base extra !! tag = extra !! tag) /\
  (extra !! tag = None -> mergeExtra base extra !! tag = base !! tag).
Proof.
  rewrite LoaderFacts.mergeExtra_lookup.
  destruct (extra !! tag) as [e|], (base !! tag) as [b|]; split_and!;
    try done; try (intros H; discriminate H);
    split; try (intros [[? H]|[? H]]; discriminate H); eauto;
    intros [? H]; discriminate H.
Qed.

(** *** The merge functions *)

Lemma append_unseen_items {B : Type} (key : B -> string) (base extra : list B) :
  mergedItems key base extra
    (base ++ filter (fun x => key x ∉ (list_to_set (key <$> base) : gset string)) extra).
Proof.
  intros x. rewrite elem_of_app, list_elem_of_filter, elem_of_list_to_set. tauto.
Qed.

Lemma mergedItems_no_extra {B : Type} (key : B -> string) (base : list B) :
  mergedItems key base [] base.
Proof.
  intros x. split; [by left|]. intros [?|[H _]]; [done|by apply elem_of_nil in H].
Qed.

Lemma mergedItems_no_base {B : Type} (key : B -> string) (extra : list B) :
  mergedItems key [] extra extra.
Proof.
  intros x. split.
  - intros Hx. right. split; [done|]. simpl. apply not_elem_of_nil.
  - intros [H|[H _]]; [by apply elem_of_nil in H|done].
Qed.

(** X15: for instruction, NFR, hook and review fragments alike, the merged set
    holds every fragment of the base and every fragment of the extension
    whose id (name) the base does not use, and no other fragment: nothing
    new is lost and nothing is made up. *)
Theorem merged_fragments (tag : Tag) (baseSet extraSet : TagTemplateSet) :
  let m := merged tag baseSet extraSet in
  mergedItems block_id (kindItems instr_blocks (instructions baseSet))
    (kindItems instr_blocks (instructions extraSet))
    (kindItems instr_blocks (instructions m)) /\
  mergedItems nfr_id (kindItems nfr_blocks (nfr baseSet))
    (kindItems nfr_blocks (nfr extraSet)) (kindItems nfr_blocks (nfr m)) /\
  mergedItems hook_name (kindItems id (Types.hooks baseSet))
    (kindItems id (Types.hooks extraSet)) (kindItems id (Types.hooks m)) /\
  mergedItems review_id (kindItems review_blocks (review baseSet))
    (kindItems review_blocks (review extraSet))
    (kindItems review_blocks (review m)).
Proof.
  cbv zeta. unfold merged. simpl.
  destruct baseSet as [bt bi bn bs bh br bc], extraSet as [et ei en es eh er ec].
  simpl. split_and!.
  - destruct ei as [e|], bi as [b|]; simpl;
      auto using append_unseen_items, mergedItems_no_extra, mergedItems_no_base.
  - destruct en as [e|], bn as [b|]; simpl;
      auto using append_unseen_items, mergedItems_no_extra, mergedItems_no_base.
  - destruct eh as [e|], bh as [b|]; simpl;
      auto using append_unseen_items, mergedItems_no_extra, mergedItems_no_base.
  - destruct er as [e|], br as [b|]; simpl;
      auto using append_unseen_items, mergedItems_no_extra, mergedItems_no_base.
Qed.

Lemma append_unseen_NoDup {B : Type} (key : B -> string) (base extra : list B) :
  NoDup (key <$> base) -> NoDup (key <$> extra) ->
  NoDup (key <$> (base
           ++ filter (fun x => key x ∉ (list_to_set (key <$> base) : gset string))
                     extra)).
Proof.
  intros Hb He. rewrite fmap_app. apply NoDup_app. split_and!; [done| |].
  - intros k Hk Hk'. apply list_elem_of_fmap in Hk' as (x & -> & Hx).
    apply list_elem_of_filter in Hx as [Hnew _].
    apply Hnew. by apply elem_of_list_to_set.
  - eapply sublist_NoDup; [exact He|].
    apply fmap_sublist. apply sublist_filter.
Qed.

(** X16: merging keeps ids unique: when within each of the four merged kinds
    the base set and the extension set use no id (name) twice, neither does
    the merged set. *)
Theorem merged_ids_stay_unique (tag : Tag) (baseSet extraSet : TagTemplateSet) :
  uniqueIds baseSet -> uniqueIds extraSet ->
  uniqueIds (merged tag baseSet extraSet).
Proof.
  unfold uniqueIds, merged.
  destruct baseSet as [bt bi bn bs bh br bc], extraSet as [et ei en es eh er ec].
  simpl. intros (Bi & Bn & Bh & Br) (Ei & En & Eh & Er). split_and!.
  - destruct ei as [e|], bi as [b|]; simpl in *; auto using append_unseen_NoDup.
  - destruct en as [e|], bn as [b|]; simpl in *; auto using append_unseen_NoDup.
  - destruct eh as [e|], bh as [b|]; simpl in *; auto using append_unseen_NoDup.
  - destruct er as [e|], br as [b|]; simpl in *; auto using append_unseen_NoDup.
Qed.

Lemma merged_ids_stay_unique_witness :
  uniqueIds builtinUniversalSet /\
  uniqueIds (describedSet UNIVERSAL communityUniversal) /\
  uniqueIds (merged UNIVERSAL builtinUniversalSet
               (describedSet UNIVERSAL communityUniversal)).
Proof.
  assert (uniqueIds builtinUniversalSet) as Hb.
  { unfold uniqueIds. simpl. split_and!;
      try apply NoDup_nil_2; apply NoDup_singleton. }
  assert (uniqueIds (describedSet UNIVERSAL communityUniversal)) as He.
  { unfold uniqueIds. simpl. split_and!; try apply NoDup_nil_2.
    apply NoDup_cons. split; [|apply NoDup_singleton].
    intros Hin. apply list_elem_of_singleton in Hin. discriminate Hin. }
  split_and!; [exact Hb|exact He|].
  exact (merged_ids_stay_unique UNIVERSAL builtinUniversalSet
           (describedSet UNIVERSAL communityUniversal) Hb He).
Defined.

(** *** Merging the same extension again *)

Lemma filter_unseen_nil {B : Type} (key : B -> string) (seen : gset string)
    (xs : list B) :
  (forall x, x ∈ xs -> key x ∈ seen) ->
  filter (fun x => key x ∉ seen) xs = [].
Proof.
  induction xs as [|x xs IH]; intros Hall; [done|].
  rewrite filter_cons_False by (intros Hx; apply Hx, Hall; left).
  apply IH. intros y Hy. apply Hall. by right.
Qed.

Lemma append_unseen_again {B : Type} (key : B -> string) (base extra : list B) :
  let once :=
    base ++ filter (fun x => key x ∉ (list_to_set (key <$> base) : gset string))
                   extra in
  once ++ filter (fun x => key x ∉ (list_to_set (key <$> once) : gset string)) extra
  = once.
Proof.
  intros once.
  rewrite (filter_unseen_nil key (list_to_set (key <$> once)) extra);
    [by rewrite app_nil_r|].
  intros x Hx. apply elem_of_list_to_set. unfold once.
  rewrite fmap_app, elem_of_app.
  destruct (decide (key x ∈ key <$> base)) as [?|Hnew]; [by left|].
  right. apply list_elem_of_fmap. exists x. split; [done|].
  apply list_elem_of_filter. split; [|done].
  intros Hin. apply Hnew. by apply elem_of_list_to_set in Hin.
Qed.

Lemma append_own_again {B : Type} (key : B -> string) (xs : list B) :
  xs ++ filter (fun x => key x ∉ (list_to_set (key <$> xs) : gset string)) xs = xs.
Proof.
  rewrite filter_unseen_nil; [by rewrite app_nil_r|].
  intros x Hx. apply elem_of_list_to_set. apply list_elem_of_fmap. by exists x.
Qed.

Lemma mergeInstructionTemplates_again (base extra : option InstructionTemplate) :
  mergeInstructionTemplates (mergeInstructionTemplates base extra) extra
  = mergeInstructionTemplates base extra.
Proof.
  destruct extra as [[et eb]|], base as [[bt bb]|]; simpl; try done; f_equal.
  - f_equal. apply (append_unseen_again block_id).
  - f_equal. apply (append_own_again block_id).
Qed.

Lemma mergeNfrTemplates_again (base extra : option NfrTemplate) :
  mergeNfrTemplates (mergeNfrTemplates base extra) extra
  = mergeNfrTemplates base extra.
Proof.
  destruct extra as [[et eb]|], base as [[bt bb]|]; simpl; try done; f_equal.
  - f_equal. apply (append_unseen_again nfr_id).
  - f_equal. apply (append_own_again nfr_id).
Qed.

Lemma mergeHookTemplates_again (base extra : option (list HookTemplate)) :
  mergeHookTemplates (mergeHookTemplates base extra) extra
  = mergeHookTemplates base extra.
Proof.
  destruct extra as [e|], base as [b|]; simpl; try done; f_equal.
  - apply (append_unseen_again hook_name).
  - apply (append_own_again hook_name).
Qed.

Lemma mergeReviewTemplates_again (base extra : option ReviewTemplate) :
  mergeReviewTemplates (mergeReviewTemplates base extra) extra
  = mergeReviewTemplates base extra.
Proof.
  destruct extra as [[et eb]|], base as [[bt bb]|]; simpl; try done; f_equal.
  - f_equal. apply (append_unseen_again review_id).
  - f_equal. apply (append_own_again review_id).
Qed.

Lemma merged_again (tag : Tag) (baseSet extraSet : TagTemplateSet) :
  merged tag (merged tag baseSet extraSet) extraSet = merged tag baseSet extraSet.
Proof.
  unfold merged. simpl.
  rewrite mergeInstructionTemplates_again, mergeNfrTemplates_again,
    mergeHookTemplates_again, mergeReviewTemplates_again.
  f_equal. by destruct (structure extraSet).
Qed.

Lemma merged_self (tag : Tag) (ts : TagTemplateSet) :
  Types.tag ts = tag -> claudeMd ts = None -> merged tag ts ts = ts.
Proof.
  destruct ts as [t i n s h r c]. simpl. intros -> ->. unfold merged. simpl.
  f_equal.
  - destruct i as [[it ib]|]; simpl; [|done]. do 2 f_equal.
    apply (append_own_again block_id).
  - destruct n as [[nt nb]|]; simpl; [|done]. do 2 f_equal.
    apply (append_own_again nfr_id).
  - by destruct s.
  - destruct h as [hs|]; simpl; [|done]. f_equal.
    apply (append_own_again hook_name).
  - destruct r as [[rt rb]|]; simpl; [|done]. do 2 f_equal.
    apply (append_own_again review_id).
Qed.

Lemma mergeExtra_again (base extra : gmap Tag TagTemplateSet) :
  wellKeyed extra ->
  mergeExtra (mergeExtra base extra) extra = mergeExtra base extra.
Proof.
  intros Hkeyed. apply map_eq. intros tag.
  rewrite !LoaderFacts.mergeExtra_lookup.
  destruct (extra !! tag) as [e|] eqn:He; [|done].
  destruct (base !! tag) as [b|].
  - by rewrite merged_again.
  - destruct (Hkeyed tag e He) as [Ht Hc]. by rewrite merged_self.
Qed.

Lemma loadTagTemplateSet_ok (tag : Tag) (tagDir : string) (d : TagDir)
    (ts : TagTemplateSet) :
  loadTagTemplateSet tag tagDir d = Ok ts -> ts = describedSet tag d.
Proof.
  intros Hok. destruct (readsUnparsableFile d) eqn:Hbad.
  - destruct (LoaderFacts.loadTagTemplateSet_unparsable tag tagDir d Hbad) as [e He].
    rewrite He in Hok. discriminate Hok.
  - rewrite (loadTagTemplateSet_parsable tag tagDir d Hbad) in Hok.
    by injection Hok as <-.
Qed.

Lemma loadTagDirs_wellKeyed (dir : string) (tagDirs : list (string * TagDir))
    (result store : gmap Tag TagTemplateSet) :
  wellKeyed result -> loadTagDirs dir tagDirs result = Ok store -> wellKeyed store.
Proof.
  revert result.
  induction tagDirs as [|[n c] rest IH]; intros result Hres Hok;
    cbn [loadTagDirs] in Hok.
  - by injection Hok as <-.
  - destruct (tagDirNameToTag n) as [[t|inherited]|]; [| |by eapply IH].
    + destruct (loadTagTemplateSet t (join dir n) c) as [ts|e] eqn:Hload;
        simpl in Hok; [|discriminate Hok].
      apply loadTagTemplateSet_ok in Hload as ->.
      eapply IH; [|exact Hok].
      intros tag ts Hts. destruct (decide (t = tag)) as [->|Hne].
      * rewrite lookup_insert_eq in Hts. by injection Hts as <-.
      * rewrite lookup_insert_ne in Hts by done. by apply Hres.
    + destruct (loadTagTemplateSet UNIVERSAL (join dir n) c) as [ts|e];
        simpl in Hok; [|discriminate Hok].
      by eapply IH.
Qed.

Lemma loadAllTemplates_wellKeyed (fs : FileSystem)
    (resolveTemplatesDir : Result string) (templatesDir : option string)
    (store : gmap Tag TagTemplateSet) :
  loadAllTemplates fs resolveTemplatesDir templatesDir = Ok store ->
  wellKeyed store.
Proof.
  unfold loadAllTemplates.
  destruct (match templatesDir with Some dir => Ok dir | None => resolveTemplatesDir end)
    as [dir|e]; simpl; [|discriminate].
  destruct (readdirSync fs dir) as [entries|e]; simpl; [|discriminate].
  apply loadTagDirs_wellKeyed. intros tag ts H. rewrite lookup_empty in H.
  discriminate H.
Qed.

Lemma loadExtras_twice (fs : FileSystem) (resolveTemplatesDir : Result string)
    (d : string) (base : gmap Tag TagTemplateSet) :
  loadExtras fs resolveTemplatesDir [d; d] base
  = loadExtras fs resolveTemplatesDir [d] base.
Proof.
  simpl. destruct (existsSync fs d); [|done].
  destruct (loadAllTemplates fs resolveTemplatesDir (Some d)) as [extra|e] eqn:Hload;
    simpl; [|done].
  rewrite mergeExtra_again; [done|]. by eapply loadAllTemplates_wellKeyed.
Qed.

(** X17: naming an extension directory twice in a row is naming it once: the
    second merge of the same directory adds nothing and changes
    nothing. *)
Theorem repeated_extension_is_idle (fs : FileSystem)
    (resolveTemplatesDir : Result string) (builtInDir : option string)
    (dirs : list string) (d : string) :
  loadAllTemplatesWithExtras fs resolveTemplatesDir builtInDir
    (Some (dirs ++ [d; d]))
  = loadAllTemplatesWithExtras fs resolveTemplatesDir builtInDir
      (Some (dirs ++ [d])).
Proof.
  unfold loadAllTemplatesWithExtras.
  destruct (loadAllTemplates fs resolveTemplatesDir builtInDir) as [base|e];
    simpl; [|done].
  rewrite !LoaderFacts.loadExtras_split.
  destruct (loadExtras fs resolveTemplatesDir dirs base) as [store|e]; simpl;
    [|done].
  apply loadExtras_twice.
Qed.

(** *** Failures in an extension *)







End LoaderMore.

(* ===================================================================== *)
(** ** More about the refresh tool and the analyzers *)
(* ===================================================================== *)

Module RefreshMore.

Import Composer Loader Refresh Analyzer Samples Notions RefreshFacts.

(** *** [computeUpdatedTags] *)

Lemma setAdd_appends (t : Tag) (s : list Tag) :
  exists extra, setAdd t s = s ++ extra.
Proof.
  unfold setAdd. case_bool_decide.
  - exists []. by rewrite app_nil_r.
  - by exists [t].
Qed.

Lemma setAdd_NoDup (t : Tag) (s : list Tag) : NoDup s -> NoDup (setAdd t s).
Proof.
  unfold setAdd. intros Hs. case_bool_decide as Hin; [done|].
  apply NoDup_app. split_and!; [done| |apply NoDup_singleton].
  intros x Hx Hxt. apply list_elem_of_singleton in Hxt. by subst.
Qed.

Lemma setDelete_NoDup (t : Tag) (s : list Tag) : NoDup s -> NoDup (setDelete t s).
Proof. apply NoDup_filter. Qed.

(** The three loops of [computeUpdatedTags], each from any set. *)
Lemma addLoop_elem (x : Tag) (ts tagSet : list Tag) :
  x ∈ foldl (fun tagSet t => setAdd t tagSet) tagSet ts <-> x ∈ tagSet \/ x ∈ ts.
Proof.
  revert tagSet. induction ts as [|t ts IH]; intros tagSet; simpl.
  - rewrite elem_of_nil. tauto.
  - rewrite IH, setAdd_elem, elem_of_cons. tauto.
Qed.

Lemma addLoop_appends (ts tagSet : list Tag) :
  exists extra, foldl (fun tagSet t => setAdd t tagSet) tagSet ts = tagSet ++ extra.
Proof.
  revert tagSet. induction ts as [|t ts IH]; intros tagSet; simpl.
  - exists []. by rewrite app_nil_r.
  - destruct (setAdd_appends t tagSet) as [e1 ->].
    destruct (IH (tagSet ++ e1)) as [e2 ->].
    exists (e1 ++ e2). by rewrite app_assoc.
Qed.

Lemma addLoop_NoDup (ts tagSet : list Tag) :
  NoDup tagSet -> NoDup (foldl (fun tagSet t => setAdd t tagSet) tagSet ts).
Proof.
  revert tagSet. induction ts as [|t ts IH]; intros tagSet Hs; simpl; [done|].
  by apply IH, setAdd_NoDup.
Qed.

Lemma newSet_NoDup (ts : list Tag) : NoDup (newSet ts).
Proof. apply addLoop_NoDup, NoDup_nil_2. Qed.

Lemma newSet_elem_iff (x : Tag) (ts : list Tag) : x ∈ newSet ts <-> x ∈ ts.
Proof. unfold newSet. rewrite addLoop_elem, elem_of_nil. tauto. Qed.

Lemma newSet_fixed (ts : list Tag) : NoDup ts -> newSet ts = ts.
Proof.
  unfold newSet.
  assert (forall s, NoDup (s ++ ts) ->
            foldl (fun s t => setAdd t s) s ts = s ++ ts) as H.
  { induction ts as [|t ts IH]; intros s Hnd; simpl.
    - by rewrite app_nil_r.
    - assert (t ∉ s) as Hfresh.
      { apply NoDup_app in Hnd as (_ & Hdisj & _).
        intros Hin. apply (Hdisj t Hin). left. }
      unfold setAdd. rewrite bool_decide_eq_false_2 by done.
      rewrite IH; [by rewrite <- app_assoc|].
      by rewrite <- app_assoc. }
  intros Hnd. by rewrite (H [] Hnd).
Qed.

Lemma autoLoop_elem (x : Tag) (suggestions : list Detection) (tagSet : list Tag) :
  x ∈ foldl (fun tagSet s =>
               if geq (confidence s) AUTO_ADD_THRESHOLD
               then setAdd (det_tag s) tagSet else tagSet)
            tagSet suggestions
  <-> x ∈ tagSet \/ exists s, s ∈ autoAdded suggestions /\ det_tag s = x.
Proof.
  unfold autoAdded.
  revert tagSet. induction suggestions as [|s ss IH]; intros tagSet; simpl.
  - split; [by left|]. intros [?|(s & Hs & _)]; [done|].
    by apply elem_of_nil in Hs.
  - rewrite IH, filter_cons. clear IH.
    destruct (geq (confidence s) AUTO_ADD_THRESHOLD) eqn:Hc.
    + rewrite decide_True by done. rewrite setAdd_elem. split.
      * intros [[->|?]|(d & Hd & <-)].
        -- right. exists s. split; [left|done].
        -- by left.
        -- right. exists d. split; [by right|done].
      * intros [?|(d & Hd & <-)]; [left; by right|].
        apply elem_of_cons in Hd as [->|Hd]; [left; by left|].
        right. by exists d.
    + rewrite decide_False by done. done.
Qed.

Lemma autoLoop_appends (suggestions : list Detection) (tagSet : list Tag) :
  exists extra,
    foldl (fun tagSet s =>
             if geq (confidence s) AUTO_ADD_THRESHOLD
             then setAdd (det_tag s) tagSet else tagSet)
          tagSet suggestions = tagSet ++ extra.
Proof.
  revert tagSet. induction suggestions as [|s ss IH]; intros tagSet; simpl.
  - exists []. by rewrite app_nil_r.
  - destruct (geq (confidence s) AUTO_ADD_THRESHOLD); [|apply IH].
    destruct (setAdd_appends (det_tag s) tagSet) as [e1 ->].
    destruct (IH (tagSet ++ e1)) as [e2 ->].
    exists (e1 ++ e2). by rewrite app_assoc.
Qed.

Lemma autoLoop_NoDup (suggestions : list Detection) (tagSet : list Tag) :
  NoDup tagSet ->
  NoDup (foldl (fun tagSet s =>
                  if geq (confidence s) AUTO_ADD_THRESHOLD
                  then setAdd (det_tag s) tagSet else tagSet)
               tagSet suggestions).
Proof.
  revert tagSet. induction suggestions as [|s ss IH]; intros tagSet Hs; simpl; [done|].
  apply IH. destruct (geq (confidence s) AUTO_ADD_THRESHOLD); [|done].
  by apply setAdd_NoDup.
Qed.

Lemma filter_survives_nil (tagSet : list Tag) :
  filter (fun x => survives [] x) tagSet = tagSet.
Proof.
  induction tagSet as [|x xs IHx]; [done|].
  rewrite filter_cons_True; [by rewrite IHx|]. left. apply not_elem_of_nil.
Qed.

(** The loop over [removeTags] is one filter. *)
Lemma removeLoop_filter (removeTags tagSet : list Tag) :
  foldl (fun tagSet t =>
           if bool_decide (t <> UNIVERSAL) then setDelete t tagSet else tagSet)
        tagSet removeTags
  = filter (fun x => survives removeTags x) tagSet.
Proof.
  unfold survives.
  revert tagSet. induction removeTags as [|t ts IH]; intros tagSet; simpl.
  - by rewrite filter_survives_nil.
  - rewrite IH. case_bool_decide as Ht.
    + unfold setDelete. rewrite list_filter_filter.
      apply list_filter_iff. intros x. rewrite not_elem_of_cons.
      split.
      * intros [[Hx|Hx] Hxt]; [left; by split|by right].
      * intros [[Hxt Hx]|Hx]; [split; [by left|done]|].
        split; [by right|]. intros ->. by subst.
    + subst t.
      apply list_filter_iff. intros x. rewrite not_elem_of_cons.
      destruct (decide (x = UNIVERSAL)); tauto.
Qed.

Lemma computeUpdatedTags_filter (currentTags : list Tag)
    (suggestions : list Detection) (addTags removeTags : option (list Tag)) :
  exists added,
    computeUpdatedTags currentTags suggestions addTags removeTags
    = setAdd UNIVERSAL
        (filter (fun x => survives (default [] removeTags) x)
                (newSet currentTags ++ added)).
Proof.
  unfold computeUpdatedTags.
  destruct (autoLoop_appends suggestions (newSet currentTags)) as [e1 ->].
  assert (exists e2,
            match addTags with
            | Some addTags =>
                foldl (fun tagSet t => setAdd t tagSet)
                      (newSet currentTags ++ e1) addTags
            | None => newSet currentTags ++ e1
            end = (newSet currentTags ++ e1) ++ e2) as [e2 ->].
  { destruct addTags as [adds|]; [apply addLoop_appends|].
    exists []. by rewrite app_nil_r. }
  exists (e1 ++ e2). rewrite <- app_assoc.
  destruct removeTags as [rems|]; simpl.
  - by rewrite removeLoop_filter.
  - by rewrite filter_survives_nil.
Qed.

(** X19: the resolved tag set never lists a tag twice, whatever the
    configured tags, the suggestions, the adds and the removes repeat. *)
Theorem resolved_tags_are_distinct (currentTags : list Tag)
    (suggestions : list Detection) (addTags removeTags : option (list Tag)) :
  NoDup (computeUpdatedTags currentTags suggestions addTags removeTags).
Proof.
  unfold computeUpdatedTags. apply setAdd_NoDup.
  assert (NoDup (foldl (fun tagSet s =>
                          if geq (confidence s) AUTO_ADD_THRESHOLD
                          then setAdd (det_tag s) tagSet else tagSet)
                       (newSet currentTags) suggestions)) as H1
    by apply autoLoop_NoDup, newSet_NoDup.
  assert (NoDup match addTags with
                | Some addTags =>
                    foldl (fun tagSet t => setAdd t tagSet)
                      (foldl (fun tagSet s =>
                                if geq (confidence s) AUTO_ADD_THRESHOLD
                                then setAdd (det_tag s) tagSet else tagSet)
                             (newSet currentTags) suggestions) addTags
                | None =>
                    foldl (fun tagSet s =>
                             if geq (confidence s) AUTO_ADD_THRESHOLD
                             then setAdd (det_tag s) tagSet else tagSet)
                          (newSet currentTags) suggestions
                end) as H2.
  { destruct addTags; [by apply addLoop_NoDup|done]. }
  destruct removeTags as [rems|]; [|done].
  rewrite removeLoop_filter. by apply NoDup_filter.
Qed.

Lemma computeUpdatedTags_elem (currentTags : list Tag)
    (suggestions : list Detection) (addTags removeTags : option (list Tag))
    (x : Tag) :
  x ∈ computeUpdatedTags currentTags suggestions addTags removeTags
  <-> x = UNIVERSAL
      \/ ((x ∈ currentTags
           \/ (exists s, s ∈ autoAdded suggestions /\ det_tag s = x)
           \/ x ∈ default [] addTags)
          /\ x ∉ default [] removeTags).
Proof.
  unfold computeUpdatedTags. rewrite setAdd_elem.
  assert (forall tagSet,
            x ∈ match addTags with
                | Some addTags => foldl (fun tagSet t => setAdd t tagSet) tagSet addTags
                | None => tagSet
                end <-> x ∈ tagSet \/ x ∈ default [] addTags) as Hadd.
  { intros tagSet. destruct addTags as [adds|]; simpl.
    - apply addLoop_elem.
    - rewrite elem_of_nil. tauto. }
  assert (forall tagSet,
            x ∈ match removeTags with
                | Some removeTags =>
                    foldl (fun tagSet t =>
                             if bool_decide (t <> UNIVERSAL)
                             then setDelete t tagSet else tagSet)
                          tagSet removeTags
                | None => tagSet
                end <-> x ∈ tagSet /\ survives (default [] removeTags) x) as Hrem.
  { intros tagSet. destruct removeTags as [rems|]; simpl.
    - rewrite removeLoop_filter, list_elem_of_filter. tauto.
    - unfold survives. split; [|tauto]. intros ?. split; [done|].
      left. apply not_elem_of_nil. }
  rewrite Hrem, Hadd, autoLoop_elem, newSet_elem_iff. unfold survives.
  destruct (decide (x = UNIVERSAL)); tauto.
Qed.

(** X20: a tag is in the resolved set exactly when it is [UNIVERSAL], or it
    is a configured tag, the tag of a suggestion at or above the auto-add
    threshold, or an explicit add, and it is not among the removes. *)
Theorem resolved_tags_membership (currentTags : list Tag)
    (suggestions : list Detection) (addTags removeTags : option (list Tag))
    (x : Tag) :
  x ∈ computeUpdatedTags currentTags suggestions addTags removeTags
  <-> x = UNIVERSAL
      \/ ((x ∈ currentTags
           \/ (exists s, s ∈ autoAdded suggestions /\ det_tag s = x)
           \/ x ∈ default [] addTags)
          /\ x ∉ default [] removeTags).
Proof. apply computeUpdatedTags_elem. Qed.

(** X21: the configured tags that are not removed stay at the front of the
    resolved set, in the order of the configuration; what the pass adds
    comes after them. *)
Theorem configured_tags_keep_their_place (currentTags : list Tag)
    (suggestions : list Detection) (addTags removeTags : option (list Tag)) :
  NoDup currentTags ->
  filter (fun x => survives (default [] removeTags) x) currentTags
    `prefix_of` computeUpdatedTags currentTags suggestions addTags removeTags.
Proof.
  intros Hnd.
  destruct (computeUpdatedTags_filter currentTags suggestions addTags removeTags)
    as [added ->].
  rewrite (newSet_fixed _ Hnd), filter_app.
  destruct (setAdd_appends UNIVERSAL
              (filter (fun x => survives (default [] removeTags) x) currentTags
               ++ filter (fun x => survives (default [] removeTags) x) added))
    as [extra ->].
  rewrite <- app_assoc. by eexists.
Qed.

Lemma configured_tags_keep_their_place_witness :
  NoDup [API; UNIVERSAL; CLI] /\
  [UNIVERSAL; CLI] `prefix_of`
    computeUpdatedTags [API; UNIVERSAL; CLI] [mobileDetection; apiDetection]
      (Some [WEB3]) (Some [API; UNIVERSAL]).
Proof.
  assert (NoDup [API; UNIVERSAL; CLI]) as Hnd.
  { apply (bool_decide_unpack _). vm_compute. exact I. }
  split; [exact Hnd|].
  exact (configured_tags_keep_their_place [API; UNIVERSAL; CLI]
           [mobileDetection; apiDetection] (Some [WEB3])
           (Some [API; UNIVERSAL]) Hnd).
Defined.

(** *** [analyzeDrift] *)

Lemma detectionLoop_detected (currentTags : list Tag)
    (detections : list Detection) (t : Tag) :
  t ∈ snd (detectionLoop currentTags detections)
  <-> t ∈ det_tag <$> detections.
Proof.
  unfold detectionLoop.
  assert (forall (sugg : list Detection) (seen : gset Tag),
            t ∈ snd (foldl (fun '(newTagSuggestions, detectedTagSet) d =>
                   let detectedTagSet : gset Tag := {[ det_tag d ]} ∪ detectedTagSet in
                   if geq (confidence d) SUGGEST_THRESHOLD
                      && bool_decide (det_tag d ∉ currentTags)
                   then (newTagSuggestions ++
                           [ {| det_tag := det_tag d; confidence := confidence d;
                                evidence := evidence d |} ],
                         detectedTagSet)
                   else (newTagSuggestions, detectedTagSet))
                 (sugg, seen) detections)
            <-> t ∈ seen \/ t ∈ det_tag <$> detections) as H.
  { induction detections as [|d ds IH]; intros sugg seen; simpl.
    - rewrite elem_of_nil. tauto.
    - destruct (geq (confidence d) SUGGEST_THRESHOLD
                && bool_decide (det_tag d ∉ currentTags));
        rewrite IH, elem_of_union, elem_of_singleton, elem_of_cons; tauto. }
  rewrite H. set_solver.
Qed.

Lemma composeWith_options (instrSource : TagTemplateSet -> option InstructionTemplate)
    (activeTags : list Tag) (allTemplates : gmap Tag TagTemplateSet)
    (options1 options2 : option ComposeOptions) :
  tierOf options1 = tierOf options2 ->
  includeOf options1 = includeOf options2 ->
  excludeOf options1 = excludeOf options2 ->
  composeWith instrSource activeTags allTemplates options1
  = composeWith instrSource activeTags allTemplates options2.
Proof.
  unfold tierOf, includeOf, excludeOf, composeWith. cbv zeta.
  by intros -> -> ->.
Qed.

Section world.

Variable fs : FileSystem.
Variable resolveTemplatesDir : Result string.
Variable analyzeProject : string -> list Detection.
Variable checkCompleteness : string -> list Tag -> Completeness.

(** The fields of the report that do not need the templates. *)
Lemma analyzeDrift_fields (projectDir : string) (config : ForgeCraftConfig)
    (args : RefreshArgs) (report : DriftReport) :
  analyzeDrift fs resolveTemplatesDir analyzeProject checkCompleteness
    projectDir config args = Ok report ->
  droppedTagCandidates report
    = filter (fun t => t <> UNIVERSAL
                       /\ t ∉ snd (detectionLoop (currentTags report)
                                     (analyzeProject projectDir)))
             (currentTags report) /\
  tierChange report
    = (if bool_decide (default (default recommended (tier config)) (arg_tier args)
                       <> default recommended (tier config))
       then Some (default recommended (tier config),
                  default (default recommended (tier config)) (arg_tier args))
       else None) /\
  completenessGaps report
    = check <$> failing (checkCompleteness projectDir (currentTags report)) /\
  completenessFixed report
    = check <$> passing (checkCompleteness projectDir (currentTags report)).
Proof.
  unfold analyzeDrift.
  destruct (detectionLoop (default [UNIVERSAL] (tags config))
              (analyzeProject projectDir)) as [sugg seen] eqn:Hloop.
  destruct (loadAllTemplatesWithExtras fs resolveTemplatesDir None
              (templateDirs config)) as [allTemplates|e] eqn:Hload;
    simpl; intros Heq; inversion Heq; subst; clear Heq; simpl.
  rewrite Hloop. by split_and!.
Qed.

(** X22: the suggestions of the report are the detections, in the order of
    the analyzers, whose confidence is at least the suggestion threshold
    and whose tag the configuration does not list; nothing else is
    suggested. *)
Theorem suggestions_are_new_confident_detections (projectDir : string)
    (config : ForgeCraftConfig) (args : RefreshArgs) (report : DriftReport) :
  analyzeDrift fs resolveTemplatesDir analyzeProject checkCompleteness
    projectDir config args = Ok report ->
  newTagSuggestions report `sublist_of` analyzeProject projectDir /\
  forall d, d ∈ newTagSuggestions report
            <-> d ∈ analyzeProject projectDir
                /\ geq (confidence d) SUGGEST_THRESHOLD = true
                /\ det_tag d ∉ default [UNIVERSAL] (tags config).
Proof.
  intros Hrun.
  destruct (analyzeDrift_report _ _ _ _ _ _ _ _ Hrun) as (Hcur & Hsugg & _).
  rewrite detectionLoop_suggestions, Hcur in Hsugg. rewrite Hsugg. split.
  - apply sublist_filter.
  - intros d. rewrite list_elem_of_filter. tauto.
Qed.

(** X23: a configured tag is a candidate for dropping exactly when it is not
    [UNIVERSAL] and no detection carries it, whatever the confidence of
    the detections. *)
Theorem dropped_candidates_are_undetected_tags (projectDir : string)
    (config : ForgeCraftConfig) (args : RefreshArgs) (report : DriftReport)
    (t : Tag) :
  analyzeDrift fs resolveTemplatesDir analyzeProject checkCompleteness
    projectDir config args = Ok report ->
  t ∈ droppedTagCandidates report
  <-> t ∈ default [UNIVERSAL] (tags config)
      /\ t <> UNIVERSAL
      /\ forall d, d ∈ analyzeProject projectDir -> det_tag d <> t.
Proof.
  intros Hrun.
  destruct (analyzeDrift_report _ _ _ _ _ _ _ _ Hrun) as (Hcur & _).
  destruct (analyzeDrift_fields _ _ _ _ Hrun) as (Hdrop & _).
  rewrite Hdrop, list_elem_of_filter, detectionLoop_detected, Hcur.
  rewrite list_elem_of_fmap.
  split.
  - intros ((Hu & Hnone) & Hin). split_and!; [done|done|].
    intros d Hd Heq. apply Hnone. by exists d.
  - intros (Hin & Hu & Hnone). split_and!; [done| |done].
    intros (d & Heq & Hd). by apply (Hnone d).
Qed.

(** X24: when the pass changes neither the tier nor the set of tags, the
    block count it reports after the refresh is the one before it. *)
Theorem no_drift_no_delta (projectDir : string) (config : ForgeCraftConfig)
    (args : RefreshArgs) (report : DriftReport) :
  analyzeDrift fs resolveTemplatesDir analyzeProject checkCompleteness
    projectDir config args = Ok report ->
  tierChange report = None ->
  (forall t, t ∈ UNIVERSAL :: updatedTags report args
             <-> t ∈ UNIVERSAL :: currentTags report) ->
  after (blockCountDelta report) = before (blockCountDelta report).
Proof.
  intros Hrun Htier Htags.
  destruct (analyzeDrift_report _ _ _ _ _ _ _ _ Hrun)
    as (_ & _ & allTemplates & _ & -> & ->).
  destruct (analyzeDrift_fields _ _ _ _ Hrun) as (_ & Hchange & _).
  rewrite Htier in Hchange. case_bool_decide as Hsame; [done|].
  rewrite Hsame.
  unfold composeTemplatesInstr.
  rewrite (composeWith_options _ _ _
             (withConfig (proposedConfig config (updatedTags report args)
                            (default recommended (tier config))))
             (withConfig config)).
  - match goal with
    | |- context [composeWith ?i _ _ _] =>
        destruct (ComposerMore.composeWith_sameIds i _ _ allTemplates
                    (withConfig config) Htags) as (Hblocks & _)
    end.
    apply Permutation_length in Hblocks.
    by rewrite !length_fmap in Hblocks.
  - unfold tierOf, withConfig, proposedConfig. simpl.
    by destruct (tier config).
  - done.
  - done.
Qed.

End world.


Lemma suggestions_are_new_confident_detections_witness :
  exists report,
    analyzeDrift oneBlockEach packaged apiAndMobile noChecks "proj"
      universalOnly plainArgs = Ok report /\
    newTagSuggestions report `sublist_of` apiAndMobile "proj" /\
    forall d, d ∈ newTagSuggestions report
              <-> d ∈ apiAndMobile "proj"
                  /\ geq (confidence d) SUGGEST_THRESHOLD = true
                  /\ det_tag d ∉ default [UNIVERSAL] (tags universalOnly).
Proof.
  destruct (analyzeDrift oneBlockEach packaged apiAndMobile noChecks "proj"
              universalOnly plainArgs) as [report|e] eqn:Hrun;
    [|vm_compute in Hrun; discriminate Hrun].
  exists report. split; [reflexivity|].
  exact (suggestions_are_new_confident_detections oneBlockEach packaged
           apiAndMobile noChecks "proj" universalOnly plainArgs report Hrun).
Defined.

Lemma dropped_candidates_are_undetected_tags_witness :
  exists report,
    analyzeDrift oneBlockEach packaged noDetections noChecks "proj"
      universalAndApi plainArgs = Ok report /\
    (API ∈ droppedTagCandidates report
     <-> API ∈ default [UNIVERSAL] (tags universalAndApi)
         /\ API <> UNIVERSAL
         /\ forall d, d ∈ noDetections "proj" -> det_tag d <> API).
Proof.
  destruct (analyzeDrift oneBlockEach packaged noDetections noChecks "proj"
              universalAndApi plainArgs) as [report|e] eqn:Hrun;
    [|vm_compute in Hrun; discriminate Hrun].
  exists report. split; [reflexivity|].
  exact (dropped_candidates_are_undetected_tags oneBlockEach packaged
           noDetections noChecks "proj" universalAndApi plainArgs report API Hrun).
Defined.

Lemma no_drift_no_delta_witness :
  exists report,
    analyzeDrift oneBlockEach packaged noDetections noChecks "proj"
      universalAndApi plainArgs = Ok report /\
    tierChange report = None /\
    (forall t, t ∈ UNIVERSAL :: updatedTags report plainArgs
               <-> t ∈ UNIVERSAL :: currentTags report) /\
    after (blockCountDelta report) = before (blockCountDelta report).
Proof.
  destruct (analyzeDrift oneBlockEach packaged noDetections noChecks "proj"
              universalAndApi plainArgs) as [report|e] eqn:Hrun;
    [|vm_compute in Hrun; discriminate Hrun].
  pose proof Hrun as Hval. vm_compute in Hval. injection Hval as <-.
  exists
    {| currentTags := [UNIVERSAL; API]; newTagSuggestions := [];
       droppedTagCandidates := [API]; completenessGaps := [];
       completenessFixed := []; tierChange := None;
       blockCountDelta := {| before := 2; after := 2 |} |}.
  assert (forall t, t ∈ UNIVERSAL :: [UNIVERSAL; API]
                    <-> t ∈ UNIVERSAL :: [UNIVERSAL; API]) as Htags by done.
  split_and!; [exact Hrun|reflexivity|exact Htags|].
  exact (no_drift_no_delta oneBlockEach packaged noDetections noChecks "proj"
           universalAndApi plainArgs _ Hrun eq_refl Htags).
Defined.

(** *** [deduplicateDetections] *)

Lemma SFltb_irrefl (x : spec_float) : SFltb x x = false.
Proof.
  unfold SFltb.
  destruct x as [s|s| |s m e]; simpl; try reflexivity;
    try (destruct s; reflexivity).
  rewrite Z.compare_refl, Pos.compare_cont_spec, Pos.compare_refl.
  by destruct s.
Qed.

Lemma SFltb_trans (x y z : spec_float) :
  SFltb x y = true -> SFltb y z = true -> SFltb x z = true.
Proof.
  unfold SFltb.
  destruct x as [s1|s1| |s1 m1 e1], y as [s2|s2| |s2 m2 e2],
           z as [s3|s3| |s3 m3 e3]; simpl;
    try discriminate; try reflexivity;
    try (destruct s1; simpl; discriminate || reflexivity);
    try (destruct s2; simpl; discriminate || reflexivity);
    try (destruct s3; simpl; discriminate || reflexivity);
    try (destruct s1, s2; simpl; discriminate || reflexivity);
    try (destruct s1, s3; simpl; discriminate || reflexivity);
    try (destruct s2, s3; simpl; discriminate || reflexivity);
    try (destruct s1, s2, s3; simpl; discriminate || reflexivity).
  rewrite !Pos.compare_cont_spec. simpl.
  destruct s1, s2, s3; try discriminate; try reflexivity;
    destruct (Z.compare_spec e1 e2), (Z.compare_spec e2 e3),
             (Z.compare_spec e1 e3); simpl;
    try discriminate; try reflexivity; try lia;
    destruct (Pos.compare_spec m1 m2), (Pos.compare_spec m2 m3),
             (Pos.compare_spec m1 m3); simpl;
    try discriminate; try reflexivity; lia.
Qed.

Lemma ltb_irrefl (x : float) : PrimFloat.ltb x x = false.
Proof. rewrite ltb_spec. apply SFltb_irrefl. Qed.

Lemma ltb_trans (x y z : float) :
  PrimFloat.ltb x y = true -> PrimFloat.ltb y z = true ->
  PrimFloat.ltb x z = true.
Proof. rewrite !ltb_spec. apply SFltb_trans. Qed.

(** The map, as the list of its entries. *)
Lemma mapGet_None (t : Tag) (m : list (Tag * Detection)) :
  mapGet t m = None <-> t ∉ m.*1.
Proof.
  induction m as [|[k v] m IH]; simpl.
  - split; [intros _; apply not_elem_of_nil|done].
  - rewrite not_elem_of_cons. case_decide as Hk.
    + split; [done|]. intros [Hne _]. by subst.
    + rewrite IH. split; [intros ?; split; [by intros ->|done]|tauto].
Qed.

Lemma mapGet_Some (t : Tag) (m : list (Tag * Detection)) (v : Detection) :
  mapGet t m = Some v -> (t, v) ∈ m.
Proof.
  induction m as [|[k w] m IH]; simpl; [done|].
  case_decide as Hk.
  - intros [= ->]. subst. left.
  - intros Hm. right. by apply IH.
Qed.

Lemma mapSet_keys (t : Tag) (v : Detection) (m : list (Tag * Detection)) :
  (mapSet t v m).*1 = setAdd t m.*1.
Proof.
  unfold setAdd. induction m as [|[k w] m IH].
  { cbn [mapSet fmap list_fmap fst].
    rewrite bool_decide_eq_false_2; [done|apply not_elem_of_nil]. }
  cbn [mapSet]. destruct (decide (k = t)) as [->|Hk]; rewrite !fmap_cons; cbn [fst].
  - rewrite bool_decide_eq_true_2; [done|left].
  - rewrite IH. case_bool_decide as Hin.
    + rewrite bool_decide_eq_true_2; [done|by right].
    + rewrite bool_decide_eq_false_2; [done|].
      rewrite not_elem_of_cons. split; [by intros ->|done].
Qed.

Lemma mapGet_elem (t : Tag) (m : list (Tag * Detection)) (w : Detection) :
  NoDup m.*1 -> (t, w) ∈ m -> mapGet t m = Some w.
Proof.
  induction m as [|[k v] m IH]; simpl; intros Hnd Hin.
  - by apply elem_of_nil in Hin.
  - apply NoDup_cons in Hnd as [Hk Hnd].
    apply elem_of_cons in Hin as [[= -> ->]|Hin].
    + by rewrite decide_True.
    + case_decide as Hkt; [|by apply IH].
      subst k. exfalso. apply Hk.
      apply list_elem_of_fmap. by exists (t, w).
Qed.

Lemma mapSet_elem (t : Tag) (v : Detection) (m : list (Tag * Detection))
    (k : Tag) (w : Detection) :
  NoDup m.*1 -> (k, w) ∈ mapSet t v m ->
  (k = t /\ w = v) \/ (k <> t /\ (k, w) ∈ m).
Proof.
  induction m as [|[k' w'] m IH]; simpl; intros Hnd.
  - rewrite list_elem_of_singleton. intros [= -> ->]. by left.
  - apply NoDup_cons in Hnd as [Hk Hnd]. case_decide as Hk'.
    + subst k'. rewrite elem_of_cons. intros [[= -> ->]|Hin]; [by left|].
      right. split; [|by right].
      intros ->. apply Hk. apply list_elem_of_fmap. by exists (t, w).
    + rewrite elem_of_cons. intros [[= -> ->]|Hin].
      * right. split; [done|left].
      * destruct (IH Hnd Hin) as [?|[? ?]]; [by left|].
        right. split; [done|by right].
Qed.

Lemma dedupStep_keys (m : list (Tag * Detection)) (d : Detection) :
  (dedupStep m d).*1 = setAdd (det_tag d) m.*1.
Proof.
  unfold dedupStep. cbv zeta.
  destruct (mapGet (det_tag d) m) as [e|] eqn:Hget.
  - destruct (PrimFloat.ltb (confidence e) (confidence d)).
    + apply mapSet_keys.
    + unfold setAdd. rewrite bool_decide_eq_true_2; [done|].
      apply mapGet_Some in Hget. apply list_elem_of_fmap. by exists (det_tag d, e).
  - apply mapSet_keys.
Qed.

Lemma dedupLoop_keys (detections : list Detection) (m : list (Tag * Detection)) :
  (foldl dedupStep m detections).*1
  = foldl (fun s t => setAdd t s) m.*1 (det_tag <$> detections).
Proof.
  revert m. induction detections as [|d ds IH]; intros m; simpl; [done|].
  by rewrite IH, dedupStep_keys.
Qed.

Lemma keyed_tags (m : list (Tag * Detection)) :
  keyed m -> det_tag <$> m.*2 = m.*1.
Proof.
  induction m as [|[k v] m IH]; intros Hkeyed; simpl; [done|].
  rewrite (Hkeyed k v) by left. f_equal. apply IH.
  intros k' v' Hin. apply Hkeyed. by right.
Qed.

Lemma dedupStep_invariant (m : list (Tag * Detection))
    (processed : list Detection) (d : Detection) :
  dedupInvariant m processed ->
  dedupInvariant (dedupStep m d) (processed ++ [d]).
Proof.
  intros (Hnd & Hkeyed & Hcover & Hbest).
  assert (forall k v, (k, v) ∈ m -> k <> det_tag d ->
            (exists d', d' ∈ processed ++ [d] /\ det_tag d' = k
                        /\ confidence d' = confidence v)
            /\ mostConfident (processed ++ [d]) v) as Hold.
  { intros k v Hin Hne. destruct (Hbest k v Hin) as ((d' & Hd' & Hk & Hc) & Hmost).
    split.
    - exists d'. split_and!; [|done|done]. apply elem_of_app. by left.
    - intros d'' Hd'' Htag. apply elem_of_app in Hd'' as [Hd''|Hd''].
      + by apply Hmost.
      + apply list_elem_of_singleton in Hd''. subst d''.
        rewrite (Hkeyed k v Hin) in Htag. by subst. }
  assert (forall d', d' ∈ processed ++ [d] ->
            det_tag d' ∈ setAdd (det_tag d) m.*1) as Hcover'.
  { intros d' Hd'. apply setAdd_elem. apply elem_of_app in Hd' as [Hd'|Hd'].
    - right. by apply Hcover.
    - apply list_elem_of_singleton in Hd'. left. by subst. }
  unfold dedupInvariant. rewrite dedupStep_keys.
  split_and!; [by apply setAdd_NoDup| | done |]; unfold dedupStep; cbv zeta;
    destruct (mapGet (det_tag d) m) as [e|] eqn:Hget.
  - destruct (PrimFloat.ltb (confidence e) (confidence d)); [|done].
    intros k v Hin. apply mapSet_elem in Hin as [[-> ->]|[_ Hin]]; [done| |done].
    by apply Hkeyed.
  - intros k v Hin. apply mapSet_elem in Hin as [[-> ->]|[_ Hin]]; [done| |done].
    by apply Hkeyed.
  - pose proof (mapGet_Some _ _ _ Hget) as He.
    destruct (Hbest _ _ He) as (_ & Hmost).
    destruct (PrimFloat.ltb (confidence e) (confidence d)) eqn:Hlt.
    + intros k v Hin. apply mapSet_elem in Hin as [[-> ->]|[Hne Hin]];
        [| |done]; [|by apply Hold].
      split.
      * exists d. split_and!; [|done|done]. apply elem_of_app. right. left.
      * intros d' Hd' Htag. simpl in *.
        apply elem_of_app in Hd' as [Hd'|Hd'].
        -- destruct (PrimFloat.ltb (confidence d) (confidence d')) eqn:Hlt';
             [|done].
           rewrite <- (Hmost d' Hd'); [|by rewrite Htag, (Hkeyed _ _ He)].
           symmetry. by eapply ltb_trans.
        -- apply list_elem_of_singleton in Hd'. subst d'. apply ltb_irrefl.
    + intros k v Hin. destruct (decide (k = det_tag d)) as [->|Hne];
        [|by apply Hold].
      pose proof (mapGet_elem _ _ _ Hnd Hin) as Hget'.
      rewrite Hget in Hget'. injection Hget' as ->.
      destruct (Hbest _ _ Hin) as ((d' & Hd' & Hk & Hc) & _). split.
      * exists d'. split_and!; [|done|done]. apply elem_of_app. by left.
      * intros d'' Hd'' Htag. apply elem_of_app in Hd'' as [Hd''|Hd''].
        -- by apply Hmost.
        -- apply list_elem_of_singleton in Hd''. by subst d''.
  - apply mapGet_None in Hget.
    intros k v Hin. apply mapSet_elem in Hin as [[-> ->]|[Hne Hin]];
      [| |done]; [|by apply Hold].
    split.
    + exists d. split_and!; [|done|done]. apply elem_of_app. right. left.
    + intros d' Hd' Htag. simpl in *.
      apply elem_of_app in Hd' as [Hd'|Hd'].
      * exfalso. apply Hget. rewrite <- Htag. by apply Hcover.
      * apply list_elem_of_singleton in Hd'. subst d'. apply ltb_irrefl.
Qed.

Lemma dedupLoop_invariant (detections : list Detection)
    (m : list (Tag * Detection)) (processed : list Detection) :
  dedupInvariant m processed ->
  dedupInvariant (foldl dedupStep m detections) (processed ++ detections).
Proof.
  revert m processed.
  induction detections as [|d ds IH]; intros m processed Hinv; simpl.
  - by rewrite app_nil_r.
  - rewrite (cons_middle d processed ds), app_assoc.
    by apply IH, dedupStep_invariant.
Qed.

Lemma deduplicateDetections_invariant (detections : list Detection) :
  dedupInvariant (foldl dedupStep [] detections) detections.
Proof.
  apply (dedupLoop_invariant detections [] []).
  unfold dedupInvariant, keyed. split_and!.
  - apply NoDup_nil_2.
  - intros k v Hin. by apply elem_of_nil in Hin.
  - intros d Hin. by apply elem_of_nil in Hin.
  - intros k v Hin. by apply elem_of_nil in Hin.
Qed.

(** X28: the deduplicated detections carry each detected tag once, in the
    order in which the tags were first detected. *)
Theorem deduplicated_tags_in_first_detection_order (detections : list Detection) :
  det_tag <$> deduplicateDetections detections = newSet (det_tag <$> detections)
  /\ NoDup (det_tag <$> deduplicateDetections detections).
Proof.
  assert (det_tag <$> deduplicateDetections detections
          = newSet (det_tag <$> detections)) as Heq.
  { change (deduplicateDetections detections)
      with ((foldl dedupStep [] detections).*2).
    destruct (deduplicateDetections_invariant detections) as (_ & Hkeyed & _).
    rewrite (keyed_tags _ Hkeyed). apply dedupLoop_keys. }
  split; [done|]. rewrite Heq. apply newSet_NoDup.
Qed.

(** X29: each deduplicated detection has the confidence of one of the
    detections of its tag, and none of the detections of its tag is more
    confident. *)
Theorem deduplicated_confidence_is_highest (detections : list Detection)
    (r : Detection) :
  r ∈ deduplicateDetections detections ->
  (exists d, d ∈ detections /\ det_tag d = det_tag r
             /\ confidence d = confidence r)
  /\ mostConfident detections r.
Proof.
  change (deduplicateDetections detections)
    with ((foldl dedupStep [] detections).*2).
  intros Hr. apply list_elem_of_fmap in Hr as ([k v] & -> & Hin). simpl.
  destruct (deduplicateDetections_invariant detections)
    as (_ & Hkeyed & _ & Hbest).
  rewrite (Hkeyed _ _ Hin). by apply Hbest.
Qed.


Lemma deduplicated_confidence_is_highest_witness :
  mergedApiDetection ∈ deduplicateDetections repeatedDetections /\
  (exists d, d ∈ repeatedDetections /\ det_tag d = det_tag mergedApiDetection
             /\ confidence d = confidence mergedApiDetection)
  /\ mostConfident repeatedDetections mergedApiDetection.
Proof.
  assert (mergedApiDetection ∈ deduplicateDetections repeatedDetections) as Hin.
  { assert (deduplicateDetections repeatedDetections
            = [mergedApiDetection; mobileDetection]) as ->
      by (vm_compute; reflexivity).
    left. }
  split; [exact Hin|].
  exact (deduplicated_confidence_is_highest repeatedDetections
           mergedApiDetection Hin).
Defined.

(** *** [refreshProjectHandler] *)

Section handler.

Variable fs : FileSystem.
Variable resolveTemplatesDir : Result string.
Variable analyzeProject : string -> list Detection.
Variable checkCompleteness : string -> list Tag -> Completeness.
Variable forgecraftYaml : string -> option (YamlFile ForgeCraftConfig).
Variable forgecraftJson : string -> option (YamlFile ForgeCraftConfig).

(** X25: what the handler composes and writes agrees with the report it
    shows: the tags are the resolved tags of the report, the updated
    configuration lists them, [UNIVERSAL] is among them, and the block
    count [after] of the report is the number of instruction blocks
    composed. *)
Theorem plan_agrees_with_report (args : RefreshArgs) (drift : DriftReport)
    (tags : list Tag) (cfg : ForgeCraftConfig)
    (composed : ComposedTemplates) :
  refreshProjectSteps fs resolveTemplatesDir analyzeProject checkCompleteness
    forgecraftYaml forgecraftJson args = Ok (Planned drift tags cfg composed) ->
  tags = updatedTags drift args /\
  Types.tags cfg = Some tags /\
  UNIVERSAL ∈ tags /\
  after (blockCountDelta drift) = length (claudeMdBlocks composed).
Proof.
  unfold refreshProjectSteps. cbv zeta.
  destruct (loadUserOverrides forgecraftYaml forgecraftJson (project_dir args))
    as [existingConfig|]; [|discriminate].
  destruct (analyzeDrift fs resolveTemplatesDir analyzeProject checkCompleteness
              (project_dir args) existingConfig args) as [report|e] eqn:Hrun;
    simpl; [|discriminate].
  destruct (analyzeDrift_report _ _ _ _ _ _ _ _ Hrun)
    as (_ & _ & allTemplates & Hload & _ & Hafter).
  rewrite Hload. simpl. intros [= <- <- <- <-]. simpl.
  split_and!; [done|done| |exact Hafter].
  unfold computeUpdatedTags. apply setAdd_elem. by left.
Qed.


(** X27: a [forgecraft.yaml] that is there but does not hold a
    configuration ends the handler with the answer for a project without
    configuration: [.forgecraft.json] is not tried, and the templates are
    not loaded. *)
Theorem unreadable_yaml_means_no_configuration (args : RefreshArgs)
    (file : YamlFile ForgeCraftConfig) :
  forgecraftYaml (project_dir args) = Some file ->
  (forall cfg, file <> Document cfg) ->
  refreshProjectSteps fs resolveTemplatesDir analyzeProject checkCompleteness
    forgecraftYaml forgecraftJson args = Ok NoConfiguration.
Proof.
  intros Hfile Hbad. unfold refreshProjectSteps, loadUserOverrides. cbv zeta.
  rewrite Hfile. destruct file as [msg| |cfg]; [done|done|].
  by destruct (Hbad cfg).
Qed.

End handler.

Lemma plan_agrees_with_report_witness :
  exists drift tags cfg composed,
    refreshProjectSteps oneBlockEach packaged apiAndMobile noChecks
      (configFile universalOnly) noConfigFile plainArgs
      = Ok (Planned drift tags cfg composed) /\
    tags = updatedTags drift plainArgs /\
    Types.tags cfg = Some tags /\
    UNIVERSAL ∈ tags /\
    after (blockCountDelta drift) = length (claudeMdBlocks composed).
Proof.
  destruct (refreshProjectSteps oneBlockEach packaged apiAndMobile noChecks
              (configFile universalOnly) noConfigFile plainArgs)
    as [[|drift tags cfg composed]|e] eqn:Hrun;
    [vm_compute in Hrun; discriminate Hrun| |vm_compute in Hrun; discriminate Hrun].
  exists drift, tags, cfg, composed. split; [reflexivity|].
  exact (plan_agrees_with_report oneBlockEach packaged apiAndMobile noChecks
           (configFile universalOnly) noConfigFile plainArgs drift tags cfg
           composed Hrun).
Defined.


Lemma unreadable_yaml_means_no_configuration_witness :
  malformedFile (project_dir plainArgs)
    = Some (Malformed "bad indentation of a mapping entry") /\
  refreshProjectSteps oneBlockEach packaged noDetections noChecks
    malformedFile (configFile universalOnly) plainArgs = Ok NoConfiguration.
Proof.
  split; [reflexivity|].
  apply (unreadable_yaml_means_no_configuration oneBlockEach packaged
           noDetections noChecks malformedFile (configFile universalOnly)
           plainArgs (Malformed "bad indentation of a mapping entry")).
  - reflexivity.
  - intros cfg. discriminate.
Defined.

(** *** [inferProjectName] *)

Lemma split_nonempty (sep : ascii) (s : string) : split sep s <> [].
Proof.
  destruct s as [|c rest]; simpl; [done|].
  destruct (Ascii.eqb c sep); [done|]. by destruct (split sep rest).
Qed.

Lemma split_app (sep : ascii) (a b : string) :
  split sep (a +:+ String sep b) = split sep a ++ split sep b.
Proof.
  induction a as [|c a IH]; simpl.
  - by rewrite Ascii.eqb_refl.
  - destruct (Ascii.eqb c sep); [by rewrite IH|].
    rewrite IH. pose proof (split_nonempty sep a) as Hne.
    by destruct (split sep a).
Qed.

Lemma split_plain (sep : ascii) (s : string) :
  hasChar sep s = false -> split sep s = [s].
Proof.
  induction s as [|c s IH]; simpl; [done|].
  intros H. apply orb_false_iff in H as [Hc Hs].
  by rewrite Hc, (IH Hs).
Qed.

Lemma replaceAll_app (from to : ascii) (a b : string) :
  replaceAll from to (a +:+ b) = replaceAll from to a +:+ replaceAll from to b.
Proof. induction a as [|c a IH]; simpl; [done|]. by rewrite IH. Qed.

Lemma replaceAll_plain (from to : ascii) (s : string) :
  hasChar from s = false -> replaceAll from to s = s.
Proof.
  induction s as [|c s IH]; simpl; [done|].
  intros H. apply orb_false_iff in H as [Hc Hs].
  by rewrite Hc, (IH Hs).
Qed.

Lemma lastPart (parts : list string) (name : string) :
  name <> EmptyString ->
  default "my-project"%string
    (last (filter (fun part => part <> EmptyString) (parts ++ [name])))
  = name.
Proof.
  intros Hname.
  rewrite filter_app, (filter_cons_True _ name []) by done.
  by rewrite filter_nil, last_snoc.
Qed.

(** X30: the project name is the last segment of the directory path, with
    either separator and with or without a separator at the end. *)
Theorem project_name_is_last_segment (dir name : string) (sep : ascii) :
  sep = "/"%char \/ sep = "\"%char ->
  isSegment name ->
  inferProjectName name = name /\
  inferProjectName (dir +:+ String sep name) = name /\
  inferProjectName (dir +:+ String sep (name +:+ String sep EmptyString)) = name.
Proof.
  intros Hsep (Hname & Hslash & Hback).
  assert ((if Ascii.eqb sep "\" then "/"%char else sep) = "/"%char) as Hto
    by (by destruct Hsep as [->| ->]).
  unfold inferProjectName. cbv zeta. split_and!.
  - rewrite (replaceAll_plain _ _ _ Hback), (split_plain _ _ Hslash).
    by apply (lastPart []).
  - rewrite replaceAll_app. simpl. rewrite Hto, (replaceAll_plain _ _ _ Hback).
    rewrite split_app, (split_plain _ _ Hslash). by apply lastPart.
  - rewrite replaceAll_app. simpl. rewrite replaceAll_app. simpl.
    rewrite Hto, (replaceAll_plain _ _ _ Hback).
    rewrite split_app, split_app, (split_plain _ _ Hslash). simpl.
    rewrite (cons_middle name _ [EmptyString]), app_assoc, filter_app.
    rewrite (filter_cons_False _ EmptyString []) by (by intros H; apply H).
    rewrite filter_nil, app_nil_r. by apply lastPart.
Qed.

Lemma project_name_is_last_segment_witness :
  isSegment "forgekit" /\
  inferProjectName "forgekit" = "forgekit"%string /\
  inferProjectName "C:\work\forgekit" = "forgekit"%string /\
  inferProjectName "C:\work\forgekit\" = "forgekit"%string.
Proof.
  assert (isSegment "forgekit") as Hseg.
  { unfold isSegment. split_and!; [discriminate|reflexivity|reflexivity]. }
  split; [exact Hseg|].
  exact (project_name_is_last_segment "C:\work" "forgekit" "\"
           (or_intror eq_refl) Hseg).
Defined.

End RefreshMore.
